(** * big-json-handler: the token scanner, the depth-discard helper,
      the array and object iterators and the value accessors of [src/bjh.ts].

    The reader object of the source is mutated in place by every operation;
    here each operation takes the reader and returns the reader it leaves
    behind together with its result (explicit state passing).  JavaScript
    numbers that hold offsets and depths are integers of [Z]; strings are
    [string]s of 8-bit code units; [data[i]] is [char_at], which is
    [None] (JavaScript's [undefined]) outside of the string. *)

From Stdlib Require Import ZArith String Ascii List Bool Lia.
From Stdlib Require Import DecimalString DecimalPos.
Import ListNotations.

Local Open Scope string_scope.
Local Open Scope Z_scope.

(** ** Data model *)

Inductive BjType : Set :=
| ERROR | END | ARRAY | OBJECT | NUMBER | STRING | BOOL | NULL.

Definition BjType_code (t : BjType) : Z :=
  match t with
  | ERROR => 0 | END => 1 | ARRAY => 2 | OBJECT => 3
  | NUMBER => 4 | STRING => 5 | BOOL => 6 | NULL => 7
  end.

Definition BjType_eqb (a b : BjType) : bool := BjType_code a =? BjType_code b.

(** [interface BjReader]: the fields [data], [cur], [end], [depth], [error]. *)
Record BjReader : Set := mkReader {
  rdata : string;
  rcur : Z;
  rend : Z;
  rdepth : Z;
  rerror : option string
}.

(** [interface BjValue]: the fields [type], [start], [end], [depth]. *)
Record BjValue : Set := mkValue {
  vtype : BjType;
  vstart : Z;
  vend : Z;
  vdepth : Z
}.

(** [interface BjIteratorResult] *)
Record BjIteratorResult : Set := mkIter {
  done : bool;
  value : option BjValue
}.

(** [interface BjObjectIteratorResult] *)
Record BjObjectIteratorResult : Set := mkObjIter {
  odone : bool;
  okey : option BjValue;
  ovalue : option BjValue
}.

Definition set_cur (r : BjReader) (c : Z) : BjReader :=
  mkReader (rdata r) c (rend r) (rdepth r) (rerror r).

Definition set_depth (r : BjReader) (d : Z) : BjReader :=
  mkReader (rdata r) (rcur r) (rend r) d (rerror r).

Definition set_error (r : BjReader) (e : string) : BjReader :=
  mkReader (rdata r) (rcur r) (rend r) (rdepth r) (Some e).

(** ** Characters and strings the way JavaScript reads them *)

Definition quote : ascii := Eval cbv in ascii_of_nat 34.
Definition backslash : ascii := Eval cbv in ascii_of_nat 92.
Definition char_lf : ascii := Eval cbv in ascii_of_nat 10.
Definition char_cr : ascii := Eval cbv in ascii_of_nat 13.
Definition char_tab : ascii := Eval cbv in ascii_of_nat 9.

(** [s.length] *)
Definition slen (s : string) : Z := Z.of_nat (String.length s).

(** [data[i]]: [None] stands for [undefined]. *)
Definition char_at (s : string) (i : Z) : option ascii :=
  if i <? 0 then None else String.get (Z.to_nat i) s.

(** [c === 'a'] for [c] a value read with [data[i]]. *)
Definition is_chr (c : option ascii) (a : ascii) : bool :=
  match c with
  | Some b => Ascii.eqb b a
  | None => false
  end.

(** [if (r.error)]: [null] and the empty string are falsy. *)
Definition truthy (e : option string) : bool :=
  match e with
  | Some (String _ _) => true
  | _ => false
  end.

(** [c >= '0' && c <= '9'] compares code units; it is false on [undefined]. *)
Definition is_digit (c : option ascii) : bool :=
  match c with
  | Some a => ((48 <=? N_of_ascii a) && (N_of_ascii a <=? 57))%N
  | None => false
  end.

Definition isNumberCont (c : option ascii) : bool :=
  is_digit c ||
  is_chr c "e" || is_chr c "E" || is_chr c "." || is_chr c "-" || is_chr c "+".

(** The loop of [isString], with [i] running over [expect]. *)
Fixpoint isString_from (data : string) (cur end_ : Z) (expect : string) (i : Z) : bool :=
  match expect with
  | EmptyString => true
  | String e rest =>
      if (end_ <=? cur + i) || negb (is_chr (char_at data (cur + i)) e)
      then false
      else isString_from data cur end_ rest (i + 1)
  end.

Definition isString (data : string) (cur end_ : Z) (expect : string) : bool :=
  isString_from data cur end_ expect 0.

(** [s.substring(a, b)]: both bounds are clamped to [0, s.length] and
    swapped when they come in the wrong order. *)
Definition clamp (s : string) (i : Z) : Z := Z.min (Z.max i 0) (slen s).

Definition substring (s : string) (a b : Z) : string :=
  let lo := Z.min (clamp s a) (clamp s b) in
  let hi := Z.max (clamp s a) (clamp s b) in
  String.substring (Z.to_nat lo) (Z.to_nat (hi - lo)) s.

(** ** The scanner: [bjRead] *)

(** The cases of the [switch (c)]. *)
Definition is_skip (c : option ascii) : bool :=
  is_chr c " " || is_chr c char_lf || is_chr c char_cr || is_chr c char_tab ||
  is_chr c ":" || is_chr c ",".

Definition is_number_start (c : option ascii) : bool :=
  is_chr c "-" || is_digit c.

Definition is_open (c : option ascii) : bool := is_chr c "{" || is_chr c "[".

Definition is_close (c : option ascii) : bool := is_chr c "}" || is_chr c "]".

Definition is_literal_start (c : option ascii) : bool :=
  is_chr c "n" || is_chr c "t" || is_chr c "f".

(** [while (r.cur < r.end && isNumberCont(r.data[r.cur])) r.cur++].
    Every turn moves the cursor one step towards [end_], so [end_ - cur]
    turns are all the loop can take. *)
Fixpoint number_loop (fuel : nat) (data : string) (end_ cur : Z) : Z :=
  match fuel with
  | O => cur
  | S fuel' =>
      if (cur <? end_) && isNumberCont (char_at data cur)
      then number_loop fuel' data end_ (cur + 1)
      else cur
  end.

Definition number_scan (data : string) (end_ cur : Z) : Z :=
  number_loop (Z.to_nat (end_ - cur)) data end_ cur.

(** One turn of the [while (true)] of the string case, after the tests
    that leave the loop: skip the escaped character, then step. *)
Definition string_advance (data : string) (end_ cur : Z) : Z :=
  let cur1 := if is_chr (char_at data cur) backslash then cur + 1 else cur in
  if cur1 <? end_ then cur1 + 1 else cur1.

(** The string loop: the cursor where it stops, and whether it stopped on
    the closing quote ([true]) or ran out of input ([false]).  Every turn
    that goes round again moves the cursor towards [end_], and with no
    turn left the cursor has reached it. *)
Fixpoint string_loop (fuel : nat) (data : string) (end_ cur : Z) : Z * bool :=
  match fuel with
  | O => (cur, false)
  | S fuel' =>
      if end_ <=? cur then (cur, false)
      else if is_chr (char_at data cur) quote then (cur, true)
      else string_loop fuel' data end_ (string_advance data end_ cur)
  end.

Definition string_scan (data : string) (end_ cur : Z) : Z * bool :=
  string_loop (Z.to_nat (end_ - cur)) data end_ cur.

(** What one turn of the outer [while (true)] of [bjRead] does: go round
    again ([continue]) or leave with a value ([return], or [break] followed
    by the two lines after the [switch]). *)
Inductive Step : Set :=
| Continue (r : BjReader)
| Return (r : BjReader) (v : BjValue).

Definition unknown_token (r : BjReader) : Step :=
  Return (set_error r "unknown token")
         (mkValue ERROR (rcur r) (rcur r) (rdepth r)).

Definition bjRead_step (r : BjReader) : Step :=
  if truthy (rerror r) then
    Return r (mkValue ERROR (rcur r) (rcur r) (rdepth r))
  else if rend r <=? rcur r then
    Return (set_error r "unexpected eof")
           (mkValue ERROR (rcur r) (rcur r) (rdepth r))
  else
    let c := char_at (rdata r) (rcur r) in
    if is_skip c then
      Continue (set_cur r (rcur r + 1))
    else if is_number_start c then
      let cur' := number_scan (rdata r) (rend r) (rcur r) in
      Return (set_cur r cur') (mkValue NUMBER (rcur r) cur' (rdepth r))
    else if is_chr c quote then
      let start := rcur r + 1 in
      match string_scan (rdata r) (rend r) start with
      | (cur', false) =>
          Return (set_error (set_cur r cur') "unclosed string")
                 (mkValue ERROR (start - 1) cur' (rdepth r))
      | (cur', true) =>
          Return (set_cur r (cur' + 1)) (mkValue STRING start cur' (rdepth r))
      end
    else if is_open c then
      let d := rdepth r + 1 in
      Return (set_cur (set_depth r d) (rcur r + 1))
             (mkValue (if is_chr c "{" then OBJECT else ARRAY)
                      (rcur r) (rcur r + 1) d)
    else if is_close c then
      let d := rdepth r - 1 in
      if d <? 0 then
        Return (set_error (set_depth r d)
                          (if is_chr c "}" then "stray '}'" else "stray ']'"))
               (mkValue ERROR (rcur r) (rcur r + 1) (d + 1))
      else
        Return (set_cur (set_depth r d) (rcur r + 1))
               (mkValue END (rcur r) (rcur r + 1) (rdepth r))
    else if is_literal_start c then
      let ty := if is_chr c "n" then NULL else BOOL in
      if isString (rdata r) (rcur r) (rend r) "null" then
        Return (set_cur r (rcur r + 4)) (mkValue ty (rcur r) (rcur r + 4) (rdepth r))
      else if isString (rdata r) (rcur r) (rend r) "true" then
        Return (set_cur r (rcur r + 4)) (mkValue ty (rcur r) (rcur r + 4) (rdepth r))
      else if isString (rdata r) (rcur r) (rend r) "false" then
        Return (set_cur r (rcur r + 5)) (mkValue ty (rcur r) (rcur r + 5) (rdepth r))
      else unknown_token r
    else unknown_token r.

(** The outer loop, with [fuel] the number of [continue]s it may take. *)
Fixpoint bjRead_loop (fuel : nat) (r : BjReader) : option (BjReader * BjValue) :=
  match bjRead_step r with
  | Return r' v => Some (r', v)
  | Continue r' =>
      match fuel with
      | O => None
      | S fuel' => bjRead_loop fuel' r'
      end
  end.

(** A [continue] needs [r.cur < r.end] and moves the cursor by one, so
    [r.end - r.cur] of them are enough (lemma [bjRead_loop_fuel]). *)
Definition bjRead_fuel (r : BjReader) : nat := Z.to_nat (rend r - rcur r).

(** [bjRead(r)].  The loop always returns within its fuel (lemma
    [bjRead_loop_Some]), so the second branch is never taken, and the
    function satisfies the equation of the [while (true)] loop (lemma
    [bjRead_unfold]). *)
Definition bjRead (r : BjReader) : BjReader * BjValue :=
  match bjRead_loop (bjRead_fuel r) r with
  | Some res => res
  | None => (r, mkValue ERROR (rcur r) (rcur r) (rdepth r))
  end.

(** [n] calls of [bjRead] in a row, dropping the values. *)
Fixpoint reads (n : nat) (r : BjReader) : BjReader :=
  match n with
  | O => r
  | S n' => reads n' (fst (bjRead r))
  end.

(** ** The depth-discard helper and the iterators *)

(** The loop of [bjDiscardUntil]; [val] is the value of the last scan. *)
Fixpoint bjDiscardUntil_loop (fuel : nat) (r : BjReader) (depth : Z) (val : BjValue)
  : option BjReader :=
  if negb (rdepth r =? depth) && negb (BjType_eqb (vtype val) ERROR) then
    match fuel with
    | O => None
    | S fuel' =>
        let (r', val') := bjRead r in
        bjDiscardUntil_loop fuel' r' depth val'
    end
  else Some r.

(** A turn of the loop moves the cursor or ends it, so [r.end - r.cur + 1]
    turns are enough (lemma [bjDiscardUntil_loop_fuel]). *)
Definition bjDiscardUntil_fuel (r : BjReader) : nat := S (Z.to_nat (rend r - rcur r)).

(** The loop entered with [val] the value of the last scan.  It always
    ends within its fuel (lemma [bjDiscardUntil_loop_Some]) and satisfies
    the equation of the [while] loop (lemma [bjDiscardUntil_from_unfold]). *)
Definition bjDiscardUntil_from (r : BjReader) (depth : Z) (val : BjValue) : BjReader :=
  match bjDiscardUntil_loop (bjDiscardUntil_fuel r) r depth val with
  | Some r' => r'
  | None => r
  end.

(** [val = { type: BjType.NULL, start: 0, end: 0, depth: 0 }], then the loop. *)
Definition bjDiscardUntil (r : BjReader) (depth : Z) : BjReader :=
  bjDiscardUntil_from r depth (mkValue NULL 0 0 0).

Definition bjIterArray (r : BjReader) (arr : BjValue) : BjReader * BjIteratorResult :=
  let r1 := bjDiscardUntil r (vdepth arr) in
  let (r2, val) := bjRead r1 in
  if BjType_eqb (vtype val) ERROR || BjType_eqb (vtype val) END
  then (r2, mkIter true None)
  else (r2, mkIter false (Some val)).

Definition bjIterObject (r : BjReader) (obj : BjValue)
  : BjReader * BjObjectIteratorResult :=
  let r1 := bjDiscardUntil r (vdepth obj) in
  let (r2, key) := bjRead r1 in
  if BjType_eqb (vtype key) ERROR || BjType_eqb (vtype key) END
  then (r2, mkObjIter true None None)
  else
    let (r3, val) := bjRead r2 in
    if BjType_eqb (vtype val) END
    then (set_error r3 "unexpected object end", mkObjIter true None None)
    else if BjType_eqb (vtype val) ERROR
    then (r3, mkObjIter true None None)
    else (r3, mkObjIter false (Some key) (Some val)).

(** [bjReader(data)] *)
Definition bjReader (data : string) : BjReader :=
  mkReader data 0 (slen data) 0 None.

(** ** Value accessors *)

(** An accessor returns its value or throws [new Error(msg)]. *)
Inductive Result (A : Type) : Type :=
| Ok (a : A)
| Throw (msg : string).

Arguments Ok {A} a.
Arguments Throw {A} msg.

(** What [parseFloat] computes, before the rounding to a binary64 number:
    not-a-number, an infinity, or the decimal [(-1)^neg * mant * 10^exp]. *)
Inductive JsNumber : Set :=
| NaN
| Infinity (neg : bool)
| Decimal (neg : bool) (mant : N) (exp : Z).

(** The built-in [parseFloat] of ECMAScript (not code of the repository):
    leading white space is dropped, and the longest prefix that is a
    [StrDecimalLiteral] is read; with no such prefix the result is [NaN]. *)
Module ParseFloat.

Definition is_space (a : ascii) : bool :=
  let n := N_of_ascii a in
  ((9 <=? n) && (n <=? 13) || (n =? 32) || (n =? 160))%N.

Fixpoint trim (s : string) : string :=
  match s with
  | String a rest => if is_space a then trim rest else s
  | EmptyString => s
  end.

Definition digit_of (a : ascii) : option N :=
  let n := N_of_ascii a in
  if ((48 <=? n) && (n <=? 57))%N then Some (n - 48)%N else None.

(** Reads a run of digits: the number read so far, how many digits were
    read, and the rest of the text. *)
Fixpoint digits (s : string) (acc : N) (count : nat) : N * nat * string :=
  match s with
  | String a rest =>
      match digit_of a with
      | Some d => digits rest (10 * acc + d)%N (S count)
      | None => (acc, count, s)
      end
  | EmptyString => (acc, count, s)
  end.

Definition sign (s : string) : bool * string :=
  match s with
  | String a rest =>
      if Ascii.eqb a "-" then (true, rest)
      else if Ascii.eqb a "+" then (false, rest)
      else (false, s)
  | EmptyString => (false, s)
  end.

(** The optional [ExponentPart]; it counts only when it is complete. *)
Definition exponent (neg : bool) (mant : N) (exp : Z) (s : string) : JsNumber :=
  match s with
  | String a rest =>
      if Ascii.eqb a "e" || Ascii.eqb a "E" then
        let (eneg, rest') := sign rest in
        match digits rest' 0%N O with
        | (_, O, _) => Decimal neg mant exp
        | (e, S _, _) =>
            Decimal neg mant (if eneg then exp - Z.of_N e else exp + Z.of_N e)
        end
      else Decimal neg mant exp
  | EmptyString => Decimal neg mant exp
  end.

Definition parse (s : string) : JsNumber :=
  let (neg, s1) := sign (trim s) in
  if String.prefix "Infinity" s1 then Infinity neg
  else
    match digits s1 0%N O with
    | (ip, ni, s2) =>
        match s2 with
        | String a s3 =>
            if Ascii.eqb a "." then
              match digits s3 ip O with
              | (m, nf, s4) =>
                  match (ni + nf)%nat with
                  | O => NaN
                  | S _ => exponent neg m (- Z.of_nat nf) s4
                  end
              end
            else
              match ni with
              | O => NaN
              | S _ => exponent neg ip 0 s2
              end
        | EmptyString =>
            match ni with
            | O => NaN
            | S _ => Decimal neg ip 0
            end
        end
    end.

End ParseFloat.

Definition parseFloat (s : string) : JsNumber := ParseFloat.parse s.

Definition bjGetString (r : BjReader) (val : BjValue) : Result string :=
  if negb (BjType_eqb (vtype val) STRING)
  then Throw "Value is not a string"
  else Ok (substring (rdata r) (vstart val) (vend val)).

Definition bjGetNumber (r : BjReader) (val : BjValue) : Result JsNumber :=
  if negb (BjType_eqb (vtype val) NUMBER)
  then Throw "Value is not a number"
  else Ok (parseFloat (substring (rdata r) (vstart val) (vend val))).

Definition bjGetBool (r : BjReader) (val : BjValue) : Result bool :=
  if negb (BjType_eqb (vtype val) BOOL)
  then Throw "Value is not a boolean"
  else Ok (String.eqb (substring (rdata r) (vstart val) (vend val)) "true").

Definition bjIsNull (val : BjValue) : bool := BjType_eqb (vtype val) NULL.

(** Test documents are written with ['] where JSON has a double quote. *)
Fixpoint json (s : string) : string :=
  match s with
  | String a rest => String (if Ascii.eqb a "'" then quote else a) (json rest)
  | EmptyString => EmptyString
  end.

(** ** The location resolver, the iterator classes and their callers *)

(** [interface BjLocation] *)
Record BjLocation : Set := mkLocation {
  line : Z;
  col : Z
}.

(** The [for] loop of [bjLocation]: [i], [line] and [col] are its
    variables.  It runs [r.cur] times when [r.cur] is positive and not at
    all otherwise. *)
Fixpoint bjLocation_loop (fuel : nat) (data : string) (cur i line col : Z)
  : BjLocation :=
  match fuel with
  | O => mkLocation line col
  | S fuel' =>
      if i <? cur then
        if is_chr (char_at data i) char_lf
        then bjLocation_loop fuel' data cur (i + 1) (line + 1) 1
        else bjLocation_loop fuel' data cur (i + 1) line (col + 1)
      else mkLocation line col
  end.

Definition bjLocation (r : BjReader) : BjLocation :=
  bjLocation_loop (Z.to_nat (rcur r)) (rdata r) (rcur r) 0 1 1.

(** [class BjArrayIterator]: its two private fields. *)
Record BjArrayIterator : Set := mkArrayIterator {
  ai_reader : BjReader;
  ai_array : BjValue
}.

(** [new BjArrayIterator(reader, array)] *)
Definition new_BjArrayIterator (reader : BjReader) (array : BjValue)
  : Result BjArrayIterator :=
  if negb (BjType_eqb (vtype array) ARRAY)
  then Throw "Value is not an array"
  else Ok (mkArrayIterator reader array).

(** The generator of [BjArrayIterator] run to its end by a consumer that
    leaves the reader alone between two values ([Array.from], or a
    [for ... of] whose body only projects values): the values it yields, and
    the reader it leaves. *)
Fixpoint BjArrayIterator_loop (fuel : nat) (r : BjReader) (array : BjValue)
  : option (BjReader * list BjValue) :=
  let (r', result) := bjIterArray r array in
  match done result, value result with
  | false, Some v =>
      match fuel with
      | O => None
      | S fuel' =>
          match BjArrayIterator_loop fuel' r' array with
          | Some (r'', vs) => Some (r'', v :: vs)
          | None => None
          end
      end
  | _, _ => Some (r', [])
  end.

(** A value yielded has moved the cursor towards [end], so [end - cur]
    turns are enough (lemma [BjArrayIterator_loop_Some]). *)
Definition BjArrayIterator_values (it : BjArrayIterator) : BjReader * list BjValue :=
  match BjArrayIterator_loop (Z.to_nat (rend (ai_reader it) - rcur (ai_reader it)))
                             (ai_reader it) (ai_array it) with
  | Some res => res
  | None => (ai_reader it, [])
  end.

(** [class BjObjectIterator] *)
Record BjObjectIterator : Set := mkObjectIterator {
  oi_reader : BjReader;
  oi_object : BjValue
}.

(** [new BjObjectIterator(reader, object)] *)
Definition new_BjObjectIterator (reader : BjReader) (object : BjValue)
  : Result BjObjectIterator :=
  if negb (BjType_eqb (vtype object) OBJECT)
  then Throw "Value is not an object"
  else Ok (mkObjectIterator reader object).

Fixpoint BjObjectIterator_loop (fuel : nat) (r : BjReader) (object : BjValue)
  : option (BjReader * list (BjValue * BjValue)) :=
  let (r', result) := bjIterObject r object in
  match odone result, okey result, ovalue result with
  | false, Some k, Some v =>
      match fuel with
      | O => None
      | S fuel' =>
          match BjObjectIterator_loop fuel' r' object with
          | Some (r'', kvs) => Some (r'', (k, v) :: kvs)
          | None => None
          end
      end
  | _, _, _ => Some (r', [])
  end.

Definition BjObjectIterator_entries (it : BjObjectIterator)
  : BjReader * list (BjValue * BjValue) :=
  match BjObjectIterator_loop (Z.to_nat (rend (oi_reader it) - rcur (oi_reader it)))
                              (oi_reader it) (oi_object it) with
  | Some res => res
  | None => (oi_reader it, [])
  end.

(** [test/benchmark.ts], [BjBenchmark.benchmarkArray]: the number of values
    the array iterator yields over the root of the document.  The body of
    the loop counts and projects numbers, which touches nothing. *)
Definition benchmarkArray (jsonString : string) : Result Z :=
  let reader := bjReader jsonString in
  let (reader', array) := bjRead reader in
  match new_BjArrayIterator reader' array with
  | Throw msg => Throw msg
  | Ok iterator =>
      Ok (fold_left (fun count _ => count + 1)
                    (snd (BjArrayIterator_values iterator)) 0)
  end.

(** [BjBenchmark.benchmarkObject] *)
Definition benchmarkObject (jsonString : string) : Result Z :=
  let reader := bjReader jsonString in
  let (reader', object) := bjRead reader in
  match new_BjObjectIterator reader' object with
  | Throw msg => Throw msg
  | Ok iterator =>
      Ok (fold_left (fun count _ => count + 1)
                    (snd (BjObjectIterator_entries iterator)) 0)
  end.

(** The template literal [`${i}`] on a natural number: its decimal digits. *)
Definition string_of_nat (i : nat) : string :=
  NilEmpty.string_of_uint (N.to_uint (N.of_nat i)).

(** [TestDataGenerator.generateLargeArray]: [[0, 1, ..., size - 1]]. *)
Definition generateLargeArray (size : nat) : string :=
  "[" ++ String.concat ", " (map string_of_nat (seq 0 size)) ++ "]".

(** [TestDataGenerator.generateLargeObject]:
    [{"key0": 0, ..., "key<size-1>": <size-1>}]. *)
Definition generateLargeObject (size : nat) : string :=
  "{" ++ String.concat ", "
           (map (fun i => String quote ("key" ++ string_of_nat i
                                          ++ String quote (": " ++ string_of_nat i)))
                (seq 0 size))
      ++ "}".

(** ** Vocabulary of the properties *)

(** The scan from [r] to [r'] met a closing bracket with no container
    open: the reader's depth went below zero, the value [v] carries the
    depth before the scan and spans the bracket, on which the cursor
    stays, and the message names the bracket. *)
Definition stray_close (r r' : BjReader) (v : BjValue) : Prop :=
  rdepth r' = rdepth r - 1 /\ rdepth r' < 0 /\ vdepth v = rdepth r
  /\ rcur r' = vstart v /\ vend v = vstart v + 1
  /\ (is_chr (char_at (rdata r) (vstart v)) "}" = true
        /\ rerror r' = Some "stray '}'"
      \/ is_chr (char_at (rdata r) (vstart v)) "]" = true
         /\ rerror r' = Some "stray ']'").

(** What a scan that went from [r] to [r'] and returned [v] has done to
    the depth, by the kind of [v]. *)
Definition depth_step (r r' : BjReader) (v : BjValue) : Prop :=
  match vtype v with
  | ARRAY | OBJECT => rdepth r' = rdepth r + 1 /\ vdepth v = rdepth r + 1
  | END => rdepth r' = rdepth r - 1 /\ 0 <= rdepth r' /\ vdepth v = rdepth r
  | ERROR => rdepth r' = rdepth r \/ stray_close r r' v
  | NUMBER | STRING | BOOL | NULL => rdepth r' = rdepth r /\ vdepth v = rdepth r
  end.

(** What every scan keeps, whichever token it met. *)
Record scan_facts (r r' : BjReader) (v : BjValue) : Prop := {
  sf_data : rdata r' = rdata r;
  sf_end : rend r' = rend r;
  sf_cur_ge : rcur r <= rcur r';
  sf_cur_le : rcur r' <= Z.max (rcur r) (rend r);
  sf_error : vtype v = ERROR <-> truthy (rerror r') = true;
  sf_token : vtype v <> ERROR ->
             rerror r' = rerror r /\ rcur r < rcur r' /\ rcur r < rend r;
  sf_depth : depth_step r r' v;
  sf_open : vtype v = ARRAY \/ vtype v = OBJECT -> rcur r' = vstart v + 1
}.

(** A step of the object iterator described with three outcomes only:
    exhausted when the key slot is End or Error, the error
    ["unexpected object end"] when the value slot is End, and the pair in
    every other case. *)
Definition iter_object_three_outcomes (r : BjReader) (obj : BjValue) : Prop :=
  let r1 := bjDiscardUntil r (vdepth obj) in
  let r2 := fst (bjRead r1) in
  let key := snd (bjRead r1) in
  let r3 := fst (bjRead r2) in
  let val := snd (bjRead r2) in
  let res := bjIterObject r obj in
  if BjType_eqb (vtype key) ERROR || BjType_eqb (vtype key) END then
    odone (snd res) = true /\ rerror (fst res) = rerror r2
  else if BjType_eqb (vtype val) END then
    odone (snd res) = true /\ rerror (fst res) = Some "unexpected object end"
  else
    snd res = mkObjIter false (Some key) (Some val).

(** [{"a": {"b": 1}}]: the reader and the root Object once the outer
    iterator has handed out the key ["a"] and the nested Object. *)
Definition nested_doc : string := json "{'a': {'b': 1}}".
Definition nested_root : BjValue := snd (bjRead (bjReader nested_doc)).
Definition nested_entered : BjReader :=
  fst (bjIterObject (fst (bjRead (bjReader nested_doc))) nested_root).

(** The closing quote as the specification words it: from position [i],
    a quote closes the string; a backslash hides the character after it,
    whatever it is; any other character is passed over.  [closes_at i q]:
    the string body starting at [i] is closed by the quote at [q]. *)
Inductive closes_at (data : string) (end_ : Z) : Z -> Z -> Prop :=
| closes_here (i : Z) :
    i < end_ -> is_chr (char_at data i) quote = true ->
    closes_at data end_ i i
| closes_escaped (i q : Z) :
    i < end_ -> is_chr (char_at data i) backslash = true ->
    closes_at data end_ (i + 2) q ->
    closes_at data end_ i q
| closes_plain (i q : Z) :
    i < end_ -> is_chr (char_at data i) quote = false ->
    is_chr (char_at data i) backslash = false ->
    closes_at data end_ (i + 1) q ->
    closes_at data end_ i q.

(** Well-formed text, as far as the scanner tells it apart.  A scalar
    occupies the positions from [i] up to (not including) [j]: one of the
    three literals, a number (a digit or ['-'], then the longest run of
    number characters), or a string up to its closing quote. *)
Inductive scalar_at (data : string) (end_ : Z) : Z -> Z -> Prop :=
| scalar_null (i : Z) :
    isString data i end_ "null" = true -> scalar_at data end_ i (i + 4)
| scalar_true (i : Z) :
    isString data i end_ "true" = true -> scalar_at data end_ i (i + 4)
| scalar_false (i : Z) :
    isString data i end_ "false" = true -> scalar_at data end_ i (i + 5)
| scalar_number (i j : Z) :
    i < j <= end_ ->
    is_number_start (char_at data i) = true ->
    (forall k, i <= k < j -> isNumberCont (char_at data k) = true) ->
    j = end_ \/ isNumberCont (char_at data j) = false ->
    scalar_at data end_ i j
| scalar_string (i q : Z) :
    i < end_ -> is_chr (char_at data i) quote = true ->
    closes_at data end_ (i + 1) q ->
    scalar_at data end_ i (q + 1).

(** [content_at data end_ i j n]: the text from [i] to [j] is a run of
    complete values, [n] tokens in all, with white space, commas and
    colons anywhere between them; a container is an opening bracket, such a
    run, and a closing bracket.  What stands between the brackets of a
    well-formed JSON array or object is of this shape (lemma
    [json_content]). *)
Inductive content_at (data : string) (end_ : Z) : Z -> Z -> nat -> Prop :=
| content_done (i : Z) :
    i <= end_ -> content_at data end_ i i O
| content_skip (i j : Z) (n : nat) :
    i < end_ -> is_skip (char_at data i) = true ->
    content_at data end_ (i + 1) j n ->
    content_at data end_ i j n
| content_scalar (i j k : Z) (n : nat) :
    scalar_at data end_ i j ->
    content_at data end_ j k n ->
    content_at data end_ i k (S n)
| content_container (i j k : Z) (n1 n2 : nat) :
    i < end_ -> is_open (char_at data i) = true ->
    content_at data end_ (i + 1) j n1 ->
    j < end_ -> is_close (char_at data j) = true ->
    content_at data end_ (j + 1) k n2 ->
    content_at data end_ i k (S n1 + S n2).

(** *** JSON text

    The grammar of JSON (ECMA-404, RFC 8259) on strings, to say what a
    well-formed value is. *)

Definition is_ws_char (a : ascii) : bool :=
  Ascii.eqb a " " || Ascii.eqb a char_lf || Ascii.eqb a char_cr
  || Ascii.eqb a char_tab.

Fixpoint all_chars (p : ascii -> bool) (s : string) : bool :=
  match s with
  | EmptyString => true
  | String a rest => p a && all_chars p rest
  end.

(** [ws] *)
Definition json_ws (s : string) : Prop := all_chars is_ws_char s = true.

Definition is_digit_char (a : ascii) : bool := is_digit (Some a).

Definition is_digit19_char (a : ascii) : bool :=
  ((49 <=? N_of_ascii a) && (N_of_ascii a <=? 57))%N.

(** A character of the set [[0-9eE.+-]]. *)
Definition is_number_char (a : ascii) : bool := isNumberCont (Some a).

(** [1*DIGIT] *)
Definition json_digits (s : string) : Prop :=
  s <> EmptyString /\ all_chars is_digit_char s = true.

(** [int = zero / ( digit1-9 *DIGIT )] *)
Definition json_int (s : string) : Prop :=
  s = "0"
  \/ exists a rest, s = String a rest /\ is_digit19_char a = true
                    /\ all_chars is_digit_char rest = true.

(** [[ frac ]], with [frac = decimal-point 1*DIGIT] *)
Definition json_frac (s : string) : Prop :=
  s = EmptyString \/ exists d, s = String "." d /\ json_digits d.

(** [[ exp ]], with [exp = e [ minus / plus ] 1*DIGIT] *)
Definition json_exp (s : string) : Prop :=
  s = EmptyString
  \/ exists e sg d,
      s = String e (sg ++ d) /\ (e = "e"%char \/ e = "E"%char)
      /\ (sg = EmptyString \/ sg = "+" \/ sg = "-") /\ json_digits d.

(** [number = [ minus ] int [ frac ] [ exp ]] *)
Definition json_number (s : string) : Prop :=
  exists m i f e,
    s = m ++ i ++ f ++ e
    /\ (m = EmptyString \/ m = "-")
    /\ json_int i /\ json_frac f /\ json_exp e.

Definition is_hex_char (a : ascii) : bool :=
  let n := N_of_ascii a in
  ((48 <=? n) && (n <=? 57) || (65 <=? n) && (n <=? 70)
   || (97 <=? n) && (n <=? 102))%N.

(** The characters that may follow a backslash, [u] apart. *)
Definition is_escape_char (a : ascii) : bool :=
  Ascii.eqb a quote || Ascii.eqb a backslash || Ascii.eqb a "/"
  || Ascii.eqb a "b" || Ascii.eqb a "f" || Ascii.eqb a "n"
  || Ascii.eqb a "r" || Ascii.eqb a "t".

(** [*char]: the body of a string, between the quotes. *)
Inductive json_chars : string -> Prop :=
| chars_nil : json_chars EmptyString
| chars_plain (a : ascii) (rest : string) :
    Ascii.eqb a quote = false -> Ascii.eqb a backslash = false ->
    (32 <=? N_of_ascii a)%N = true ->
    json_chars rest -> json_chars (String a rest)
| chars_escape (a : ascii) (rest : string) :
    is_escape_char a = true ->
    json_chars rest -> json_chars (String backslash (String a rest))
| chars_unicode (h1 h2 h3 h4 : ascii) (rest : string) :
    is_hex_char h1 = true -> is_hex_char h2 = true ->
    is_hex_char h3 = true -> is_hex_char h4 = true ->
    json_chars rest ->
    json_chars
      (String backslash
         (String "u" (String h1 (String h2 (String h3 (String h4 rest)))))).

(** [string = quotation-mark *char quotation-mark] *)
Definition json_string (s : string) : Prop :=
  exists body, s = String quote (body ++ String quote EmptyString)
               /\ json_chars body.

Inductive json_sort : Set := Value | Element | Elements | Member | Members.

(** [json_text Value s]: [s] is a JSON value; the other sorts are the members
    of arrays and objects, with the white space around them. *)
Inductive json_text : json_sort -> string -> Prop :=
| json_null : json_text Value "null"
| json_true : json_text Value "true"
| json_false : json_text Value "false"
| json_num (s : string) : json_number s -> json_text Value s
| json_str (s : string) : json_string s -> json_text Value s
| json_array_empty (w : string) :
    json_ws w -> json_text Value ("[" ++ w ++ "]")
| json_array (es : string) :
    json_text Elements es -> json_text Value ("[" ++ es ++ "]")
| json_object_empty (w : string) :
    json_ws w -> json_text Value ("{" ++ w ++ "}")
| json_object (ms : string) :
    json_text Members ms -> json_text Value ("{" ++ ms ++ "}")
| json_element (w1 v w2 : string) :
    json_ws w1 -> json_text Value v -> json_ws w2 ->
    json_text Element (w1 ++ v ++ w2)
| json_elements_one (e : string) :
    json_text Element e -> json_text Elements e
| json_elements_more (e es : string) :
    json_text Element e -> json_text Elements es -> json_text Elements (e ++ "," ++ es)
| json_member (w1 k w2 e : string) :
    json_ws w1 -> json_string k -> json_ws w2 -> json_text Element e ->
    json_text Member (w1 ++ k ++ w2 ++ ":" ++ e)
| json_members_one (m : string) :
    json_text Member m -> json_text Members m
| json_members_more (m ms : string) :
    json_text Member m -> json_text Members ms -> json_text Members (m ++ "," ++ ms).

(** An array or an object, as its opening bracket, what is between the
    brackets, and its closing bracket. *)
Definition json_container (opening body closing : string) : Prop :=
  (opening = "[" /\ closing = "]" /\ (json_ws body \/ json_text Elements body))
  \/ (opening = "{" /\ closing = "}" /\ (json_ws body \/ json_text Members body)).

(** The text from position [i] of [data] on. *)
Fixpoint drop (n : nat) (s : string) : string :=
  match n, s with
  | O, _ => s
  | S n', String _ rest => drop n' rest
  | S _, EmptyString => EmptyString
  end.

Definition suffix_at (data : string) (i : Z) (s : string) : Prop :=
  0 <= i <= slen data /\ drop (Z.to_nat i) data = s.

(** What may come after a value: the end of the text, or a character that
    does not continue a number. *)
Definition follows (rest : string) : Prop :=
  match rest with
  | EmptyString => True
  | String a _ => isNumberCont (Some a) = false
  end.

(** [r'] is [r] with the cursor moved forward, and not beyond [end] unless
    it was beyond it already. *)
Definition cursor_forward (r r' : BjReader) : Prop :=
  rdata r' = rdata r /\ rend r' = rend r
  /\ rcur r <= rcur r' <= Z.max (rcur r) (rend r).

(** *** The character sets of the specification

    The sets are written out character by character, apart from the
    scanner's own tests, to compare the two. *)

(** The set [[0-9eE.+-]]. *)
Definition number_chars : list ascii :=
  list_ascii_of_string "0123456789eE.+-".

(** A digit or ['-']. *)
Definition number_start_chars : list ascii :=
  list_ascii_of_string "0123456789-".

(** The character read, [c], is one of the characters [l]; nothing read
    ([undefined]) is none of them. *)
Definition char_in (l : list ascii) (c : option ascii) : Prop :=
  exists a, c = Some a /\ In a l.

(** ** Vocabulary of the further properties *)

(** The number of line feeds among the first [n] characters of [data]. *)
Fixpoint newlines (data : string) (n : nat) : Z :=
  match n with
  | O => 0
  | S m => newlines data m
           + (if is_chr (char_at data (Z.of_nat m)) char_lf then 1 else 0)
  end.

(** A location earlier in the text than another: on an earlier line, or
    on the same line at an earlier column. *)
Definition loc_lt (a b : BjLocation) : Prop :=
  line a < line b \/ (line a = line b /\ col a < col b).

(** What one turn of the loop of [bjLocation] does at the character [c]. *)
Definition loc_step (c : option ascii) (l : BjLocation) : BjLocation :=
  if is_chr c char_lf then mkLocation (line l + 1) 1
  else mkLocation (line l) (col l + 1).

(** What the kind of a value says of the text at its span. *)
Definition kind_at (data : string) (end_ : Z) (v : BjValue) : Prop :=
  match vtype v with
  | NUMBER =>
      is_number_start (char_at data (vstart v)) = true
      /\ (forall i, vstart v <= i < vend v ->
                    isNumberCont (char_at data i) = true)
      /\ (vend v = end_ \/ isNumberCont (char_at data (vend v)) = false)
  | STRING =>
      is_chr (char_at data (vstart v - 1)) quote = true
      /\ closes_at data end_ (vstart v) (vend v)
  | NULL =>
      isString data (vstart v) end_ "null" = true /\ vend v = vstart v + 4
  | BOOL =>
      (isString data (vstart v) end_ "true" = true /\ vend v = vstart v + 4)
      \/ (isString data (vstart v) end_ "false" = true
          /\ vend v = vstart v + 5)
  | ARRAY =>
      is_chr (char_at data (vstart v)) "[" = true /\ vend v = vstart v + 1
  | OBJECT =>
      is_chr (char_at data (vstart v)) "{" = true /\ vend v = vstart v + 1
  | END =>
      is_close (char_at data (vstart v)) = true /\ vend v = vstart v + 1
  | ERROR => True
  end.

(** The errors a scan can record on a reader that had none, each with
    where it leaves the cursor. *)
Definition error_at (r r' : BjReader) (v : BjValue) : Prop :=
  (rerror r' = Some "unexpected eof"
   /\ rend r <= rcur r' /\ vstart v = rcur r' /\ vend v = rcur r'
   /\ rdepth r' = rdepth r)
  \/ (rerror r' = Some "unknown token"
      /\ rcur r' < rend r /\ vstart v = rcur r' /\ vend v = rcur r'
      /\ rdepth r' = rdepth r
      /\ is_skip (char_at (rdata r) (rcur r')) = false
      /\ is_number_start (char_at (rdata r) (rcur r')) = false
      /\ is_chr (char_at (rdata r) (rcur r')) quote = false
      /\ is_open (char_at (rdata r) (rcur r')) = false
      /\ is_close (char_at (rdata r) (rcur r')) = false)
  \/ (rerror r' = Some "unclosed string"
      /\ rcur r' = rend r /\ vend v = rend r /\ rdepth r' = rdepth r
      /\ is_chr (char_at (rdata r) (vstart v)) quote = true
      /\ forall q, ~ closes_at (rdata r) (rend r) (vstart v + 1) q)
  \/ stray_close r r' v.

(** What a scan from [r] to [r'] that returned [v] says of the span of
    [v]. *)
Record token_facts (r r' : BjReader) (v : BjValue) : Prop := {
  tf_span : vtype v <> ERROR ->
            rcur r <= vstart v /\ vstart v <= vend v
            /\ rcur r' = (if BjType_eqb (vtype v) STRING
                          then vend v + 1 else vend v)
            /\ 0 <= vstart v /\ vend v <= slen (rdata r);
  tf_kind : kind_at (rdata r) (rend r) v;
  tf_error : truthy (rerror r) = false -> vtype v = ERROR -> error_at r r' v
}.

(** The value the scanner returns for the scalar from [i] to [j] at depth
    [d]: the first character tells its kind, and the span of a string
    leaves the quotes out. *)
Definition scalar_value (data : string) (d i j : Z) : BjValue :=
  let c := char_at data i in
  if is_chr c quote then mkValue STRING (i + 1) (j - 1) d
  else mkValue (if is_number_start c then NUMBER
                else if is_chr c "n" then NULL else BOOL) i j d.

(** [item_at data end_ d i j v]: one complete value stands from [i] to [j]
    in a container of depth [d], and [v] is what the iterator of that
    container hands out for it: the scalar itself, or, for a nested
    container, its opening bracket at depth [d + 1]. *)
Inductive item_at (data : string) (end_ d : Z) : Z -> Z -> BjValue -> Prop :=
| item_scalar (i j : Z) :
    scalar_at data end_ i j ->
    item_at data end_ d i j (scalar_value data d i j)
| item_container (i j : Z) (n : nat) :
    i < end_ -> is_open (char_at data i) = true ->
    content_at data end_ (i + 1) j n ->
    j < end_ -> is_close (char_at data j) = true ->
    item_at data end_ d i (j + 1)
            (mkValue (if is_chr (char_at data i) "{" then OBJECT else ARRAY)
                     i (i + 1) (d + 1)).

(** [items_at data end_ d i j vs]: the text from [i] to [j] is a run of
    complete values, with white space, commas and colons anywhere between
    them, and [vs] are the values handed out for them, in order. *)
Inductive items_at (data : string) (end_ d : Z)
  : Z -> Z -> list BjValue -> Prop :=
| items_nil (i : Z) : i <= end_ -> items_at data end_ d i i []
| items_skip (i j : Z) (vs : list BjValue) :
    i < end_ -> is_skip (char_at data i) = true ->
    items_at data end_ d (i + 1) j vs ->
    items_at data end_ d i j vs
| items_cons (i j k : Z) (v : BjValue) (vs : list BjValue) :
    item_at data end_ d i j v ->
    items_at data end_ d j k vs ->
    items_at data end_ d i k (v :: vs).

(** The same for the members of an object: a scalar in the key slot
    (a string in JSON, but the iterator takes any), then a value. *)
Inductive entries_at (data : string) (end_ d : Z)
  : Z -> Z -> list (BjValue * BjValue) -> Prop :=
| entries_nil (i : Z) : i <= end_ -> entries_at data end_ d i i []
| entries_skip (i j : Z) (es : list (BjValue * BjValue)) :
    i < end_ -> is_skip (char_at data i) = true ->
    entries_at data end_ d (i + 1) j es ->
    entries_at data end_ d i j es
| entries_cons (i j j' k l : Z) (v : BjValue) (es : list (BjValue * BjValue)) :
    scalar_at data end_ i j ->
    j <= j' <= end_ ->
    (forall x, j <= x < j' -> is_skip (char_at data x) = true) ->
    item_at data end_ d j' k v ->
    entries_at data end_ d k l es ->
    entries_at data end_ d i l ((scalar_value data d i j, v) :: es).

(** What holds of a value [v] handed out by an iterator over the container
    [c] that started from the reader [r]. *)
Definition yielded (r : BjReader) (c v : BjValue) : Prop :=
  vtype v <> ERROR /\ vtype v <> END
  /\ rcur r <= vstart v <= vend v /\ vend v <= rend r
  /\ vdepth v = (if BjType_eqb (vtype v) ARRAY || BjType_eqb (vtype v) OBJECT
                 then vdepth c + 1 else vdepth c).

(** The kind of a value and the text of its span. *)
Definition shape (data : string) (v : BjValue) : BjType * string :=
  (vtype v, substring data (vstart v) (vend v)).

(** The text of a member as [generateLargeObject] writes it: the key
    between quotes, a colon, a space, and the value. *)
Definition member_text (kx : string * string) : string :=
  String quote (fst kx ++ String quote (": " ++ snd kx)).

(** The kind and the text the scanner gives the value written [v]: a
    string loses its quotes, a container shows its opening bracket only. *)
Definition text_shape (v : string) : BjType * string :=
  match v with
  | EmptyString => (ERROR, EmptyString)
  | String c rest =>
      if Ascii.eqb c quote
      then (STRING, String.substring 0 (String.length rest - 1)%nat rest)
      else if Ascii.eqb c "[" then (ARRAY, "[")
      else if Ascii.eqb c "{" then (OBJECT, "{")
      else if Ascii.eqb c "n" then (NULL, v)
      else if Ascii.eqb c "t" || Ascii.eqb c "f" then (BOOL, v)
      else (NUMBER, v)
  end.

(** [json_elements vs es]: [es] is the text of the elements of an array,
    and [vs] are the texts of their values, in order. *)
Inductive json_elements : list string -> string -> Prop :=
| elements_one (w1 v w2 : string) :
    json_ws w1 -> json_text Value v -> json_ws w2 ->
    json_elements [v] (w1 ++ v ++ w2)
| elements_more (w1 v w2 es : string) (vs : list string) :
    json_ws w1 -> json_text Value v -> json_ws w2 ->
    json_elements vs es ->
    json_elements (v :: vs) ((w1 ++ v ++ w2) ++ "," ++ es).

(** The text of the string with body [k]. *)
Definition key_text (k : string) : string :=
  String quote (k ++ String quote EmptyString).

(** [json_members kvs ms]: [ms] is the text of the members of an object,
    and [kvs] are the bodies of their keys with the texts of their values,
    in order. *)
Inductive json_members : list (string * string) -> string -> Prop :=
| members_one (w1 k w2 w3 v w4 : string) :
    json_ws w1 -> json_chars k -> json_ws w2 ->
    json_ws w3 -> json_text Value v -> json_ws w4 ->
    json_members [(k, v)] (w1 ++ key_text k ++ w2 ++ ":" ++ (w3 ++ v ++ w4))
| members_more (w1 k w2 w3 v w4 ms : string) (kvs : list (string * string)) :
    json_ws w1 -> json_chars k -> json_ws w2 ->
    json_ws w3 -> json_text Value v -> json_ws w4 ->
    json_members kvs ms ->
    json_members ((k, v) :: kvs)
                 ((w1 ++ key_text k ++ w2 ++ ":" ++ (w3 ++ v ++ w4))
                    ++ "," ++ ms).

(** Spans in the order of the text, none reaching into the next. *)
Fixpoint ordered_spans (vs : list BjValue) : Prop :=
  match vs with
  | v1 :: ((v2 :: _) as rest) => vend v1 <= vstart v2 /\ ordered_spans rest
  | _ => True
  end.

(** How the run of an iterator over the container [c] leaves the reader:
    with an error, or one level above the container. *)
Definition iterator_ended (c : BjValue) (r' : BjReader) : Prop :=
  truthy (rerror r') = true \/ rdepth r' = vdepth c - 1.

(** What holds of a pair handed out by an iterator over the object [c]
    that started from the reader [r]. *)
Definition yielded_pair (r : BjReader) (c : BjValue) (kv : BjValue * BjValue)
  : Prop :=
  yielded r c (fst kv)
  /\ vtype (snd kv) <> ERROR /\ vtype (snd kv) <> END
  /\ vend (fst kv) <= vstart (snd kv) <= vend (snd kv)
  /\ vend (snd kv) <= rend r.

(** Where the token of a value begins: at the start of its span, or at the
    opening quote for a String. *)
Definition token_start (v : BjValue) : Z :=
  if BjType_eqb (vtype v) STRING then vstart v - 1 else vstart v.

(** The first character of [data] that is no white space, comma or colon
    is [c]. *)
Definition first_token (data : string) (c : ascii) : Prop :=
  exists p, 0 <= p < slen data
            /\ (forall x, 0 <= x < p -> is_skip (char_at data x) = true)
            /\ char_at data p = Some c.

(** What stands in an array between one of its elements and its closing
    bracket: white space only, or white space, a comma and the elements
    [sibs] that remain. *)
Definition json_more_elements (sibs : list string) (rest : string) : Prop :=
  (json_ws rest /\ sibs = [])
  \/ exists w es, rest = w ++ "," ++ es /\ json_ws w /\ json_elements sibs es.

(** The same in an object, after one of its members. *)
Definition json_more_members (kvs : list (string * string)) (rest : string)
  : Prop :=
  (json_ws rest /\ kvs = [])
  \/ exists w ms, rest = w ++ "," ++ ms /\ json_ws w /\ json_members kvs ms.

(** * Properties *)

(** ** Kinds *)

Lemma BjType_eqb_eq (a b : BjType) : BjType_eqb a b = true <-> a = b.
Proof.
  unfold BjType_eqb; rewrite Z.eqb_eq; split; [|intros ->; reflexivity].
  destruct a, b; simpl; intros H; try reflexivity; discriminate H.
Qed.

Lemma BjType_eqb_neq (a b : BjType) : BjType_eqb a b = false <-> a <> b.
Proof.
  rewrite <- BjType_eqb_eq; destruct (BjType_eqb a b); split; intros H;
    try congruence; exfalso; apply H; reflexivity.
Qed.

(** ** The inner loops *)

Section InnerLoops.

Variable data : string.
Variable end_ : Z.

Lemma number_loop_bounds (fuel : nat) (cur : Z) :
  cur <= number_loop fuel data end_ cur <= Z.max cur end_.
Proof.
  revert cur; induction fuel as [|fuel IH]; intros cur; simpl; [lia|].
  destruct (cur <? end_) eqn:E; simpl; [|lia].
  apply Z.ltb_lt in E.
  destruct (isNumberCont (char_at data cur)); [|lia].
  specialize (IH (cur + 1)); lia.
Qed.

Lemma number_loop_run (fuel : nat) (cur i : Z) :
  cur <= i < number_loop fuel data end_ cur ->
  isNumberCont (char_at data i) = true.
Proof.
  revert cur; induction fuel as [|fuel IH]; intros cur; simpl; [lia|].
  destruct (cur <? end_) eqn:E; simpl; [|lia].
  destruct (isNumberCont (char_at data cur)) eqn:C; [|lia].
  intros H. destruct (Z.eq_dec i cur) as [->|N]; [exact C|].
  apply (IH (cur + 1)); lia.
Qed.

Lemma number_loop_stops (fuel : nat) (cur : Z) :
  (Z.to_nat (end_ - cur) <= fuel)%nat ->
  (number_loop fuel data end_ cur <? end_)
    && isNumberCont (char_at data (number_loop fuel data end_ cur)) = false.
Proof.
  revert cur; induction fuel as [|fuel IH]; intros cur Hf; simpl.
  - replace (cur <? end_) with false; [reflexivity|].
    symmetry; apply Z.ltb_ge; lia.
  - destruct ((cur <? end_) && isNumberCont (char_at data cur)) eqn:E;
      [|exact E].
    apply andb_prop in E; destruct E as [E _]; apply Z.ltb_lt in E.
    apply IH; lia.
Qed.

(** The equation of the [while] loop of the number case. *)
Lemma number_scan_unfold (cur : Z) :
  number_scan data end_ cur =
  if (cur <? end_) && isNumberCont (char_at data cur)
  then number_scan data end_ (cur + 1)
  else cur.
Proof.
  unfold number_scan.
  destruct (cur <? end_) eqn:E; simpl.
  - apply Z.ltb_lt in E.
    replace (Z.to_nat (end_ - cur)) with (S (Z.to_nat (end_ - (cur + 1)))) by lia.
    simpl. rewrite (proj2 (Z.ltb_lt _ _) E). reflexivity.
  - apply Z.ltb_ge in E.
    replace (Z.to_nat (end_ - cur)) with O by lia. reflexivity.
Qed.

Lemma string_advance_bounds (cur : Z) :
  cur < end_ -> cur < string_advance data end_ cur <= end_.
Proof.
  intros H; unfold string_advance.
  destruct (is_chr (char_at data cur) backslash).
  - destruct (cur + 1 <? end_) eqn:E;
      [apply Z.ltb_lt in E | apply Z.ltb_ge in E]; lia.
  - rewrite (proj2 (Z.ltb_lt _ _) H); lia.
Qed.

Lemma string_loop_bounds (fuel : nat) (cur : Z) :
  cur <= fst (string_loop fuel data end_ cur) <= Z.max cur end_.
Proof.
  revert cur; induction fuel as [|fuel IH]; intros cur; simpl; [lia|].
  destruct (end_ <=? cur) eqn:E; simpl; [lia|].
  apply Z.leb_gt in E.
  destruct (is_chr (char_at data cur) quote); simpl; [lia|].
  pose proof (string_advance_bounds cur E).
  specialize (IH (string_advance data end_ cur)); lia.
Qed.

Lemma string_loop_closed (fuel : nat) (cur q : Z) :
  string_loop fuel data end_ cur = (q, true) ->
  q < end_ /\ is_chr (char_at data q) quote = true.
Proof.
  revert cur; induction fuel as [|fuel IH]; intros cur; simpl; [discriminate|].
  destruct (end_ <=? cur) eqn:E; [discriminate|].
  apply Z.leb_gt in E.
  destruct (is_chr (char_at data cur) quote) eqn:Q.
  - intros H; inversion H; subst; auto.
  - apply IH.
Qed.

Lemma string_loop_unclosed (fuel : nat) (cur q : Z) :
  (Z.to_nat (end_ - cur) <= fuel)%nat ->
  string_loop fuel data end_ cur = (q, false) -> end_ <= q.
Proof.
  revert cur; induction fuel as [|fuel IH]; intros cur Hf; simpl.
  - intros H; inversion H; subst; lia.
  - destruct (end_ <=? cur) eqn:E.
    + apply Z.leb_le in E. intros H; inversion H; subst; lia.
    + apply Z.leb_gt in E.
      destruct (is_chr (char_at data cur) quote); [discriminate|].
      pose proof (string_advance_bounds cur E).
      apply IH; lia.
Qed.

(** More fuel than the distance to [end_] changes nothing. *)
Lemma string_loop_fuel_irrelevant (f1 f2 : nat) (cur : Z) :
  (Z.to_nat (end_ - cur) <= f1)%nat ->
  (Z.to_nat (end_ - cur) <= f2)%nat ->
  string_loop f1 data end_ cur = string_loop f2 data end_ cur.
Proof.
  revert f2 cur; induction f1 as [|f1 IH]; intros [|f2] cur H1 H2;
    try reflexivity; simpl.
  - replace (end_ <=? cur) with true; [reflexivity|].
    symmetry; apply Z.leb_le; lia.
  - replace (end_ <=? cur) with true; [reflexivity|].
    symmetry; apply Z.leb_le; lia.
  - destruct (end_ <=? cur) eqn:E; [reflexivity|].
    apply Z.leb_gt in E.
    destruct (is_chr (char_at data cur) quote); [reflexivity|].
    pose proof (string_advance_bounds cur E).
    apply IH; lia.
Qed.

Lemma string_loop_fuel (fuel : nat) (cur : Z) :
  (Z.to_nat (end_ - cur) <= fuel)%nat ->
  string_loop fuel data end_ cur = string_scan data end_ cur.
Proof.
  intros H; apply string_loop_fuel_irrelevant; [exact H|lia].
Qed.

(** The equation of the [while (true)] loop of the string case. *)
Lemma string_scan_unfold (cur : Z) :
  string_scan data end_ cur =
  if end_ <=? cur then (cur, false)
  else if is_chr (char_at data cur) quote then (cur, true)
  else string_scan data end_ (string_advance data end_ cur).
Proof.
  rewrite <- (string_loop_fuel (S (Z.to_nat (end_ - cur)))) by lia.
  simpl. destruct (end_ <=? cur) eqn:E; [reflexivity|].
  apply Z.leb_gt in E.
  destruct (is_chr (char_at data cur) quote); [reflexivity|].
  pose proof (string_advance_bounds cur E).
  apply string_loop_fuel; lia.
Qed.

Lemma isString_from_bound (expect : string) (cur i : Z) :
  isString_from data cur end_ expect i = true ->
  cur + i + slen expect <= end_ \/ expect = EmptyString.
Proof.
  revert i; induction expect as [|e rest IH]; intros i; simpl; [auto|].
  destruct (end_ <=? cur + i) eqn:E; simpl; [discriminate|].
  apply Z.leb_gt in E.
  destruct (is_chr (char_at data (cur + i)) e); simpl; [|discriminate].
  intros H; left. destruct (IH _ H) as [B| ->]; unfold slen in *; simpl in *; lia.
Qed.

Lemma isString_bound (expect : string) (cur : Z) :
  isString data cur end_ expect = true ->
  expect <> EmptyString ->
  cur + slen expect <= end_.
Proof.
  intros H N. destruct (isString_from_bound _ _ _ H); [lia|contradiction].
Qed.

End InnerLoops.

Lemma number_start_is_cont (c : option ascii) :
  is_number_start c = true -> isNumberCont c = true.
Proof.
  unfold is_number_start, isNumberCont.
  destruct (is_digit c), (is_chr c "-"); simpl; intros H;
    try reflexivity; try discriminate H.
  now rewrite !orb_true_r.
Qed.

Lemma number_scan_advances (data : string) (end_ cur : Z) :
  cur < end_ -> is_number_start (char_at data cur) = true ->
  cur < number_scan data end_ cur.
Proof.
  intros H C. rewrite number_scan_unfold.
  rewrite (proj2 (Z.ltb_lt _ _) H), (number_start_is_cont _ C); simpl.
  pose proof (number_loop_bounds data end_ (Z.to_nat (end_ - (cur + 1))) (cur + 1)).
  unfold number_scan; lia.
Qed.

(** ** One turn of the scanner *)

Ltac break_ifs :=
  repeat match goal with
         | |- context [if ?b then _ else _] =>
             match type of b with bool => destruct b end
         end; simpl.

Ltac scan_facts_split :=
  constructor; simpl;
  [ reflexivity
  | reflexivity
  | lia
  | lia
  | break_ifs; split; intros; solve [discriminate | congruence | reflexivity | assumption]
  | break_ifs; intros Hne;
    solve [exfalso; apply Hne; reflexivity | repeat split; solve [lia | assumption | reflexivity]]
  | unfold depth_step; break_ifs; lia
  | break_ifs; intros [X|X]; solve [discriminate X | reflexivity] ].

Lemma bjRead_step_continue (r r1 : BjReader) :
  bjRead_step r = Continue r1 ->
  r1 = set_cur r (rcur r + 1) /\ rcur r < rend r /\ truthy (rerror r) = false.
Proof.
  unfold bjRead_step, unknown_token.
  destruct (truthy (rerror r)); [discriminate|].
  destruct (rend r <=? rcur r) eqn:E; [discriminate|].
  apply Z.leb_gt in E. cbv zeta.
  destruct (is_skip _).
  { intros H; inversion H; auto. }
  destruct (is_number_start _); [discriminate|].
  destruct (is_chr _ quote).
  { destruct (string_scan _ _ _) as [q [|]]; discriminate. }
  destruct (is_open _); [discriminate|].
  destruct (is_close _).
  { destruct (_ <? 0); discriminate. }
  destruct (is_literal_start _); [|discriminate].
  repeat (destruct (isString _ _ _ _); [discriminate|]). discriminate.
Qed.

Lemma bjRead_step_return (r r' : BjReader) (v : BjValue) :
  bjRead_step r = Return r' v -> scan_facts r r' v.
Proof.
  unfold bjRead_step, unknown_token.
  destruct (truthy (rerror r)) eqn:T.
  { intros H; inversion H; subst; clear H. scan_facts_split. }
  destruct (rend r <=? rcur r) eqn:E.
  { intros H; inversion H; subst; clear H. scan_facts_split. }
  apply Z.leb_gt in E. cbv zeta.
  destruct (is_skip _); [discriminate|].
  destruct (is_number_start _) eqn:N.
  { intros H; inversion H; subst; clear H.
    pose proof (number_scan_advances _ _ _ E N).
    pose proof (number_loop_bounds (rdata r) (rend r)
                  (Z.to_nat (rend r - rcur r)) (rcur r)) as B.
    fold (number_scan (rdata r) (rend r) (rcur r)) in B.
    scan_facts_split. }
  destruct (is_chr _ quote).
  { destruct (string_scan _ _ _) as [q [|]] eqn:S;
      intros H; inversion H; subst; clear H;
      pose proof (string_loop_bounds (rdata r) (rend r)
                    (Z.to_nat (rend r - (rcur r + 1))) (rcur r + 1)) as B;
      fold (string_scan (rdata r) (rend r) (rcur r + 1)) in B;
      rewrite S in B; simpl in B.
    - apply string_loop_closed in S. scan_facts_split.
    - scan_facts_split. }
  destruct (is_open _).
  { intros H; inversion H; subst; clear H. scan_facts_split. }
  destruct (is_close _) eqn:C.
  { destruct (rdepth r - 1 <? 0) eqn:D;
      intros H; inversion H; subst; clear H;
      [apply Z.ltb_lt in D | apply Z.ltb_ge in D]; [|scan_facts_split].
    constructor; simpl;
      [ reflexivity | reflexivity | lia | lia
      | break_ifs; split; reflexivity
      | intros Hne; exfalso; apply Hne; reflexivity |
      | intros [X|X]; discriminate X ].
    right. unfold stray_close; simpl. unfold is_close in C.
    repeat split; try lia.
    destruct (is_chr (char_at (rdata r) (rcur r)) "}"); simpl in C; auto. }
  destruct (is_literal_start _);
    [|intros H; inversion H; subst; scan_facts_split].
  destruct (isString _ _ _ "null") eqn:S1.
  { apply isString_bound in S1; [|discriminate]. unfold slen in S1; simpl in S1.
    intros H; inversion H; subst; clear H. scan_facts_split. }
  destruct (isString _ _ _ "true") eqn:S2.
  { apply isString_bound in S2; [|discriminate]. unfold slen in S2; simpl in S2.
    intros H; inversion H; subst; clear H. scan_facts_split. }
  destruct (isString _ _ _ "false") eqn:S3.
  { apply isString_bound in S3; [|discriminate]. unfold slen in S3; simpl in S3.
    intros H; inversion H; subst; clear H. scan_facts_split. }
  intros H; inversion H; subst; scan_facts_split.
Qed.

(** ** The scanner's loop *)

Lemma bjRead_loop_fuel (fuel : nat) (r : BjReader) :
  (bjRead_fuel r <= fuel)%nat ->
  exists res, bjRead_loop fuel r = Some res.
Proof.
  unfold bjRead_fuel.
  revert r; induction fuel as [|fuel IH]; intros r Hf; simpl;
    destruct (bjRead_step r) as [r1|r' v] eqn:S; eauto.
  - apply bjRead_step_continue in S. lia.
  - apply bjRead_step_continue in S. destruct S as (-> & Hlt & _).
    apply IH. simpl. lia.
Qed.

Lemma bjRead_loop_more (f1 f2 : nat) (r : BjReader) (res : BjReader * BjValue) :
  bjRead_loop f1 r = Some res -> (f1 <= f2)%nat -> bjRead_loop f2 r = Some res.
Proof.
  revert f2 r; induction f1 as [|f1 IH]; intros f2 r; simpl;
    destruct (bjRead_step r) as [r1|r' v] eqn:S; try discriminate.
  - intros H _. destruct f2; simpl; rewrite S; exact H.
  - intros H L. destruct f2 as [|f2]; [lia|]. simpl; rewrite S.
    apply IH; [exact H | lia].
  - intros H _. destruct f2; simpl; rewrite S; exact H.
Qed.

Lemma bjRead_loop_Some (r : BjReader) :
  bjRead_loop (bjRead_fuel r) r = Some (bjRead r).
Proof.
  unfold bjRead.
  destruct (bjRead_loop_fuel (bjRead_fuel r) r (Nat.le_refl _)) as [res ->].
  reflexivity.
Qed.

(** The equation of the [while (true)] loop of [bjRead]. *)
Lemma bjRead_unfold (r : BjReader) :
  bjRead r =
  match bjRead_step r with
  | Return r' v => (r', v)
  | Continue r1 => bjRead r1
  end.
Proof.
  pose proof (bjRead_loop_Some r) as H.
  destruct (bjRead_step r) as [r1|r' v] eqn:S.
  - pose proof (bjRead_step_continue _ _ S) as (E & Hlt & _).
    destruct (bjRead_fuel r) as [|f] eqn:F; [unfold bjRead_fuel in F; lia|].
    simpl in H. rewrite S in H.
    pose proof (bjRead_loop_Some r1) as H1.
    assert (L : (bjRead_fuel r1 <= f)%nat).
    { subst r1. unfold bjRead_fuel in *. simpl. lia. }
    pose proof (bjRead_loop_more _ _ _ _ H1 L) as H2. congruence.
  - destruct (bjRead_fuel r); simpl in H; rewrite S in H; congruence.
Qed.

(** Induction along the loop: what holds when a turn returns, and is
    carried back over a [continue], holds of the call. *)
Lemma bjRead_ind (P : BjReader -> BjReader -> BjValue -> Prop) :
  (forall r r' v, bjRead_step r = Return r' v -> P r r' v) ->
  (forall r r1 r' v,
      bjRead_step r = Continue r1 -> P r1 r' v -> P r r' v) ->
  forall r, P r (fst (bjRead r)) (snd (bjRead r)).
Proof.
  intros Hret Hcont r.
  remember (bjRead_fuel r) as n eqn:Hn.
  revert r Hn; induction n as [n IH] using lt_wf_ind; intros r Hn.
  rewrite bjRead_unfold. destruct (bjRead_step r) as [r1|r' v] eqn:S.
  - apply (Hcont r r1); [exact S|].
    apply (IH (bjRead_fuel r1)); [|reflexivity].
    apply bjRead_step_continue in S. destruct S as (-> & Hlt & _).
    subst n. unfold bjRead_fuel. simpl. lia.
  - simpl. apply Hret, S.
Qed.

Lemma bjRead_facts (r : BjReader) :
  scan_facts r (fst (bjRead r)) (snd (bjRead r)).
Proof.
  apply (bjRead_ind scan_facts); [apply bjRead_step_return|].
  intros r0 r1 r' v S F.
  apply bjRead_step_continue in S. destruct S as (-> & Hlt & T).
  destruct F as [F1 F2 F3 F4 F5 F6 F7 F8]. simpl in *.
  constructor; simpl; try assumption; try lia.
  - intros Hne. destruct (F6 Hne) as (? & ? & ?). repeat split; try assumption; lia.
Qed.

(** A reader whose error is set is a fixed point of the scanner. *)
Lemma bjRead_error (r : BjReader) :
  truthy (rerror r) = true ->
  bjRead r = (r, mkValue ERROR (rcur r) (rcur r) (rdepth r)).
Proof.
  intros T. rewrite bjRead_unfold. unfold bjRead_step. rewrite T. reflexivity.
Qed.

Lemma reads_S (n : nat) (r : BjReader) :
  reads (S n) r = fst (bjRead (reads n r)).
Proof.
  revert r; induction n as [|n IH]; intros r; [reflexivity|].
  change (reads (S (S n)) r) with (reads (S n) (fst (bjRead r))).
  rewrite IH. reflexivity.
Qed.

Lemma reads_add (n m : nat) (r : BjReader) :
  reads (n + m) r = reads m (reads n r).
Proof.
  revert r; induction n as [|n IH]; intros r; simpl; [reflexivity|apply IH].
Qed.

Lemma reads_error (n : nat) (r : BjReader) :
  truthy (rerror r) = true -> reads n r = r.
Proof.
  intros T; induction n as [|n IH]; simpl; [reflexivity|].
  rewrite (bjRead_error r T). exact IH.
Qed.

(** The scanner stores messages that are not empty: on a reader made by
    [bjReader] the error is [null] or is set. *)
Lemma reads_error_null_or_set (data : string) (n : nat) :
  rerror (reads n (bjReader data)) = None
  \/ truthy (rerror (reads n (bjReader data))) = true.
Proof.
  induction n as [|n IH]; [left; reflexivity|].
  rewrite reads_S.
  pose proof (bjRead_facts (reads n (bjReader data))) as F.
  destruct (BjType_eqb (vtype (snd (bjRead (reads n (bjReader data))))) ERROR)
    eqn:E.
  - right. apply BjType_eqb_eq in E. apply (sf_error _ _ _ F), E.
  - apply BjType_eqb_neq in E.
    destruct (sf_token _ _ _ F E) as (-> & _). exact IH.
Qed.

(** ** The depth-discard helper *)

Lemma bjDiscardUntil_loop_fuel (fuel : nat) (r : BjReader) (depth : Z) (val : BjValue) :
  vtype val = ERROR \/ (Z.to_nat (rend r - rcur r) < fuel)%nat ->
  exists r', bjDiscardUntil_loop fuel r depth val = Some r'.
Proof.
  revert r val; induction fuel as [|fuel IH]; intros r val Hf; simpl.
  - destruct Hf as [E|L]; [|lia]. rewrite E; simpl.
    rewrite andb_false_r. eauto.
  - destruct (negb (rdepth r =? depth) && negb (BjType_eqb (vtype val) ERROR))
      eqn:C; [|eauto].
    apply andb_prop in C; destruct C as [_ C].
    apply negb_true_iff, BjType_eqb_neq in C.
    destruct Hf as [E|L]; [contradiction|].
    pose proof (bjRead_facts r) as F. destruct (bjRead r) as [r' v']; simpl in F.
    apply IH.
    destruct (BjType_eqb (vtype v') ERROR) eqn:E'.
    + left; apply BjType_eqb_eq, E'.
    + right. apply BjType_eqb_neq in E'.
      destruct (sf_token _ _ _ F E') as (_ & ? & ?).
      rewrite (sf_end _ _ _ F). lia.
Qed.

Lemma bjDiscardUntil_loop_more (f1 f2 : nat) (r r' : BjReader) (depth : Z) (val : BjValue) :
  bjDiscardUntil_loop f1 r depth val = Some r' -> (f1 <= f2)%nat ->
  bjDiscardUntil_loop f2 r depth val = Some r'.
Proof.
  revert f2 r val; induction f1 as [|f1 IH]; intros f2 r val; simpl;
    destruct (negb (rdepth r =? depth) && negb (BjType_eqb (vtype val) ERROR)) eqn:C;
    try discriminate.
  - intros H _. destruct f2; simpl; rewrite C; exact H.
  - intros H L. destruct f2 as [|f2]; [lia|]. simpl; rewrite C.
    destruct (bjRead r) as [r1 v1]. apply IH; [exact H | lia].
  - intros H _. destruct f2; simpl; rewrite C; exact H.
Qed.

Lemma bjDiscardUntil_loop_Some (r : BjReader) (depth : Z) (val : BjValue) :
  bjDiscardUntil_loop (bjDiscardUntil_fuel r) r depth val
  = Some (bjDiscardUntil_from r depth val).
Proof.
  unfold bjDiscardUntil_from.
  destruct (bjDiscardUntil_loop_fuel (bjDiscardUntil_fuel r) r depth val) as [r' ->];
    [right; unfold bjDiscardUntil_fuel; lia | reflexivity].
Qed.

(** The equation of the [while] loop of [bjDiscardUntil]. *)
Lemma bjDiscardUntil_from_unfold (r : BjReader) (depth : Z) (val : BjValue) :
  bjDiscardUntil_from r depth val =
  if negb (rdepth r =? depth) && negb (BjType_eqb (vtype val) ERROR)
  then bjDiscardUntil_from (fst (bjRead r)) depth (snd (bjRead r))
  else r.
Proof.
  pose proof (bjDiscardUntil_loop_Some r depth val) as H.
  unfold bjDiscardUntil_fuel in H at 1. simpl in H.
  destruct (negb (rdepth r =? depth) && negb (BjType_eqb (vtype val) ERROR));
    [|congruence].
  pose proof (bjRead_facts r) as F. destruct (bjRead r) as [r1 v1]; simpl in *.
  destruct (BjType_eqb (vtype v1) ERROR) eqn:E.
  - (* the scan failed: the next test leaves the loop *)
    assert (H1 : bjDiscardUntil_loop (bjDiscardUntil_fuel r1) r1 depth v1 = Some r1).
    { unfold bjDiscardUntil_fuel; simpl. rewrite E, andb_false_r. reflexivity. }
    rewrite bjDiscardUntil_loop_Some in H1.
    destruct (Z.to_nat (rend r - rcur r)); simpl in H;
      rewrite E, andb_false_r in H; congruence.
  - apply BjType_eqb_neq in E.
    destruct (sf_token _ _ _ F E) as (_ & ? & ?).
    pose proof (bjDiscardUntil_loop_Some r1 depth v1) as HS.
    apply (bjDiscardUntil_loop_more _ (Z.to_nat (rend r - rcur r))) in HS;
      [congruence|].
    unfold bjDiscardUntil_fuel. rewrite (sf_end _ _ _ F). lia.
Qed.

(** Only the kind of the last value matters to the loop, and only whether
    it is [ERROR]. *)
Lemma bjDiscardUntil_from_token (r : BjReader) (depth : Z) (val : BjValue) :
  vtype val <> ERROR -> bjDiscardUntil_from r depth val = bjDiscardUntil r depth.
Proof.
  intros N. unfold bjDiscardUntil.
  rewrite (bjDiscardUntil_from_unfold r depth val),
          (bjDiscardUntil_from_unfold r depth (mkValue NULL 0 0 0)).
  apply BjType_eqb_neq in N. rewrite N. reflexivity.
Qed.

(** On a reader whose error is set the helper does nothing. *)
Lemma bjDiscardUntil_error (r : BjReader) (depth : Z) :
  truthy (rerror r) = true -> bjDiscardUntil r depth = r.
Proof.
  intros T. unfold bjDiscardUntil. rewrite bjDiscardUntil_from_unfold. simpl.
  destruct (rdepth r =? depth); simpl; [reflexivity|].
  rewrite (bjRead_error r T). simpl.
  rewrite bjDiscardUntil_from_unfold. simpl. rewrite andb_false_r. reflexivity.
Qed.

(** The helper as a loop on the reader alone. *)
Lemma bjDiscardUntil_unfold (r : BjReader) (depth : Z) :
  bjDiscardUntil r depth =
  if rdepth r =? depth then r else bjDiscardUntil (fst (bjRead r)) depth.
Proof.
  unfold bjDiscardUntil at 1. rewrite bjDiscardUntil_from_unfold. simpl.
  rewrite andb_true_r.
  destruct (rdepth r =? depth) eqn:D; simpl; [reflexivity|].
  pose proof (bjRead_facts r) as F.
  destruct (BjType_eqb (vtype (snd (bjRead r))) ERROR) eqn:E.
  - rewrite bjDiscardUntil_from_unfold, E, andb_false_r.
    apply BjType_eqb_eq, (sf_error _ _ _ F) in E.
    symmetry; apply bjDiscardUntil_error, E.
  - apply bjDiscardUntil_from_token, BjType_eqb_neq, E.
Qed.

Lemma bjDiscardUntil_at_depth (r : BjReader) (depth : Z) :
  rdepth r = depth -> bjDiscardUntil r depth = r.
Proof.
  intros D. rewrite bjDiscardUntil_unfold.
  rewrite (proj2 (Z.eqb_eq _ _) D). reflexivity.
Qed.

(** Scans made while the depth is not the target are scans the helper
    would have made itself. *)
Lemma bjDiscardUntil_reads (n : nat) (r : BjReader) (depth : Z) :
  (forall k, (k < n)%nat -> rdepth (reads k r) <> depth) ->
  bjDiscardUntil (reads n r) depth = bjDiscardUntil r depth.
Proof.
  revert r; induction n as [|n IH]; intros r H; simpl; [reflexivity|].
  rewrite IH.
  - symmetry. rewrite bjDiscardUntil_unfold.
    specialize (H O (Nat.lt_0_succ _)). simpl in H.
    apply Z.eqb_neq in H. rewrite H. reflexivity.
  - intros k Hk. apply (H (S k)). lia.
Qed.

(** The helper stops at the target depth or on an error. *)
Lemma bjDiscardUntil_stops (r : BjReader) (depth : Z) :
  rdepth (bjDiscardUntil r depth) = depth
  \/ truthy (rerror (bjDiscardUntil r depth)) = true.
Proof.
  remember (Z.to_nat (rend r - rcur r)) as n eqn:Hn.
  revert r Hn; induction n as [n IH] using lt_wf_ind; intros r Hn.
  rewrite bjDiscardUntil_unfold.
  destruct (rdepth r =? depth) eqn:D; [left; apply Z.eqb_eq, D|].
  pose proof (bjRead_facts r) as F.
  destruct (BjType_eqb (vtype (snd (bjRead r))) ERROR) eqn:E.
  - apply BjType_eqb_eq, (sf_error _ _ _ F) in E.
    rewrite (bjDiscardUntil_error _ _ E). right; exact E.
  - apply BjType_eqb_neq in E.
    destruct (sf_token _ _ _ F E) as (_ & ? & ?).
    apply (IH (Z.to_nat (rend (fst (bjRead r)) - rcur (fst (bjRead r)))));
      [|reflexivity].
    rewrite (sf_end _ _ _ F). lia.
Qed.

(** ** The scanner, token by token *)

Lemma is_chr_Some (c : option ascii) (a : ascii) :
  is_chr c a = true -> c = Some a.
Proof.
  destruct c as [b|]; simpl; [|discriminate].
  intros H; apply Ascii.eqb_eq in H; congruence.
Qed.

Lemma number_start_not_skip (c : option ascii) :
  is_number_start c = true -> is_skip c = false.
Proof.
  unfold is_number_start, is_digit. intros N.
  destruct c as [a|]; [|discriminate N].
  simpl in N. apply orb_prop in N. destruct N as [N|N].
  - apply Ascii.eqb_eq in N; subst a; reflexivity.
  - apply andb_prop in N; destruct N as [N1 N2].
    unfold is_skip, is_chr.
    repeat match goal with
           | |- context [Ascii.eqb a ?c] =>
               destruct (Ascii.eqb_spec a c) as [->|_];
               [first [discriminate N1 | discriminate N2]|]
           end.
    reflexivity.
Qed.

(** The span of a number: not empty, made of continuation characters, and
    stopped by [end_] or by a character that is not one. *)
Lemma number_scan_maximal (data : string) (end_ cur : Z) :
  cur < end_ -> is_number_start (char_at data cur) = true ->
  let e := number_scan data end_ cur in
  cur < e <= end_
  /\ (forall i, cur <= i < e -> isNumberCont (char_at data i) = true)
  /\ (e = end_ \/ isNumberCont (char_at data e) = false).
Proof.
  intros L N e.
  pose proof (number_scan_advances _ _ _ L N) as A.
  pose proof (number_loop_bounds data end_ (Z.to_nat (end_ - cur)) cur) as B.
  pose proof (number_loop_stops data end_ (Z.to_nat (end_ - cur)) cur
                (Nat.le_refl _)) as S.
  fold (number_scan data end_ cur) in B, S. fold e in A, B, S.
  repeat split; try lia.
  - intros i Hi. apply (number_loop_run _ _ _ _ _ Hi).
  - apply andb_false_iff in S. destruct S as [S|S]; [|right; exact S].
    apply Z.ltb_ge in S. left; lia.
Qed.

Lemma bjRead_number (r : BjReader) :
  truthy (rerror r) = false -> rcur r < rend r ->
  is_number_start (char_at (rdata r) (rcur r)) = true ->
  bjRead r =
  (set_cur r (number_scan (rdata r) (rend r) (rcur r)),
   mkValue NUMBER (rcur r) (number_scan (rdata r) (rend r) (rcur r)) (rdepth r)).
Proof.
  intros T L N. rewrite bjRead_unfold. unfold bjRead_step.
  rewrite T, (proj2 (Z.leb_gt _ _) L). cbv zeta.
  rewrite (number_start_not_skip _ N), N. reflexivity.
Qed.

Lemma bjRead_string (r : BjReader) :
  truthy (rerror r) = false -> rcur r < rend r ->
  is_chr (char_at (rdata r) (rcur r)) quote = true ->
  bjRead r =
  match string_scan (rdata r) (rend r) (rcur r + 1) with
  | (cur', false) =>
      (set_error (set_cur r cur') "unclosed string",
       mkValue ERROR (rcur r + 1 - 1) cur' (rdepth r))
  | (cur', true) =>
      (set_cur r (cur' + 1), mkValue STRING (rcur r + 1) cur' (rdepth r))
  end.
Proof.
  intros T L Q. rewrite bjRead_unfold. unfold bjRead_step.
  rewrite T, (proj2 (Z.leb_gt _ _) L). cbv zeta.
  rewrite Q. rewrite (is_chr_Some _ _ Q). simpl.
  destruct (string_scan (rdata r) (rend r) (rcur r + 1)) as [q [|]];
    reflexivity.
Qed.

Lemma bjRead_skip (r : BjReader) :
  truthy (rerror r) = false -> rcur r < rend r ->
  is_skip (char_at (rdata r) (rcur r)) = true ->
  bjRead r = bjRead (set_cur r (rcur r + 1)).
Proof.
  intros T L S. rewrite bjRead_unfold. unfold bjRead_step.
  rewrite T, (proj2 (Z.leb_gt _ _) L). cbv zeta. rewrite S. reflexivity.
Qed.

Lemma set_cur_same (r : BjReader) : set_cur r (rcur r) = r.
Proof. destruct r; reflexivity. Qed.

(** A scan that starts before a run of white space, commas and colons is
    the scan that starts after it. *)
Lemma bjRead_skips (r : BjReader) (j : Z) :
  truthy (rerror r) = false -> rcur r <= j <= rend r ->
  (forall x, rcur r <= x < j -> is_skip (char_at (rdata r) x) = true) ->
  bjRead r = bjRead (set_cur r j).
Proof.
  remember (Z.to_nat (j - rcur r)) as n eqn:Hn.
  revert r Hn; induction n as [|n IH]; intros r Hn T B S.
  - replace j with (rcur r) by lia. rewrite set_cur_same. reflexivity.
  - rewrite bjRead_skip; [|exact T|lia|apply S; lia].
    rewrite (IH (set_cur r (rcur r + 1))); simpl;
      [reflexivity | lia | exact T | lia |].
    intros x Hx. apply S; lia.
Qed.

Lemma bjRead_open (r : BjReader) :
  truthy (rerror r) = false -> rcur r < rend r ->
  is_open (char_at (rdata r) (rcur r)) = true ->
  bjRead r =
  (set_cur (set_depth r (rdepth r + 1)) (rcur r + 1),
   mkValue (if is_chr (char_at (rdata r) (rcur r)) "{" then OBJECT else ARRAY)
           (rcur r) (rcur r + 1) (rdepth r + 1)).
Proof.
  intros T L O. rewrite bjRead_unfold. unfold bjRead_step.
  rewrite T, (proj2 (Z.leb_gt _ _) L). cbv zeta.
  unfold is_open in O. apply orb_prop in O.
  destruct O as [O|O]; rewrite (is_chr_Some _ _ O); reflexivity.
Qed.

Lemma bjRead_close (r : BjReader) :
  truthy (rerror r) = false -> rcur r < rend r ->
  is_close (char_at (rdata r) (rcur r)) = true -> 1 <= rdepth r ->
  bjRead r =
  (set_cur (set_depth r (rdepth r - 1)) (rcur r + 1),
   mkValue END (rcur r) (rcur r + 1) (rdepth r)).
Proof.
  intros T L C D. rewrite bjRead_unfold. unfold bjRead_step.
  rewrite T, (proj2 (Z.leb_gt _ _) L). cbv zeta.
  unfold is_close in C. apply orb_prop in C.
  destruct C as [C|C]; rewrite (is_chr_Some _ _ C); simpl;
    rewrite (proj2 (Z.ltb_ge _ _)) by lia; reflexivity.
Qed.

Lemma isString_first (data : string) (cur end_ : Z) (e : ascii) (rest : string) :
  isString data cur end_ (String e rest) = true ->
  cur < end_ /\ char_at data cur = Some e.
Proof.
  unfold isString; simpl. rewrite Z.add_0_r.
  destruct (end_ <=? cur) eqn:E; simpl; [discriminate|].
  apply Z.leb_gt in E.
  destruct (is_chr (char_at data cur) e) eqn:C; simpl; [|discriminate].
  intros _. split; [exact E | apply is_chr_Some, C].
Qed.

Lemma isString_other (data : string) (cur end_ : Z) (e : ascii) (rest : string) :
  is_chr (char_at data cur) e = false ->
  isString data cur end_ (String e rest) = false.
Proof.
  intros C. unfold isString; simpl. rewrite Z.add_0_r, C; simpl.
  rewrite orb_true_r. reflexivity.
Qed.

Lemma bjRead_null (r : BjReader) :
  truthy (rerror r) = false ->
  isString (rdata r) (rcur r) (rend r) "null" = true ->
  bjRead r = (set_cur r (rcur r + 4),
              mkValue NULL (rcur r) (rcur r + 4) (rdepth r)).
Proof.
  intros T S. destruct (isString_first _ _ _ _ _ S) as [L C].
  rewrite bjRead_unfold. unfold bjRead_step.
  rewrite T, (proj2 (Z.leb_gt _ _) L), S. cbv zeta. rewrite C. reflexivity.
Qed.

Lemma bjRead_true (r : BjReader) :
  truthy (rerror r) = false ->
  isString (rdata r) (rcur r) (rend r) "true" = true ->
  bjRead r = (set_cur r (rcur r + 4),
              mkValue BOOL (rcur r) (rcur r + 4) (rdepth r)).
Proof.
  intros T S. destruct (isString_first _ _ _ _ _ S) as [L C].
  rewrite bjRead_unfold. unfold bjRead_step.
  rewrite T, (proj2 (Z.leb_gt _ _) L), S.
  rewrite (isString_other _ _ _ "n") by (rewrite C; reflexivity).
  cbv zeta. rewrite C. reflexivity.
Qed.

Lemma bjRead_false (r : BjReader) :
  truthy (rerror r) = false ->
  isString (rdata r) (rcur r) (rend r) "false" = true ->
  bjRead r = (set_cur r (rcur r + 5),
              mkValue BOOL (rcur r) (rcur r + 5) (rdepth r)).
Proof.
  intros T S. destruct (isString_first _ _ _ _ _ S) as [L C].
  rewrite bjRead_unfold. unfold bjRead_step.
  rewrite T, (proj2 (Z.leb_gt _ _) L), S.
  rewrite (isString_other _ _ _ "n") by (rewrite C; reflexivity).
  rewrite (isString_other _ _ _ "t") by (rewrite C; reflexivity).
  cbv zeta. rewrite C. reflexivity.
Qed.

(** ** C1: the depth field and a stray closing bracket *)

(** The depth moves by one on a container open and on a container close
    and by nothing else (lemma [bjRead_facts], field [sf_depth]).  A close
    met at depth [0] or below is reported with the bracket in the message and
    with the depth before the scan on the returned value, while the reader
    itself keeps the decremented depth. *)
Lemma bjRead_stray_close (r : BjReader) :
  truthy (rerror r) = false -> rcur r < rend r ->
  is_close (char_at (rdata r) (rcur r)) = true -> rdepth r <= 0 ->
  bjRead r =
  (set_error (set_depth r (rdepth r - 1))
             (if is_chr (char_at (rdata r) (rcur r)) "}"
              then "stray '}'" else "stray ']'"),
   mkValue ERROR (rcur r) (rcur r + 1) (rdepth r - 1 + 1)).
Proof.
  intros T L C D. rewrite bjRead_unfold. unfold bjRead_step.
  rewrite T, (proj2 (Z.leb_gt _ _) L). cbv zeta.
  unfold is_close in C.
  destruct (char_at (rdata r) (rcur r)) as [a|]; [|discriminate C].
  simpl in C. apply orb_prop in C.
  destruct C as [C|C]; apply Ascii.eqb_eq in C; subst a; simpl;
    rewrite (proj2 (Z.ltb_lt _ _)) by lia; reflexivity.
Qed.

(** On the document ["}"] the reader starts at depth 0, and the scan of
    the stray bracket leaves its depth at [-1]: the depth does get negative,
    and is not left at 0. *)
Lemma C1_stray_close_goes_below_zero :
  let r := bjReader "}" in
  rdepth r = 0
  /\ rdepth (fst (bjRead r)) = -1
  /\ ~ 0 <= rdepth (fst (bjRead r)).
Proof. cbv zeta. repeat split. vm_compute. intros H; apply H; reflexivity. Qed.

(** C1 (amended).  A scan changes the depth by +1 when it returns a
    container open, by -1 when it returns a container close, and not at all
    when it returns a scalar; when it returns an Error the depth is unchanged
    or the error is a stray close.  A ['}'] or [']'] met at depth 0 records
    the error that names the bracket, returns an Error value of depth 0
    that spans the bracket, does not move the cursor, and leaves the reader's
    depth at [-1].  On a reader made by [bjReader] this is the only way the
    depth gets negative: after any number of scans it is non-negative, or it
    is [-1] and the stray-close error is set. *)
Theorem C1_depth_moves_by_one :
  (forall r : BjReader,
      let r' := fst (bjRead r) in
      let v := snd (bjRead r) in
      match vtype v with
      | ARRAY | OBJECT => rdepth r' = rdepth r + 1 /\ vdepth v = rdepth r + 1
      | END => rdepth r' = rdepth r - 1 /\ 0 <= rdepth r' /\ vdepth v = rdepth r
      | ERROR => rdepth r' = rdepth r \/ stray_close r r' v
      | NUMBER | STRING | BOOL | NULL =>
          rdepth r' = rdepth r /\ vdepth v = rdepth r
      end)
  /\ (forall r : BjReader,
         truthy (rerror r) = false -> rcur r < rend r ->
         is_close (char_at (rdata r) (rcur r)) = true -> rdepth r = 0 ->
         bjRead r =
         (mkReader (rdata r) (rcur r) (rend r) (-1)
                   (Some (if is_chr (char_at (rdata r) (rcur r)) "}"
                          then "stray '}'" else "stray ']'")),
          mkValue ERROR (rcur r) (rcur r + 1) 0))
  /\ (forall (data : string) (n : nat),
         let r := reads n (bjReader data) in
         0 <= rdepth r
         \/ (rdepth r = -1
             /\ (rerror r = Some "stray '}'" \/ rerror r = Some "stray ']'"))).
Proof.
  split; [|split].
  - intros r. apply (sf_depth _ _ _ (bjRead_facts r)).
  - intros r T L C D. rewrite (bjRead_stray_close r T L C) by lia.
    unfold set_error, set_depth; simpl. rewrite D. reflexivity.
  - intros data n; cbv zeta. induction n as [|n IH]; [left; simpl; lia|].
    rewrite reads_S.
    destruct IH as [IH | (D & E)].
    + pose proof (sf_depth _ _ _ (bjRead_facts (reads n (bjReader data)))) as S.
      unfold depth_step in S.
      destruct (vtype (snd (bjRead (reads n (bjReader data)))));
        try (left; lia).
      destruct S as [S | (S1 & S2 & _ & _ & _ & S3)]; [left; lia|].
      right. split; [lia|]. destruct S3 as [[_ M] | [_ M]]; auto.
    + assert (T : truthy (rerror (reads n (bjReader data))) = true)
        by (destruct E as [-> | ->]; reflexivity).
      rewrite (bjRead_error _ T). simpl. right; auto.
Qed.

Lemma C1_depth_moves_by_one_witness :
  let r := mkReader "[ ]]" 3 4 0 None in
  bjRead r = (mkReader "[ ]]" 3 4 (-1) (Some "stray ']'"), mkValue ERROR 3 4 0).
Proof.
  apply (proj1 (proj2 C1_depth_moves_by_one) (mkReader "[ ]]" 3 4 0 None));
    [reflexivity | reflexivity | reflexivity | reflexivity].
Defined.

(** ** C2: the error is sticky *)

(** C2.  On a reader whose error is set (the test [if (r.error)] of the
    source holds; the scanner never stores an empty message, lemma
    [reads_error_null_or_set]), every later call of [bjRead], however many
    came before, returns the same Error value [{ERROR, cur, cur, depth}] and
    leaves the whole reader (cursor, depth, stored message) as it was. *)
Theorem C2_error_is_sticky (r : BjReader) (n : nat) :
  truthy (rerror r) = true ->
  bjRead (reads n r) = (r, mkValue ERROR (rcur r) (rcur r) (rdepth r)).
Proof.
  intros T. rewrite (reads_error n r T). apply bjRead_error, T.
Qed.

Lemma C2_error_is_sticky_witness :
  let r := fst (bjRead (bjReader (json "'unclosed"))) in
  rerror r = Some "unclosed string"
  /\ bjRead (reads 5 r) = (r, mkValue ERROR 9 9 0).
Proof.
  split; [reflexivity|].
  apply (C2_error_is_sticky (fst (bjRead (bjReader (json "'unclosed")))) 5).
  reflexivity.
Defined.

(** ** C3: one step of the object iterator *)

(** In [{"a": tru}] the key slot holds a token and the value slot is an
    Error (unknown token), not End: the step reports done, not the pair, so
    the description with three outcomes fails there. *)
Lemma C3_value_error_is_not_a_pair :
  let r := bjReader (json "{'a': tru}") in
  ~ iter_object_three_outcomes (fst (bjRead r)) (snd (bjRead r)).
Proof.
  vm_compute. intros H; discriminate H.
Qed.

(** C3 (amended).  One step of [bjIterObject] scans a key, then a value,
    after the discard.  Key End or Error: done, and the iterator stores no
    error of its own.  Key a token and value End: done, with the error
    ["unexpected object end"].  Key a token and value Error: done, the reader
    as the failed scan left it.  Otherwise the pair (key, value), whatever
    the kind of the key. *)
Theorem C3_iter_object_outcomes (r : BjReader) (obj : BjValue) :
  let r1 := bjDiscardUntil r (vdepth obj) in
  let r2 := fst (bjRead r1) in
  let key := snd (bjRead r1) in
  let r3 := fst (bjRead r2) in
  let val := snd (bjRead r2) in
  let res := bjIterObject r obj in
  match vtype key, vtype val with
  | ERROR, _ | END, _ =>
      odone (snd res) = true /\ fst res = r2
  | _, END =>
      odone (snd res) = true /\ rerror (fst res) = Some "unexpected object end"
      /\ truthy (rerror r3) = false
  | _, ERROR =>
      odone (snd res) = true /\ fst res = r3 /\ truthy (rerror r3) = true
  | _, _ =>
      res = (r3, mkObjIter false (Some key) (Some val))
  end.
Proof.
  cbv zeta. unfold bjIterObject.
  pose proof (bjRead_facts (fst (bjRead (bjDiscardUntil r (vdepth obj))))) as F.
  destruct (bjRead (bjDiscardUntil r (vdepth obj))) as [r2 key]. simpl in *.
  destruct (bjRead r2) as [r3 val]. simpl in *.
  assert (E : vtype val = END -> truthy (rerror r3) = false).
  { intros H. destruct (truthy (rerror r3)) eqn:T; [|reflexivity].
    apply (sf_error _ _ _ F) in T. congruence. }
  assert (E' : vtype val = ERROR -> truthy (rerror r3) = true).
  { apply (sf_error _ _ _ F). }
  destruct (vtype key), (vtype val); simpl; auto.
Qed.

(** The key's kind is not looked at: in [{1: 2}] the step yields a Number
    key. *)
Example iter_object_number_key :
  let r := bjReader "{1: 2}" in
  snd (bjIterObject (fst (bjRead r)) (snd (bjRead r)))
  = mkObjIter false (Some (mkValue NUMBER 1 2 1)) (Some (mkValue NUMBER 4 5 1)).
Proof. vm_compute; reflexivity. Qed.

(** ** C5: the array [[1, 2, 3]] *)

(** C5.  On ["[1, 2, 3]"], after the scan of the root Array, three calls of
    [bjIterArray] yield Number values whose projections are 1, 2 and 3 in
    this order, the fourth call reports done, and no error is set. *)
Theorem C5_array_one_two_three :
  let R := fun cur depth => mkReader "[1, 2, 3]" cur 9 depth None in
  let arr := mkValue ARRAY 0 1 1 in
  let v1 := mkValue NUMBER 1 2 1 in
  let v2 := mkValue NUMBER 4 5 1 in
  let v3 := mkValue NUMBER 7 8 1 in
  bjRead (bjReader "[1, 2, 3]") = (R 1 1, arr)
  /\ bjIterArray (R 1 1) arr = (R 2 1, mkIter false (Some v1))
  /\ bjIterArray (R 2 1) arr = (R 5 1, mkIter false (Some v2))
  /\ bjIterArray (R 5 1) arr = (R 8 1, mkIter false (Some v3))
  /\ bjIterArray (R 8 1) arr = (R 9 0, mkIter true None)
  /\ bjGetNumber (R 2 1) v1 = Ok (Decimal false 1 0)
  /\ bjGetNumber (R 5 1) v2 = Ok (Decimal false 2 0)
  /\ bjGetNumber (R 8 1) v3 = Ok (Decimal false 3 0).
Proof. cbv zeta. repeat split; vm_compute; reflexivity. Qed.

(** ** C6: numbers *)

Lemma char_in_existsb (l : list ascii) (c : option ascii) :
  char_in l c
  <-> match c with
      | Some a => existsb (Ascii.eqb a) l
      | None => false
      end = true.
Proof.
  unfold char_in. destruct c as [a|].
  - rewrite existsb_exists. split.
    + intros (b & E & I). inversion E; subst b.
      exists a. split; [exact I | apply Ascii.eqb_refl].
    + intros (x & I & E). apply Ascii.eqb_eq in E. subst x.
      exists a. split; [reflexivity | exact I].
  - split; [intros (b & E & _); discriminate E | discriminate].
Qed.

(** The scanner's test [isNumberCont] accepts exactly the characters of
    [[0-9eE.+-]]. *)
Lemma isNumberCont_chars (c : option ascii) :
  isNumberCont c = true <-> char_in number_chars c.
Proof.
  rewrite char_in_existsb. destruct c as [a|]; [|apply iff_refl].
  replace (isNumberCont (Some a)) with (existsb (Ascii.eqb a) number_chars);
    [apply iff_refl|].
  destruct a as [[] [] [] [] [] [] [] []]; vm_compute; reflexivity.
Qed.

(** The cases ['-'], ['0'] ... ['9'] of the scanner's [switch] are exactly
    a digit or ['-']. *)
Lemma is_number_start_chars (c : option ascii) :
  is_number_start c = true <-> char_in number_start_chars c.
Proof.
  rewrite char_in_existsb. destruct c as [a|]; [|apply iff_refl].
  replace (is_number_start (Some a))
    with (existsb (Ascii.eqb a) number_start_chars); [apply iff_refl|].
  destruct a as [[] [] [] [] [] [] [] []]; vm_compute; reflexivity.
Qed.

(** C6.  Where the scanner meets a digit or ['-'], it returns one Number
    value whose span starts there, is not empty, and is the longest run of
    characters of [[0-9eE.+-]] before [end]: every character of the span is
    one of these fifteen, and the span stops at [end] or before a character
    that is none of them; the scanner's own test [isNumberCont] accepts
    exactly these fifteen.  Nothing else is checked: ["1.2.3"] is one
    Number span, and the projection of such a span can be not-a-number
    (["-"]).  The exponent characters and both signs continue a span
    (["1e+5"], ["-2E-3"]), and any other character ends it (the comma of
    ["1e+5, 2"], the ['x'] of ["0x1F"]). *)
Theorem C6_number_is_maximal_run :
  (forall r : BjReader,
      truthy (rerror r) = false -> rcur r < rend r ->
      char_in number_start_chars (char_at (rdata r) (rcur r)) ->
      exists e,
        bjRead r = (set_cur r e, mkValue NUMBER (rcur r) e (rdepth r))
        /\ rcur r < e <= rend r
        /\ (forall i, rcur r <= i < e ->
                      char_in number_chars (char_at (rdata r) i))
        /\ (e = rend r \/ ~ char_in number_chars (char_at (rdata r) e)))
  /\ (forall c : option ascii,
         isNumberCont c = true <-> char_in number_chars c)
  /\ bjRead (bjReader "1.2.3")
     = (mkReader "1.2.3" 5 5 0 None, mkValue NUMBER 0 5 0)
  /\ (let r := bjReader "-" in
      bjRead r = (mkReader "-" 1 1 0 None, mkValue NUMBER 0 1 0)
      /\ bjGetNumber (fst (bjRead r)) (snd (bjRead r)) = Ok NaN)
  /\ bjRead (bjReader "1e+5, 2")
     = (mkReader "1e+5, 2" 4 7 0 None, mkValue NUMBER 0 4 0)
  /\ bjRead (set_cur (bjReader "[-2E-3]") 1)
     = (mkReader "[-2E-3]" 6 7 0 None, mkValue NUMBER 1 6 0)
  /\ bjRead (bjReader "0x1F")
     = (mkReader "0x1F" 1 4 0 None, mkValue NUMBER 0 1 0).
Proof.
  split; [|split; [exact isNumberCont_chars|]].
  - intros r T L N. apply is_number_start_chars in N.
    exists (number_scan (rdata r) (rend r) (rcur r)).
    split; [apply bjRead_number; assumption|].
    destruct (number_scan_maximal (rdata r) (rend r) (rcur r) L N)
      as (B & Run & Stop).
    split; [exact B|]. split.
    + intros i Hi. apply isNumberCont_chars, Run, Hi.
    + destruct Stop as [E|S]; [left; exact E|].
      right. intros C. apply isNumberCont_chars in C. congruence.
  - repeat split; vm_compute; reflexivity.
Qed.

Lemma C6_number_is_maximal_run_witness :
  exists e,
    bjRead (bjReader "1e+5, 2")
    = (set_cur (bjReader "1e+5, 2") e, mkValue NUMBER 0 e 0)
    /\ 0 < e <= 7
    /\ (forall i, 0 <= i < e -> char_in number_chars (char_at "1e+5, 2" i))
    /\ (e = 7 \/ ~ char_in number_chars (char_at "1e+5, 2" e)).
Proof.
  apply (proj1 C6_number_is_maximal_run (bjReader "1e+5, 2"));
    [reflexivity | reflexivity |].
  exists "1"%char. split; [reflexivity | simpl; tauto].
Defined.

(** [parseFloat] reads the longest prefix that is a number: the span
    ["1.2.3"] projects to 1.2, and ["1.23e-4"] to 123e-6. *)
Example number_projections :
  bjGetNumber (bjReader "1.2.3") (mkValue NUMBER 0 5 0)
  = Ok (Decimal false 12 (-1))
  /\ bjGetNumber (bjReader "1.23e-4") (snd (bjRead (bjReader "1.23e-4")))
     = Ok (Decimal false 123 (-6)).
Proof. split; vm_compute; reflexivity. Qed.

(** ** C7: strings *)

Lemma get_Some_bound (s : string) (n : nat) (a : ascii) :
  String.get n s = Some a -> (n < String.length s)%nat.
Proof.
  revert n; induction s as [|b s IH]; intros n; simpl; [discriminate|].
  destruct n as [|n]; [lia|]. intros H; apply IH in H; lia.
Qed.

Lemma char_at_Some_bound (s : string) (i : Z) (a : ascii) :
  char_at s i = Some a -> 0 <= i < slen s.
Proof.
  unfold char_at, slen. destruct (i <? 0) eqn:E; [discriminate|].
  apply Z.ltb_ge in E. intros H; apply get_Some_bound in H; lia.
Qed.

Lemma closes_at_range (data : string) (end_ i q : Z) :
  closes_at data end_ i q ->
  i <= q < end_ /\ is_chr (char_at data q) quote = true.
Proof.
  induction 1 as [i L Q | i q L K C [IH1 IH2] | i q L Q K C [IH1 IH2]];
    split; try assumption; lia.
Qed.

Lemma backslash_not_quote (c : option ascii) :
  is_chr c backslash = true -> is_chr c quote = false.
Proof.
  intros H; apply is_chr_Some in H; subst c; reflexivity.
Qed.

(** The loop of the source finds the closing quote of the specification. *)
Lemma string_scan_closes (data : string) (end_ i q : Z) :
  string_scan data end_ i = (q, true) <-> closes_at data end_ i q.
Proof.
  split.
  - remember (Z.to_nat (end_ - i)) as n eqn:Hn.
    revert i Hn; induction n as [n IH] using lt_wf_ind; intros i Hn.
    rewrite string_scan_unfold.
    destruct (end_ <=? i) eqn:E; [discriminate|]. apply Z.leb_gt in E.
    destruct (is_chr (char_at data i) quote) eqn:Q.
    { intros H; inversion H; subst. apply closes_here; assumption. }
    pose proof (string_advance_bounds data end_ i E) as B.
    intros H.
    assert (C : closes_at data end_ (string_advance data end_ i) q).
    { apply (IH (Z.to_nat (end_ - string_advance data end_ i)));
        [lia | reflexivity | exact H]. }
    unfold string_advance in *.
    destruct (is_chr (char_at data i) backslash) eqn:K.
    + destruct (i + 1 <? end_) eqn:E1.
      * apply closes_escaped; try assumption.
        replace (i + 2) with (i + 1 + 1) by lia. exact C.
      * apply Z.ltb_ge in E1. apply closes_at_range in C. lia.
    + rewrite (proj2 (Z.ltb_lt _ _) E) in C.
      apply closes_plain; assumption.
  - induction 1 as [i L Q | i q L K C IH | i q L Q K C IH];
      rewrite string_scan_unfold, (proj2 (Z.leb_gt _ _) L).
    + rewrite Q. reflexivity.
    + rewrite (backslash_not_quote _ K).
      unfold string_advance. rewrite K.
      apply closes_at_range in C.
      rewrite (proj2 (Z.ltb_lt (i + 1) end_)) by lia.
      replace (i + 1 + 1) with (i + 2) by lia. exact IH.
    + rewrite Q. unfold string_advance. rewrite K.
      rewrite (proj2 (Z.ltb_lt _ _) L). exact IH.
Qed.

Lemma string_scan_unclosed (data : string) (end_ i q : Z) :
  i <= end_ -> string_scan data end_ i = (q, false) ->
  q = end_ /\ forall q', ~ closes_at data end_ i q'.
Proof.
  intros L H. split.
  - pose proof (string_loop_unclosed data end_ _ i q (Nat.le_refl _) H).
    pose proof (string_loop_bounds data end_ (Z.to_nat (end_ - i)) i) as B.
    fold (string_scan data end_ i) in B. rewrite H in B. simpl in B. lia.
  - intros q' C. apply string_scan_closes in C. congruence.
Qed.

Lemma length_substring (s : string) (n m : nat) :
  (n + m <= String.length s)%nat ->
  String.length (String.substring n m s) = m.
Proof.
  revert n m; induction s as [|c s IH]; intros [|n] [|m]; simpl; intros H;
    try reflexivity; try lia.
  - rewrite (IH O m) by (simpl; lia). reflexivity.
  - apply (IH n O). lia.
  - apply (IH n (S m)). lia.
Qed.

Lemma substring_in_range (s : string) (a b : Z) :
  0 <= a <= b -> b <= slen s ->
  substring s a b = String.substring (Z.to_nat a) (Z.to_nat (b - a)) s.
Proof.
  intros H1 H2. unfold substring, clamp.
  replace (Z.min (Z.max a 0) (slen s)) with a by lia.
  replace (Z.min (Z.max b 0) (slen s)) with b by lia.
  replace (Z.min a b) with a by lia.
  replace (Z.max a b) with b by lia. reflexivity.
Qed.



(** The escaped quote does not close the string, and the span keeps the
    backslash; a string that ends on a backslash is unclosed. *)
Example string_escapes_kept_raw :
  let r := bjReader (json "'a\'b' x") in
  bjRead r = (set_cur r 6, mkValue STRING 1 5 0)
  /\ bjGetString (fst (bjRead r)) (snd (bjRead r)) = Ok (json "a\'b")
  /\ rerror (fst (bjRead (bjReader (json "'ab\")))) = Some "unclosed string".
Proof. cbv zeta. repeat split; vm_compute; reflexivity. Qed.

(** ** C4: abandoning a nested value *)

Lemma bjIterArray_after_discard (r : BjReader) (c : BjValue) :
  bjIterArray r c = bjIterArray (bjDiscardUntil r (vdepth c)) c.
Proof.
  unfold bjIterArray.
  destruct (bjDiscardUntil_stops r (vdepth c)) as [D|T].
  - rewrite (bjDiscardUntil_at_depth _ _ D). reflexivity.
  - rewrite (bjDiscardUntil_error _ _ T). reflexivity.
Qed.

Lemma bjIterObject_after_discard (r : BjReader) (c : BjValue) :
  bjIterObject r c = bjIterObject (bjDiscardUntil r (vdepth c)) c.
Proof.
  unfold bjIterObject.
  destruct (bjDiscardUntil_stops r (vdepth c)) as [D|T].
  - rewrite (bjDiscardUntil_at_depth _ _ D). reflexivity.
  - rewrite (bjDiscardUntil_error _ _ T). reflexivity.
Qed.

(** On reader states.  If [m] scans from [r] are the first to bring the
    depth to that of the container [c], then after any [n <= m] of them a
    step of an iterator of [c] discards up to the reader the [m] scans leave
    and gives what it gives there. *)
Lemma abandoned_scans (r : BjReader) (c : BjValue) (n m : nat) :
  (n <= m)%nat ->
  (forall k, (k < m)%nat -> rdepth (reads k r) <> vdepth c) ->
  rdepth (reads m r) = vdepth c ->
  bjDiscardUntil (reads n r) (vdepth c) = reads m r
  /\ bjIterArray (reads n r) c = bjIterArray (reads m r) c
  /\ bjIterObject (reads n r) c = bjIterObject (reads m r) c.
Proof.
  intros L In D.
  assert (E : bjDiscardUntil (reads n r) (vdepth c) = reads m r).
  { rewrite (bjDiscardUntil_reads n r) by (intros k Hk; apply In; lia).
    rewrite <- (bjDiscardUntil_reads m r (vdepth c) In).
    apply bjDiscardUntil_at_depth, D. }
  split; [exact E|]. split.
  - rewrite bjIterArray_after_discard, E.
    symmetry. rewrite bjIterArray_after_discard.
    rewrite (bjDiscardUntil_at_depth _ _ D). reflexivity.
  - rewrite bjIterObject_after_discard, E.
    symmetry. rewrite bjIterObject_after_discard.
    rewrite (bjDiscardUntil_at_depth _ _ D). reflexivity.
Qed.

Lemma number_scan_unique (data : string) (end_ i j : Z) :
  i < j <= end_ ->
  is_number_start (char_at data i) = true ->
  (forall k, i <= k < j -> isNumberCont (char_at data k) = true) ->
  j = end_ \/ isNumberCont (char_at data j) = false ->
  number_scan data end_ i = j.
Proof.
  intros B N Run Stop.
  destruct (number_scan_maximal data end_ i) as (B' & Run' & Stop');
    [lia | exact N |].
  set (e := number_scan data end_ i) in *.
  destruct (Z.lt_trichotomy e j) as [Lt | [Eq | Gt]]; [|exact Eq|].
  - destruct Stop' as [S|S]; [lia|]. rewrite Run in S by lia. discriminate S.
  - destruct Stop as [S|S]; [lia|]. rewrite Run' in S by lia. discriminate S.
Qed.

(** The scan of a scalar moves the cursor over it and nothing else. *)
Lemma bjRead_scalar (data : string) (end_ i j : Z) (r : BjReader) :
  scalar_at data end_ i j ->
  rdata r = data -> rend r = end_ -> rcur r = i ->
  truthy (rerror r) = false ->
  fst (bjRead r) = set_cur r j /\ i < j <= end_.
Proof.
  intros S D E C T. subst data end_. revert C.
  destruct S as [i S | i S | i S | i j B N Run Stop | i q L Q Cl];
    intros C; subst i.
  - rewrite (bjRead_null r T S). split; [reflexivity|].
    apply isString_bound in S; [|discriminate]. unfold slen in S; simpl in S. lia.
  - rewrite (bjRead_true r T S). split; [reflexivity|].
    apply isString_bound in S; [|discriminate]. unfold slen in S; simpl in S. lia.
  - rewrite (bjRead_false r T S). split; [reflexivity|].
    apply isString_bound in S; [|discriminate]. unfold slen in S; simpl in S. lia.
  - rewrite (bjRead_number r T) by (assumption || lia).
    rewrite (number_scan_unique _ _ _ _ B N Run Stop). split; [reflexivity|lia].
  - rewrite (bjRead_string r T L Q).
    pose proof (closes_at_range _ _ _ _ Cl) as [Rg _].
    apply string_scan_closes in Cl. rewrite Cl. split; [reflexivity|lia].
Qed.

(** The scanner on well-formed content: [n] scans read the [n] tokens, end
    at the last of them with only separators left before [j], never go
    below the depth they started at, and set no error. *)
Lemma content_scanned (data : string) (end_ i j : Z) (n : nat) :
  content_at data end_ i j n ->
  forall r : BjReader,
    rdata r = data -> rend r = end_ -> rcur r = i ->
    truthy (rerror r) = false -> 0 <= rdepth r ->
    (forall k, (k <= n)%nat -> rdepth r <= rdepth (reads k r))
    /\ exists p,
        reads n r = set_cur r p /\ i <= p <= j /\ j <= end_
        /\ forall x, p <= x < j -> is_skip (char_at data x) = true.
Proof.
  induction 1 as [i Le
                 | i j n L Sk C IH
                 | i j k n Sc C IH
                 | i j k n1 n2 L O C1 IH1 Lj Cl C2 IH2];
    intros r D E Cu T Dp.
  - split.
    + intros k Hk. replace k with O by lia. simpl. lia.
    + exists i. simpl. rewrite <- Cu, set_cur_same.
      repeat split; try lia.
  - assert (R : bjRead r = bjRead (set_cur r (i + 1))).
    { rewrite <- Cu. apply bjRead_skip; [exact T | lia | congruence]. }
    destruct (IH (set_cur r (i + 1))) as (Dk & p & Rp & Bp & Bj & Skp);
      try assumption; try reflexivity.
    destruct n as [|n].
    + split.
      * intros k Hk. replace k with O by lia. simpl. lia.
      * exists i. simpl. rewrite <- Cu, set_cur_same. subst i.
        simpl in Rp. apply (f_equal rcur) in Rp. simpl in Rp.
        repeat split; try lia.
        intros x Hx. destruct (Z.eq_dec x (rcur r)) as [->|Ne];
          [congruence | apply Skp; lia].
    + split.
      * intros [|k] Hk; [simpl; lia|].
        simpl. rewrite R. apply (Dk (S k) Hk).
      * exists p. simpl. rewrite R. simpl in Rp. rewrite Rp.
        repeat split; try lia. exact Skp.
  - destruct (bjRead_scalar _ _ _ _ r Sc D E Cu T) as [R B].
    destruct (IH (set_cur r j)) as (Dk & p & Rp & Bp & Bj & Skp);
      try assumption; try reflexivity.
    split.
    + intros [|x] Hx; [simpl; lia|].
      simpl. rewrite R. apply (Dk x). lia.
    + exists p. simpl. rewrite R, Rp.
      repeat split; try lia. exact Skp.
  - (* the opening bracket *)
    assert (R1 : bjRead r =
                 (set_cur (set_depth r (rdepth r + 1)) (i + 1),
                  mkValue (if is_chr (char_at (rdata r) (rcur r)) "{"
                           then OBJECT else ARRAY)
                          (rcur r) (rcur r + 1) (rdepth r + 1))).
    { rewrite <- Cu. apply bjRead_open; [exact T | lia | congruence]. }
    set (r1 := set_cur (set_depth r (rdepth r + 1)) (i + 1)) in *.
    destruct (IH1 r1) as (Dk1 & p1 & Rp1 & Bp1 & Bj1 & Skp1);
      try assumption; try reflexivity; [simpl; lia|].
    (* the closing bracket, after the separators *)
    assert (R2 : bjRead (reads n1 r1) = bjRead (set_cur r1 j)).
    { rewrite Rp1.
      rewrite (bjRead_skips (set_cur r1 p1) j); simpl;
        [reflexivity | exact T | lia | ].
      intros x Hx. rewrite D. apply Skp1, Hx. }
    assert (R3 : fst (bjRead (set_cur r1 j)) = set_cur r (j + 1)).
    { rewrite bjRead_close; simpl; [|exact T|lia|congruence|lia].
      unfold set_cur, set_depth; simpl. f_equal. lia. }
    assert (R4 : reads (S (S n1)) r = set_cur r (j + 1)).
    { change (reads (S (S n1)) r) with (reads (S n1) (fst (bjRead r))).
      rewrite R1. simpl fst. rewrite reads_S, R2. exact R3. }
    destruct (IH2 (set_cur r (j + 1))) as (Dk2 & p2 & Rp2 & Bp2 & Bj2 & Skp2);
      try assumption; try reflexivity.
    split.
    + intros x Hx.
      destruct (Nat.le_gt_cases x (S n1)) as [Lx|Gx].
      * destruct x as [|x]; [simpl; lia|].
        change (reads (S x) r) with (reads x (fst (bjRead r))).
        rewrite R1. simpl fst.
        specialize (Dk1 x). simpl in Dk1. lia.
      * replace x with (S (S n1) + (x - S (S n1)))%nat by lia.
        rewrite reads_add, R4.
        specialize (Dk2 (x - S (S n1))%nat). simpl in Dk2. apply Dk2. lia.
    + exists p2.
      replace (S n1 + S n2)%nat with (S (S n1) + n2)%nat by lia.
      rewrite reads_add, R4, Rp2.
      repeat split; try lia. exact Skp2.
Qed.

(** *** Well-formed JSON text is well-formed content *)

Lemma append_assoc (a b c : string) : (a ++ b) ++ c = a ++ (b ++ c).
Proof. induction a as [|x a IH]; simpl; [reflexivity | rewrite IH; reflexivity]. Qed.

Lemma slen_nil : slen EmptyString = 0.
Proof. reflexivity. Qed.

Lemma slen_String (a : ascii) (s : string) : slen (String a s) = 1 + slen s.
Proof. unfold slen; simpl String.length; lia. Qed.

Lemma slen_append (a b : string) : slen (a ++ b) = slen a + slen b.
Proof.
  induction a as [|x a IH]; cbn [append]; [rewrite slen_nil; lia|].
  rewrite !slen_String, IH. lia.
Qed.

Lemma slen_nonneg (s : string) : 0 <= slen s.
Proof. unfold slen; lia. Qed.

Lemma drop_cons (n : nat) (data : string) (c : ascii) (t : string) :
  drop n data = String c t ->
  (n < String.length data)%nat /\ String.get n data = Some c
  /\ drop (S n) data = t.
Proof.
  revert n; induction data as [|a d IH]; intros [|n]; simpl;
    try discriminate.
  - intros H; inversion H; subst. repeat split; try lia; reflexivity.
  - intros H. destruct (IH n H) as (L & G & D).
    repeat split; try lia; assumption.
Qed.

Lemma drop_nil (n : nat) (data : string) :
  drop n data = EmptyString -> (n <= String.length data)%nat ->
  n = String.length data.
Proof.
  revert n; induction data as [|a d IH]; intros [|n]; simpl;
    try discriminate; try lia.
  intros H L. f_equal. apply IH; [exact H | lia].
Qed.

Lemma suffix_cons (data : string) (i : Z) (c : ascii) (t : string) :
  suffix_at data i (String c t) ->
  i < slen data /\ char_at data i = Some c /\ suffix_at data (i + 1) t.
Proof.
  intros [B D]. destruct (drop_cons _ _ _ _ D) as (L & G & D').
  unfold char_at, suffix_at in *. unfold slen in *.
  rewrite (proj2 (Z.ltb_ge _ _)) by lia.
  replace (Z.to_nat (i + 1)) with (S (Z.to_nat i)) by lia.
  repeat split; try assumption; lia.
Qed.

Lemma suffix_nil (data : string) (i : Z) :
  suffix_at data i EmptyString -> i = slen data.
Proof.
  intros [B D]. unfold slen in *.
  apply drop_nil in D; lia.
Qed.

Lemma suffix_bound (data : string) (i : Z) (s : string) :
  suffix_at data i s -> 0 <= i <= slen data.
Proof. intros [B _]; exact B. Qed.

Lemma suffix_app (data : string) (i : Z) (a b : string) :
  suffix_at data i (a ++ b) -> suffix_at data (i + slen a) b.
Proof.
  revert i; induction a as [|x a IH]; intros i; simpl.
  - change (slen EmptyString) with 0. rewrite Z.add_0_r. auto.
  - intros H. apply suffix_cons in H. destruct H as (_ & _ & H).
    apply IH in H. rewrite slen_String.
    replace (i + (1 + slen a)) with (i + 1 + slen a) by lia. exact H.
Qed.

Lemma suffix_start (pre s : string) : suffix_at (pre ++ s) (slen pre) s.
Proof.
  split.
  - rewrite slen_append. pose proof (slen_nonneg pre). pose proof (slen_nonneg s). lia.
  - unfold slen. rewrite Nat2Z.id.
    induction pre as [|x pre IH]; simpl; [destruct s; reflexivity | exact IH].
Qed.

(** A property of all the characters of [s], seen in the buffer. *)
Lemma suffix_all_chars (p : ascii -> bool) (q : option ascii -> bool)
      (data : string) (s rest : string) (i : Z) :
  (forall a, p a = true -> q (Some a) = true) ->
  all_chars p s = true ->
  suffix_at data i (s ++ rest) ->
  forall k, i <= k < i + slen s -> q (char_at data k) = true.
Proof.
  intros PQ. revert i; induction s as [|x s IH]; intros i A H k Hk.
  - rewrite slen_nil in Hk. lia.
  - simpl in A. apply andb_prop in A. destruct A as [Ax As].
    simpl in H. apply suffix_cons in H. destruct H as (_ & C & H).
    rewrite slen_String in Hk.
    destruct (Z.eq_dec k i) as [->|Ne].
    + rewrite C. apply PQ, Ax.
    + apply (IH (i + 1)); [exact As | exact H | lia].
Qed.

Lemma content_app (data : string) (end_ i j k : Z) (n1 n2 : nat) :
  content_at data end_ i j n1 -> content_at data end_ j k n2 ->
  content_at data end_ i k (n1 + n2).
Proof.
  induction 1 as [i Le
                 | i j n L Sk C IH
                 | i j j' n Sc C IH
                 | i j j' m1 m2 L O C1 IH1 Lj Cl C2 IH2];
    intros H; simpl.
  - exact H.
  - apply content_skip; auto.
  - apply (content_scalar _ _ i j); auto.
  - replace (S (m1 + S m2 + n2)) with (S m1 + S (m2 + n2))%nat by lia.
    apply (content_container _ _ i j); auto.
Qed.

Lemma ws_is_skip (a : ascii) : is_ws_char a = true -> is_skip (Some a) = true.
Proof.
  unfold is_ws_char, is_skip, is_chr. intros H.
  repeat (apply orb_prop in H; destruct H as [H|H]); rewrite H;
    rewrite ?orb_true_r; reflexivity.
Qed.

Lemma ws_content (data : string) (w rest : string) (i : Z) :
  json_ws w -> suffix_at data i (w ++ rest) ->
  content_at data (slen data) i (i + slen w) O.
Proof.
  unfold json_ws. revert i; induction w as [|x w IH]; intros i A H.
  - rewrite slen_nil, Z.add_0_r. apply content_done.
    apply suffix_bound in H. lia.
  - simpl in A. apply andb_prop in A. destruct A as [Ax Aw].
    simpl in H. apply suffix_cons in H. destruct H as (L & C & H).
    apply content_skip; [exact L | rewrite C; apply ws_is_skip, Ax |].
    rewrite slen_String.
    replace (i + (1 + slen w)) with (i + 1 + slen w) by lia. auto.
Qed.

Lemma ws_follows (w rest : string) :
  json_ws w -> follows rest -> follows (w ++ rest).
Proof.
  unfold json_ws. destruct w as [|x w]; simpl; [auto|].
  intros A _. apply andb_prop in A. destruct A as [Ax _].
  unfold is_ws_char in Ax.
  repeat (apply orb_prop in Ax; destruct Ax as [Ax|Ax]);
    apply Ascii.eqb_eq in Ax; subst x; reflexivity.
Qed.

Lemma literal_at (data : string) (lit rest : string) (i : Z) :
  suffix_at data i (lit ++ rest) ->
  isString data i (slen data) lit = true.
Proof.
  unfold isString.
  assert (G : forall k, suffix_at data (i + k) (lit ++ rest) ->
                        isString_from data i (slen data) lit k = true).
  { induction lit as [|e lit IH]; intros k H; simpl; [reflexivity|].
    simpl in H. apply suffix_cons in H. destruct H as (L & C & H).
    rewrite (proj2 (Z.leb_gt _ _) L), C. simpl. rewrite Ascii.eqb_refl. simpl.
    apply IH. replace (i + (k + 1)) with (i + k + 1) by lia. exact H. }
  intros H. apply G. rewrite Z.add_0_r. exact H.
Qed.

Lemma all_chars_app (p : ascii -> bool) (a b : string) :
  all_chars p (a ++ b) = all_chars p a && all_chars p b.
Proof.
  induction a as [|x a IH]; simpl; [reflexivity|].
  rewrite IH, andb_assoc. reflexivity.
Qed.

Lemma all_chars_impl (p q : ascii -> bool) (s : string) :
  (forall a, p a = true -> q a = true) ->
  all_chars p s = true -> all_chars q s = true.
Proof.
  intros PQ. induction s as [|x s IH]; simpl; [reflexivity|].
  intros H. apply andb_prop in H. destruct H as [Hx Hs].
  rewrite (PQ _ Hx), (IH Hs). reflexivity.
Qed.

Lemma digit_is_number_char (a : ascii) :
  is_digit_char a = true -> is_number_char a = true.
Proof.
  unfold is_digit_char, is_number_char, isNumberCont. intros ->. reflexivity.
Qed.

Lemma digit19_is_digit (a : ascii) :
  is_digit19_char a = true -> is_digit_char a = true.
Proof.
  unfold is_digit19_char, is_digit_char, is_digit. intros H.
  apply andb_prop in H. destruct H as [H1 H2].
  apply N.leb_le in H1. rewrite H2, andb_true_r. apply N.leb_le. lia.
Qed.

(** A JSON number starts with ['-'] or a digit and is made of number
    characters. *)
Lemma json_number_shape (s : string) :
  json_number s ->
  (exists a t, s = String a t /\ is_number_start (Some a) = true)
  /\ all_chars is_number_char s = true.
Proof.
  intros (m & i & f & e & -> & Hm & Hi & Hf & He).
  assert (Ai : all_chars is_number_char i = true
               /\ exists a t, i = String a t /\ is_digit_char a = true).
  { destruct Hi as [-> | (a & t & -> & D & A)].
    - split; [reflexivity | exists "0"%char, EmptyString; split; reflexivity].
    - apply digit19_is_digit in D. split.
      + simpl. rewrite (digit_is_number_char _ D).
        apply (all_chars_impl _ _ _ digit_is_number_char A).
      + exists a, t; auto. }
  destruct Ai as (Ai & a & t & -> & Da).
  assert (Af : all_chars is_number_char f = true).
  { destruct Hf as [-> | (d & -> & _ & A)]; [reflexivity|].
    simpl. apply (all_chars_impl _ _ _ digit_is_number_char A). }
  assert (Ae : all_chars is_number_char e = true).
  { destruct He as [-> | (x & sg & d & -> & Hx & Hsg & _ & A)]; [reflexivity|].
    simpl. rewrite all_chars_app.
    rewrite (all_chars_impl _ _ _ digit_is_number_char A), andb_true_r.
    destruct Hx as [-> | ->]; destruct Hsg as [-> | [-> | ->]]; reflexivity. }
  split.
  - destruct Hm as [-> | ->]; simpl.
    + exists a, (t ++ f ++ e). split; [reflexivity|].
      unfold is_number_start. unfold is_digit_char in Da. rewrite Da.
      apply orb_true_r.
    + exists "-"%char, (String a t ++ f ++ e). split; reflexivity.
  - rewrite !all_chars_app, Ai, Af, Ae.
    destruct Hm as [-> | ->]; reflexivity.
Qed.

Lemma number_at (data : string) (s rest : string) (i : Z) :
  json_number s -> suffix_at data i (s ++ rest) -> follows rest ->
  scalar_at data (slen data) i (i + slen s).
Proof.
  intros N H F. destruct (json_number_shape s N) as ((a & t & E & St) & A).
  pose proof (suffix_bound _ _ _ (suffix_app _ _ _ _ H)) as B.
  apply scalar_number.
  - subst s. rewrite slen_String in *. pose proof (slen_nonneg t). lia.
  - subst s. simpl in H. apply suffix_cons in H. destruct H as (_ & C & _).
    rewrite C. exact St.
  - intros k Hk.
    apply (suffix_all_chars is_number_char isNumberCont data s rest i);
      auto.
  - apply suffix_app in H. destruct rest as [|c rest].
    + left. apply suffix_nil, H.
    + right. apply suffix_cons in H. destruct H as (_ & C & _).
      rewrite C. exact F.
Qed.

Lemma hex_is_plain (h : ascii) :
  is_hex_char h = true ->
  Ascii.eqb h quote = false /\ Ascii.eqb h backslash = false.
Proof.
  intros H. split.
  - destruct (Ascii.eqb_spec h quote) as [->|_]; [discriminate H | reflexivity].
  - destruct (Ascii.eqb_spec h backslash) as [->|_]; [discriminate H | reflexivity].
Qed.

Lemma plain_at (data : string) (end_ i q : Z) (a : ascii) :
  i < end_ -> char_at data i = Some a ->
  Ascii.eqb a quote = false -> Ascii.eqb a backslash = false ->
  closes_at data end_ (i + 1) q -> closes_at data end_ i q.
Proof.
  intros L C Q K H. apply closes_plain; try assumption; rewrite C; assumption.
Qed.

(** The body of a JSON string is closed by the quote that follows it. *)
Lemma chars_close (body : string) :
  json_chars body ->
  forall (data : string) (i : Z) (rest : string),
    suffix_at data i (body ++ String quote rest) ->
    closes_at data (slen data) i (i + slen body).
Proof.
  induction 1 as [| a t Q K _ J IH | a t Es J IH
                  | h1 h2 h3 h4 t H1 H2 H3 H4 J IH];
    intros data i rest S; simpl in S.
  - rewrite slen_nil, Z.add_0_r.
    apply suffix_cons in S. destruct S as (L & C & _).
    apply closes_here; [exact L | rewrite C; reflexivity].
  - apply suffix_cons in S. destruct S as (L & C & S).
    apply (plain_at _ _ _ _ a); try assumption.
    rewrite slen_String.
    replace (i + (1 + slen t)) with (i + 1 + slen t) by lia. eauto.
  - apply suffix_cons in S. destruct S as (L & C & S).
    apply suffix_cons in S. destruct S as (_ & _ & S).
    apply closes_escaped; [exact L | rewrite C; reflexivity |].
    rewrite !slen_String.
    replace (i + (1 + (1 + slen t))) with (i + 2 + slen t) by lia.
    replace (i + 2) with (i + 1 + 1) by lia. eauto.
  - apply suffix_cons in S. destruct S as (L & C & S).
    apply suffix_cons in S. destruct S as (_ & _ & S).
    apply closes_escaped; [exact L | rewrite C; reflexivity |].
    replace (i + 2) with (i + 1 + 1) by lia.
    destruct (hex_is_plain _ H1), (hex_is_plain _ H2),
             (hex_is_plain _ H3), (hex_is_plain _ H4).
    apply suffix_cons in S. destruct S as (L1 & C1 & S).
    apply (plain_at _ _ _ _ h1); try assumption.
    apply suffix_cons in S. destruct S as (L2 & C2 & S).
    apply (plain_at _ _ _ _ h2); try assumption.
    apply suffix_cons in S. destruct S as (L3 & C3 & S).
    apply (plain_at _ _ _ _ h3); try assumption.
    apply suffix_cons in S. destruct S as (L4 & C4 & S).
    apply (plain_at _ _ _ _ h4); try assumption.
    rewrite !slen_String.
    replace (i + (1 + (1 + (1 + (1 + (1 + (1 + slen t)))))))
      with (i + 1 + 1 + 1 + 1 + 1 + 1 + slen t) by lia.
    eauto.
Qed.

Lemma string_at (data : string) (s rest : string) (i : Z) :
  json_string s -> suffix_at data i (s ++ rest) ->
  scalar_at data (slen data) i (i + slen s).
Proof.
  intros (body & -> & J) S. simpl in S. rewrite append_assoc in S. simpl in S.
  apply suffix_cons in S. destruct S as (L & C & S).
  rewrite slen_String, slen_append, slen_String, slen_nil.
  replace (i + (1 + (slen body + (1 + 0)))) with (i + 1 + slen body + 1) by lia.
  apply scalar_string; [exact L | rewrite C; reflexivity |].
  apply (chars_close body J data (i + 1) rest S).
Qed.

Lemma scalar_content (data : string) (s rest : string) (i : Z) :
  scalar_at data (slen data) i (i + slen s) ->
  suffix_at data i (s ++ rest) ->
  content_at data (slen data) i (i + slen s) 1.
Proof.
  intros Sc H. apply (content_scalar _ _ i (i + slen s)); [exact Sc|].
  apply content_done. apply suffix_app, suffix_bound in H. lia.
Qed.

(** The text between the brackets of a container, then the rest. *)
Lemma container_content (data : string) (i : Z) (a c : ascii)
      (body rest : string) (n : nat) :
  is_open (Some a) = true -> is_close (Some c) = true ->
  suffix_at data i (String a (body ++ String c rest)) ->
  content_at data (slen data) (i + 1) (i + 1 + slen body) n ->
  content_at data (slen data) i (i + (1 + (slen body + 1))) (S n + 1).
Proof.
  intros Op Cl Sf B.
  apply suffix_cons in Sf. destruct Sf as (L & C & Sf).
  apply suffix_app in Sf. apply suffix_cons in Sf. destruct Sf as (L' & C' & Sf).
  apply suffix_bound in Sf.
  change (S n + 1)%nat with (S n + S 0)%nat.
  apply (content_container _ _ i (i + 1 + slen body)).
  - exact L.
  - rewrite C; exact Op.
  - exact B.
  - exact L'.
  - rewrite C'; exact Cl.
  - replace (i + (1 + (slen body + 1))) with (i + 1 + slen body + 1) by lia.
    apply content_done. lia.
Qed.

(** Every JSON text, wherever it stands in the buffer, is content the
    scanner reads token by token. *)
Lemma json_content (srt : json_sort) (s : string) :
  json_text srt s ->
  forall (data : string) (i : Z) (rest : string),
    suffix_at data i (s ++ rest) -> follows rest ->
    exists n, content_at data (slen data) i (i + slen s) n.
Proof.
  induction 1 as [ | | | s N | s St
                 | w W | es E IH | w W | ms M IH
                 | w1 v w2 W1 V IH W2
                 | e E IH | e es E IHe Es IHes
                 | w1 k w2 e W1 K W2 E IH
                 | m M IH | m ms M IHm Ms IHms ];
    intros data i rest Sf F.
  - exists 1%nat. apply (scalar_content _ _ rest); [|exact Sf].
    apply scalar_null, (literal_at _ _ rest), Sf.
  - exists 1%nat. apply (scalar_content _ _ rest); [|exact Sf].
    apply scalar_true, (literal_at _ _ rest), Sf.
  - exists 1%nat. apply (scalar_content _ _ rest); [|exact Sf].
    apply scalar_false, (literal_at _ _ rest), Sf.
  - exists 1%nat. apply (scalar_content _ _ rest); [|exact Sf].
    apply (number_at _ _ rest); assumption.
  - exists 1%nat. apply (scalar_content _ _ rest); [|exact Sf].
    apply (string_at _ _ rest); assumption.
  - (* [ ws ] *)
    simpl in Sf. rewrite append_assoc in Sf. simpl in Sf.
    exists (1 + 1)%nat. cbn [append]. rewrite slen_String, slen_append, slen_String, slen_nil.
    replace (slen w + (1 + 0)) with (slen w + 1) by lia.
    apply (container_content _ _ "[" "]" w rest O); try reflexivity; [exact Sf|].
    apply suffix_cons in Sf. destruct Sf as (_ & _ & Sf).
    apply (ws_content _ _ _ _ W Sf).
  - (* [ elements ] *)
    simpl in Sf. rewrite append_assoc in Sf. simpl in Sf.
    pose proof Sf as Sf'.
    apply suffix_cons in Sf'. destruct Sf' as (_ & _ & Sf').
    destruct (IH data (i + 1) _ Sf') as [n C]; [reflexivity|].
    exists (S n + 1)%nat. cbn [append]. rewrite slen_String, slen_append, slen_String, slen_nil.
    replace (slen es + (1 + 0)) with (slen es + 1) by lia.
    apply (container_content _ _ "[" "]" es rest n); try reflexivity; assumption.
  - (* { ws } *)
    simpl in Sf. rewrite append_assoc in Sf. simpl in Sf.
    exists (1 + 1)%nat. cbn [append]. rewrite slen_String, slen_append, slen_String, slen_nil.
    replace (slen w + (1 + 0)) with (slen w + 1) by lia.
    apply (container_content _ _ "{" "}" w rest O); try reflexivity; [exact Sf|].
    apply suffix_cons in Sf. destruct Sf as (_ & _ & Sf).
    apply (ws_content _ _ _ _ W Sf).
  - (* { members } *)
    simpl in Sf. rewrite append_assoc in Sf. simpl in Sf.
    pose proof Sf as Sf'.
    apply suffix_cons in Sf'. destruct Sf' as (_ & _ & Sf').
    destruct (IH data (i + 1) _ Sf') as [n C]; [reflexivity|].
    exists (S n + 1)%nat. cbn [append]. rewrite slen_String, slen_append, slen_String, slen_nil.
    replace (slen ms + (1 + 0)) with (slen ms + 1) by lia.
    apply (container_content _ _ "{" "}" ms rest n); try reflexivity; assumption.
  - (* ws value ws *)
    rewrite !append_assoc in Sf.
    pose proof (ws_content _ _ _ _ W1 Sf) as C1.
    apply suffix_app in Sf.
    destruct (IH data _ _ Sf (ws_follows _ _ W2 F)) as [n C2].
    apply suffix_app in Sf.
    pose proof (ws_content _ _ _ _ W2 Sf) as C3.
    exists (0 + (n + 0))%nat. rewrite !slen_append.
    replace (i + (slen w1 + (slen v + slen w2)))
      with (i + slen w1 + slen v + slen w2) by lia.
    apply (content_app _ _ _ _ _ _ _ C1), (content_app _ _ _ _ _ _ _ C2), C3.
  - apply (IH data i rest Sf F).
  - (* element , elements *)
    rewrite !append_assoc in Sf. simpl in Sf.
    destruct (IHe data i _ Sf) as [n1 C1]; [reflexivity|].
    apply suffix_app in Sf. apply suffix_cons in Sf. destruct Sf as (L & C & Sf).
    destruct (IHes data _ _ Sf F) as [n2 C2].
    exists (n1 + n2)%nat. cbn [append]. rewrite slen_append, slen_String.
    replace (i + (slen e + (1 + slen es))) with (i + slen e + 1 + slen es) by lia.
    apply (content_app _ _ _ _ _ _ _ C1).
    apply content_skip; [exact L | rewrite C; reflexivity | exact C2].
  - (* ws string ws : element *)
    rewrite !append_assoc in Sf. simpl in Sf.
    pose proof (ws_content _ _ _ _ W1 Sf) as C1.
    apply suffix_app in Sf.
    pose proof (scalar_content _ _ _ _ (string_at _ _ _ _ K Sf) Sf) as C2.
    apply suffix_app in Sf.
    pose proof (ws_content _ _ _ _ W2 Sf) as C3.
    apply suffix_app in Sf. apply suffix_cons in Sf. destruct Sf as (L & C & Sf).
    destruct (IH data _ _ Sf F) as [n C4].
    exists (0 + (1 + (0 + n)))%nat. cbn [append]. rewrite !slen_append, slen_String.
    replace (i + (slen w1 + (slen k + (slen w2 + (1 + slen e)))))
      with (i + slen w1 + slen k + slen w2 + 1 + slen e) by lia.
    apply (content_app _ _ _ _ _ _ _ C1), (content_app _ _ _ _ _ _ _ C2),
          (content_app _ _ _ _ _ _ _ C3).
    apply content_skip; [exact L | rewrite C; reflexivity | exact C4].
  - apply (IH data i rest Sf F).
  - (* member , members *)
    rewrite !append_assoc in Sf. simpl in Sf.
    destruct (IHm data i _ Sf) as [n1 C1]; [reflexivity|].
    apply suffix_app in Sf. apply suffix_cons in Sf. destruct Sf as (L & C & Sf).
    destruct (IHms data _ _ Sf F) as [n2 C2].
    exists (n1 + n2)%nat. cbn [append]. rewrite slen_append, slen_String.
    replace (i + (slen m + (1 + slen ms))) with (i + slen m + 1 + slen ms) by lia.
    apply (content_app _ _ _ _ _ _ _ C1).
    apply content_skip; [exact L | rewrite C; reflexivity | exact C2].
Qed.

(** On well-formed content.  The reader [r] stands just after an opening
    bracket, one level deeper than [c], and the text up to the closing
    bracket at [j] is content of [n] tokens: [n + 1] scans leave the reader
    [full], just after the closing bracket and back at the depth of [c], and
    after any [k <= n + 1] of them a step of an iterator of [c] discards up
    to [full] and returns what it returns from [full]. *)
Lemma abandoned_content (r : BjReader) (c : BjValue) (j : Z) (n k : nat) :
  truthy (rerror r) = false ->
  0 <= vdepth c -> rdepth r = vdepth c + 1 ->
  content_at (rdata r) (rend r) (rcur r) j n ->
  j < rend r -> is_close (char_at (rdata r) j) = true ->
  (k <= S n)%nat ->
  let full := set_cur (set_depth r (vdepth c)) (j + 1) in
  reads (S n) r = full
  /\ bjDiscardUntil (reads k r) (vdepth c) = full
  /\ bjIterArray (reads k r) c = bjIterArray full c
  /\ bjIterObject (reads k r) c = bjIterObject full c.
Proof.
  intros T D0 D C Lj Cl Lk full.
  destruct (content_scanned _ _ _ _ _ C r) as (Dk & p & Rp & Bp & Bj & Skp);
    try reflexivity; [exact T | lia |].
  assert (F : reads (S n) r = full).
  { rewrite reads_S, Rp.
    rewrite (bjRead_skips (set_cur r p) j); simpl;
      [| exact T | lia | exact Skp].
    rewrite bjRead_close; simpl; [|exact T|lia|exact Cl|lia].
    unfold full, set_cur, set_depth; simpl. f_equal. lia. }
  split; [exact F|]. rewrite <- F.
  apply abandoned_scans.
  - exact Lk.
  - intros x Hx. specialize (Dk x). lia.
  - rewrite F. reflexivity.
Qed.

(** On JSON text.  The reader [r] stands just after the opening bracket
    of a well-formed array or object, one level deeper than [c]. *)
Lemma abandoned_json
      (r : BjReader) (c : BjValue) (pre opening body closing post : string) :
  json_container opening body closing ->
  rdata r = pre ++ opening ++ body ++ closing ++ post ->
  rend r = slen (rdata r) ->
  rcur r = slen pre + 1 ->
  truthy (rerror r) = false ->
  0 <= vdepth c -> rdepth r = vdepth c + 1 ->
  let full := set_cur (set_depth r (vdepth c)) (slen pre + slen body + 2) in
  exists m : nat,
    reads m r = full
    /\ forall k, (k <= m)%nat ->
         bjDiscardUntil (reads k r) (vdepth c) = full
         /\ bjIterArray (reads k r) c = bjIterArray full c
         /\ bjIterObject (reads k r) c = bjIterObject full c.
Proof.
  intros J D E Cu T D0 Dp full.
  assert (B : exists a cl,
             opening = String a EmptyString /\ closing = String cl EmptyString
             /\ is_open (Some a) = true /\ is_close (Some cl) = true
             /\ (json_ws body \/ exists srt, json_text srt body)).
  { destruct J as [(-> & -> & [W|Es]) | (-> & -> & [W|Ms])].
    - exists "["%char, "]"%char. repeat split; auto.
    - exists "["%char, "]"%char. repeat split; eauto.
    - exists "{"%char, "}"%char. repeat split; auto.
    - exists "{"%char, "}"%char. repeat split; eauto. }
  destruct B as (a & cl & -> & -> & Op & Cl & Body).
  cbn [append] in D.
  pose proof (suffix_start pre (String a (body ++ String cl post))) as Sf.
  rewrite <- D in Sf.
  apply suffix_cons in Sf. destruct Sf as (_ & _ & Sf).
  assert (F : follows (String cl post)).
  { unfold is_close, is_chr in Cl. simpl.
    apply orb_prop in Cl.
    destruct Cl as [Cl|Cl]; apply Ascii.eqb_eq in Cl; subst cl; reflexivity. }
  assert (C : exists n, content_at (rdata r) (rend r) (rcur r)
                                   (slen pre + 1 + slen body) n).
  { rewrite E, Cu.
    destruct Body as [W | (srt & Jb)].
    - exists O. apply (ws_content _ _ _ _ W Sf).
    - apply (json_content srt body Jb _ _ _ Sf F). }
  destruct C as [n C].
  apply suffix_app in Sf. apply suffix_cons in Sf. destruct Sf as (Lj & Cj & _).
  exists (S n).
  assert (Cl' : is_close (char_at (rdata r) (slen pre + 1 + slen body)) = true)
    by (rewrite Cj; exact Cl).
  rewrite <- E in Lj.
  assert (Ef : full = set_cur (set_depth r (vdepth c))
                              (slen pre + 1 + slen body + 1)).
  { unfold full. f_equal. lia. }
  rewrite Ef. split.
  - apply (abandoned_content r c _ n O T D0 Dp C Lj Cl'). lia.
  - intros k Hk.
    apply (abandoned_content r c _ n k T D0 Dp C Lj Cl' Hk).
Qed.

(** What the caller holds when a step of an iterator of [c] has handed out
    a container: no error, a reader one level deeper than [c], and the
    cursor just after the opening bracket. *)
Lemma iter_array_yields_container (r0 r : BjReader) (c v : BjValue) :
  bjIterArray r0 c = (r, mkIter false (Some v)) ->
  vtype v = ARRAY \/ vtype v = OBJECT ->
  truthy (rerror r) = false /\ rdepth r = vdepth c + 1
  /\ rcur r = vstart v + 1.
Proof.
  unfold bjIterArray. intros H K.
  pose proof (bjDiscardUntil_stops r0 (vdepth c)) as St.
  pose proof (bjRead_facts (bjDiscardUntil r0 (vdepth c))) as F.
  destruct St as [St|St]; [|rewrite (bjRead_error _ St) in H; discriminate H].
  destruct (bjRead (bjDiscardUntil r0 (vdepth c))) as [r2 val]. simpl in F.
  destruct (_ || _); inversion H; subst; clear H.
  pose proof (sf_depth _ _ _ F) as Dp. unfold depth_step in Dp.
  repeat split.
  - destruct (truthy (rerror r)) eqn:T; [|reflexivity].
    apply (sf_error _ _ _ F) in T. destruct K; congruence.
  - destruct K as [K|K]; rewrite K in Dp; lia.
  - apply (sf_open _ _ _ F K).
Qed.

Lemma iter_object_yields_container (r0 r : BjReader) (c key v : BjValue) :
  bjIterObject r0 c = (r, mkObjIter false (Some key) (Some v)) ->
  vtype key = STRING ->
  vtype v = ARRAY \/ vtype v = OBJECT ->
  truthy (rerror r) = false /\ rdepth r = vdepth c + 1
  /\ rcur r = vstart v + 1.
Proof.
  unfold bjIterObject. intros H Ks K.
  pose proof (bjDiscardUntil_stops r0 (vdepth c)) as St.
  pose proof (bjRead_facts (bjDiscardUntil r0 (vdepth c))) as F1.
  destruct St as [St|St]; [|rewrite (bjRead_error _ St) in H; discriminate H].
  destruct (bjRead (bjDiscardUntil r0 (vdepth c))) as [r2 k1]. simpl in F1.
  destruct (_ || _); [discriminate H|].
  pose proof (bjRead_facts r2) as F2.
  destruct (bjRead r2) as [r3 val]. simpl in F2.
  destruct (BjType_eqb (vtype val) END); [discriminate H|].
  destruct (BjType_eqb (vtype val) ERROR); inversion H; subst; clear H.
  pose proof (sf_depth _ _ _ F1) as D1. unfold depth_step in D1.
  rewrite Ks in D1.
  pose proof (sf_depth _ _ _ F2) as D2. unfold depth_step in D2.
  repeat split.
  - destruct (truthy (rerror r)) eqn:T; [|reflexivity].
    apply (sf_error _ _ _ F2) in T. destruct K; congruence.
  - destruct K as [K|K]; rewrite K in D2; lia.
  - apply (sf_open _ _ _ F2 K).
Qed.

(** A step of the iterator of the container [c] (the array iterator, or
    the object iterator with a String key) has handed the caller a nested
    container [v], whose text in the buffer is a well-formed JSON array or
    object.  Then some number [m] of scans consumes the nested value in full
    and leaves the reader [full], just after its closing bracket and back
    at the depth of [c]; and after any [k <= m] of them the next step of
    the iterator of [c] discards exactly up to [full] and returns what it
    returns from [full]. *)
Lemma abandoned_nested_steps
        (r0 r : BjReader) (c v : BjValue)
        (pre opening body closing post : string) :
  bjIterArray r0 c = (r, mkIter false (Some v))
  \/ (exists key, vtype key = STRING
                  /\ bjIterObject r0 c = (r, mkObjIter false (Some key) (Some v))) ->
  vtype v = ARRAY \/ vtype v = OBJECT ->
  json_container opening body closing ->
  rdata r = pre ++ opening ++ body ++ closing ++ post ->
  slen pre = vstart v ->
  rend r = slen (rdata r) ->
  0 <= vdepth c ->
  let full := set_cur (set_depth r (vdepth c)) (slen pre + slen body + 2) in
  exists m : nat,
    reads m r = full
    /\ forall k, (k <= m)%nat ->
         bjDiscardUntil (reads k r) (vdepth c) = full
         /\ bjIterArray (reads k r) c = bjIterArray full c
         /\ bjIterObject (reads k r) c = bjIterObject full c.
Proof.
  intros Step K J D P E D0.
  assert (H : truthy (rerror r) = false /\ rdepth r = vdepth c + 1
              /\ rcur r = vstart v + 1).
  { destruct Step as [A | (key & Ks & O)].
    - apply (iter_array_yields_container r0 r c v A K).
    - apply (iter_object_yields_container r0 r c key v O Ks K). }
  destruct H as (T & Dp & Cu).
  apply (abandoned_json r c pre opening body closing post); try assumption.
  lia.
Qed.

(** The nested Object abandoned at once, or after its key: the outer
    iterator reports exhausted, with no error. *)
Example nested_abandoned_outer_exhausted :
  bjIterObject nested_entered nested_root
  = (mkReader nested_doc 15 15 0 None, mkObjIter true None None)
  /\ bjIterObject (reads 1 nested_entered) nested_root
  = (mkReader nested_doc 15 15 0 None, mkObjIter true None None).
Proof. split; vm_compute; reflexivity. Qed.

(** [[[1, 2], 3]]: the nested Array abandoned after its first element; the
    outer iterator yields the sibling [3] and is then exhausted. *)
Example nested_abandoned_sibling :
  let r0 := bjReader "[[1, 2], 3]" in
  let arr := snd (bjRead r0) in
  let r1 := fst (bjIterArray (fst (bjRead r0)) arr) in
  let r2 := fst (bjRead r1) in
  snd (bjRead r1) = mkValue NUMBER 2 3 2
  /\ snd (bjIterArray r2 arr) = mkIter false (Some (mkValue NUMBER 9 10 1))
  /\ snd (bjIterArray (fst (bjIterArray r2 arr)) arr) = mkIter true None
  /\ rerror (fst (bjIterArray (fst (bjIterArray r2 arr)) arr)) = None.
Proof. cbv zeta. repeat split; vm_compute; reflexivity. Qed.

(** ** C8: the accessors check the kind, and nothing else *)

(** C8.  Whatever the reader's error field holds, an accessor called on a
    value of another kind throws its type error, and an accessor called on a
    value of its own kind returns: [bjGetString] the span of the text,
    [bjGetNumber] what [parseFloat] makes of it, [bjGetBool] whether it is
    ["true"].  The error field plays no part in the outcome. *)
Theorem C8_accessors_check_kind_only (r : BjReader) (e : option string) (val : BjValue) :
  let r' := mkReader (rdata r) (rcur r) (rend r) (rdepth r) e in
  let span := substring (rdata r) (vstart val) (vend val) in
  (bjGetString r' val = bjGetString r val
   /\ bjGetNumber r' val = bjGetNumber r val
   /\ bjGetBool r' val = bjGetBool r val)
  /\ bjGetString r val =
     match vtype val with
     | STRING => Ok span
     | _ => Throw "Value is not a string"
     end
  /\ bjGetNumber r val =
     match vtype val with
     | NUMBER => Ok (parseFloat span)
     | _ => Throw "Value is not a number"
     end
  /\ bjGetBool r val =
     match vtype val with
     | BOOL => Ok (String.eqb span "true")
     | _ => Throw "Value is not a boolean"
     end.
Proof.
  cbv zeta. unfold bjGetString, bjGetNumber, bjGetBool. simpl.
  destruct (vtype val); simpl; repeat split; reflexivity.
Qed.

(** The test of the repository: on ["42"] the string and the bool accessor
    throw, the number accessor returns 42. *)
Example accessors_on_42 :
  let r := fst (bjRead (bjReader "42")) in
  let v := snd (bjRead (bjReader "42")) in
  bjGetString r v = Throw "Value is not a string"
  /\ bjGetBool r v = Throw "Value is not a boolean"
  /\ bjGetNumber r v = Ok (Decimal false 42 0).
Proof. cbv zeta. repeat split; vm_compute; reflexivity. Qed.

(** ** C9: the cursor only moves forward *)

Lemma cursor_forward_refl (r : BjReader) : cursor_forward r r.
Proof. unfold cursor_forward; repeat split; lia. Qed.

Lemma cursor_forward_trans (r1 r2 r3 : BjReader) :
  cursor_forward r1 r2 -> cursor_forward r2 r3 -> cursor_forward r1 r3.
Proof.
  unfold cursor_forward. intros (D1 & E1 & C1) (D2 & E2 & C2).
  rewrite D2, D1, E2, E1. rewrite E1 in C2. repeat split; lia.
Qed.

Lemma bjRead_forward (r : BjReader) : cursor_forward r (fst (bjRead r)).
Proof.
  destruct (bjRead_facts r) as [D E C1 C2 _ _ _ _].
  unfold cursor_forward; repeat split; assumption.
Qed.

Lemma reads_forward (n : nat) (r : BjReader) : cursor_forward r (reads n r).
Proof.
  revert r; induction n as [|n IH]; intros r; simpl.
  - apply cursor_forward_refl.
  - eapply cursor_forward_trans; [apply bjRead_forward | apply IH].
Qed.

Lemma bjDiscardUntil_forward (r : BjReader) (depth : Z) :
  cursor_forward r (bjDiscardUntil r depth).
Proof.
  remember (Z.to_nat (rend r - rcur r)) as n eqn:Hn.
  revert r Hn; induction n as [n IH] using lt_wf_ind; intros r Hn.
  rewrite bjDiscardUntil_unfold.
  destruct (rdepth r =? depth); [apply cursor_forward_refl|].
  pose proof (bjRead_facts r) as F.
  apply (cursor_forward_trans _ (fst (bjRead r))); [apply bjRead_forward|].
  destruct (BjType_eqb (vtype (snd (bjRead r))) ERROR) eqn:E.
  - apply BjType_eqb_eq, (sf_error _ _ _ F) in E.
    rewrite (bjDiscardUntil_error _ _ E). apply cursor_forward_refl.
  - apply BjType_eqb_neq in E.
    destruct (sf_token _ _ _ F E) as (_ & ? & ?).
    apply (IH (Z.to_nat (rend (fst (bjRead r)) - rcur (fst (bjRead r)))));
      [|reflexivity].
    rewrite (sf_end _ _ _ F). lia.
Qed.

Lemma bjIterArray_forward (r : BjReader) (c : BjValue) :
  cursor_forward r (fst (bjIterArray r c)).
Proof.
  unfold bjIterArray.
  apply (cursor_forward_trans _ _ _ (bjDiscardUntil_forward r (vdepth c))).
  pose proof (bjRead_forward (bjDiscardUntil r (vdepth c))) as F.
  destruct (bjRead (bjDiscardUntil r (vdepth c))) as [r2 v]; simpl in F.
  destruct (_ || _); exact F.
Qed.

Lemma bjIterObject_forward (r : BjReader) (c : BjValue) :
  cursor_forward r (fst (bjIterObject r c)).
Proof.
  unfold bjIterObject.
  apply (cursor_forward_trans _ _ _ (bjDiscardUntil_forward r (vdepth c))).
  pose proof (bjRead_forward (bjDiscardUntil r (vdepth c))) as F.
  destruct (bjRead (bjDiscardUntil r (vdepth c))) as [r2 key]; simpl in F.
  destruct (_ || _); [exact F|].
  apply (cursor_forward_trans _ _ _ F).
  pose proof (bjRead_forward r2) as F2.
  destruct (bjRead r2) as [r3 val]; simpl in F2.
  destruct (BjType_eqb (vtype val) END); [exact F2|].
  destruct (BjType_eqb (vtype val) ERROR); exact F2.
Qed.

(** C9.  A call of [bjRead] leaves the buffer and [end] as they were and
    the cursor at or after its old place; the cursor does not pass [end]
    (it stays below [max cur end], so below [end] when it started there),
    and the same holds of a step of either iterator.  On a reader made by
    [bjReader] the cursor stays within the text however many scans are
    made. *)
Theorem C9_cursor_only_moves_forward :
  (forall (r : BjReader) (c : BjValue),
      (rcur r <= rcur (fst (bjRead r)) <= Z.max (rcur r) (rend r)
       /\ rend (fst (bjRead r)) = rend r)
      /\ rcur r <= rcur (fst (bjIterArray r c)) <= Z.max (rcur r) (rend r)
      /\ rcur r <= rcur (fst (bjIterObject r c)) <= Z.max (rcur r) (rend r))
  /\ (forall (data : string) (n : nat),
         0 <= rcur (reads n (bjReader data)) <= slen data
         /\ rend (reads n (bjReader data)) = slen data).
Proof.
  split.
  - intros r c.
    destruct (bjRead_forward r) as (_ & E & C).
    destruct (bjIterArray_forward r c) as (_ & _ & CA).
    destruct (bjIterObject_forward r c) as (_ & _ & CO).
    repeat split; try assumption; lia.
  - intros data n.
    destruct (reads_forward n (bjReader data)) as (_ & E & C).
    simpl in *. unfold slen in *. lia.
Qed.

(** ** C10: termination *)

(** C10.  A turn of the loop of [bjRead] that does not return moves the
    cursor by one, towards [end]; so with room for [end - cur] such turns
    (at most the length of the text, on a reader made by [bjReader]) the loop
    returns.  A call of [bjRead] made by [bjDiscardUntil] moves the cursor
    forward or returns an Error value, which ends the loop; so with room for
    [end - cur + 1] turns the loop of [bjDiscardUntil] ends, at the target
    depth or on an error. *)
Theorem C10_scans_terminate :
  (forall r : BjReader,
      (forall r1, bjRead_step r = Continue r1 ->
                  rcur r1 = rcur r + 1 /\ rcur r1 <= rend r1)
      /\ bjRead_loop (Z.to_nat (rend r - rcur r)) r = Some (bjRead r)
      /\ (rcur r < rcur (fst (bjRead r)) \/ vtype (snd (bjRead r)) = ERROR))
  /\ (forall data : string,
         bjRead_loop (String.length data) (bjReader data)
         = Some (bjRead (bjReader data)))
  /\ (forall (r : BjReader) (depth : Z),
         bjDiscardUntil_loop (S (Z.to_nat (rend r - rcur r))) r depth
                             (mkValue NULL 0 0 0)
         = Some (bjDiscardUntil r depth)
         /\ (rdepth (bjDiscardUntil r depth) = depth
             \/ truthy (rerror (bjDiscardUntil r depth)) = true)).
Proof.
  split; [|split].
  - intros r. split; [|split].
    + intros r1 S. apply bjRead_step_continue in S.
      destruct S as (-> & L & _). simpl. lia.
    + apply bjRead_loop_Some.
    + pose proof (bjRead_facts r) as F.
      destruct (BjType_eqb (vtype (snd (bjRead r))) ERROR) eqn:E.
      * right; apply BjType_eqb_eq, E.
      * left. apply BjType_eqb_neq in E. apply (sf_token _ _ _ F E).
  - intros data.
    pose proof (bjRead_loop_Some (bjReader data)) as H.
    unfold bjRead_fuel in H. simpl in H. unfold slen in H.
    rewrite Z.sub_0_r, Nat2Z.id in H. exact H.
  - intros r depth. split.
    + apply (bjDiscardUntil_loop_Some r depth (mkValue NULL 0 0 0)).
    + apply bjDiscardUntil_stops.
Qed.

(** * Further properties *)

(** ** The location resolver *)

(** The loop run one character further is the loop, then one more turn. *)
Lemma bjLocation_loop_snoc (data : string) (cur : Z) (fuel : nat) :
  forall i l c : Z,
    0 <= i -> i + Z.of_nat fuel = cur ->
    bjLocation_loop (S fuel) data (cur + 1) i l c
    = loc_step (char_at data cur) (bjLocation_loop fuel data cur i l c).
Proof.
  induction fuel as [|fuel IH]; intros i l c Hi E.
  - assert (i = cur) by lia. subst i. simpl.
    rewrite (proj2 (Z.ltb_lt cur (cur + 1))) by lia.
    unfold loc_step. destruct (is_chr (char_at data cur) char_lf); reflexivity.
  - change (bjLocation_loop (S (S fuel)) data (cur + 1) i l c)
      with (if i <? cur + 1 then
              if is_chr (char_at data i) char_lf
              then bjLocation_loop (S fuel) data (cur + 1) (i + 1) (l + 1) 1
              else bjLocation_loop (S fuel) data (cur + 1) (i + 1) l (c + 1)
            else mkLocation l c).
    change (bjLocation_loop (S fuel) data cur i l c)
      with (if i <? cur then
              if is_chr (char_at data i) char_lf
              then bjLocation_loop fuel data cur (i + 1) (l + 1) 1
              else bjLocation_loop fuel data cur (i + 1) l (c + 1)
            else mkLocation l c).
    rewrite (proj2 (Z.ltb_lt i (cur + 1))) by lia.
    rewrite (proj2 (Z.ltb_lt i cur)) by lia.
    destruct (is_chr (char_at data i) char_lf); apply IH; lia.
Qed.

Lemma bjLocation_succ (r : BjReader) :
  0 <= rcur r ->
  bjLocation (set_cur r (rcur r + 1))
  = loc_step (char_at (rdata r) (rcur r)) (bjLocation r).
Proof.
  intros H. unfold bjLocation. simpl.
  replace (Z.to_nat (rcur r + 1)) with (S (Z.to_nat (rcur r))) by lia.
  apply bjLocation_loop_snoc; lia.
Qed.

Lemma bjLocation_start (r : BjReader) :
  rcur r <= 0 -> bjLocation r = mkLocation 1 1.
Proof.
  intros H. unfold bjLocation.
  replace (Z.to_nat (rcur r)) with O by lia. reflexivity.
Qed.

(** Induction on the cursor: from the start of the text, one character at
    a time. *)
Lemma cursor_ind (P : BjReader -> Prop) (r : BjReader) :
  P (set_cur r 0) ->
  (forall c, 0 <= c -> P (set_cur r c) -> P (set_cur r (c + 1))) ->
  0 <= rcur r -> P r.
Proof.
  intros P0 PS H. rewrite <- (set_cur_same r).
  generalize (rcur r) H. apply natlike_ind; [exact P0|].
  intros c Hc IH. apply (PS c Hc IH).
Qed.

Lemma bjLocation_line_col (r : BjReader) :
  0 <= rcur r ->
  line (bjLocation r) = 1 + newlines (rdata r) (Z.to_nat (rcur r))
  /\ 1 <= col (bjLocation r) <= rcur r + 1.
Proof.
  apply (cursor_ind
           (fun r => line (bjLocation r)
                     = 1 + newlines (rdata r) (Z.to_nat (rcur r))
                     /\ 1 <= col (bjLocation r) <= rcur r + 1)).
  - rewrite bjLocation_start by (simpl; lia). simpl. lia.
  - intros c Hc [IHl IHc].
    change (set_cur r (c + 1)) with (set_cur (set_cur r c) (rcur (set_cur r c) + 1)).
    rewrite bjLocation_succ by (simpl; lia).
    cbn [rcur rdata set_cur] in *.
    replace (Z.to_nat (c + 1)) with (S (Z.to_nat c)) by lia.
    cbn [newlines]. rewrite Z2Nat.id by lia.
    unfold loc_step.
    destruct (is_chr (char_at (rdata r) c) char_lf); cbn [line col]; lia.
Qed.

(** X1.  [bjLocation] returns as line one more than the number of line
    feeds before the cursor, and a column of at least 1 and at most the
    cursor plus one; a cursor at or before the start of the text gives line
    1, column 1. *)
Theorem X1_location_counts_line_feeds (r : BjReader) :
  line (bjLocation r) = 1 + newlines (rdata r) (Z.to_nat (rcur r))
  /\ 1 <= col (bjLocation r) <= Z.max 0 (rcur r) + 1.
Proof.
  destruct (Z.le_gt_cases 0 (rcur r)) as [H|H].
  - destruct (bjLocation_line_col r H). split; [assumption|lia].
  - rewrite bjLocation_start by lia.
    replace (Z.to_nat (rcur r)) with O by lia. simpl. lia.
Qed.

Lemma bjLocation_column_from (r : BjReader) (p : Z) (k : nat) :
  -1 <= p ->
  p = -1 \/ is_chr (char_at (rdata r) p) char_lf = true ->
  (forall q, p < q < p + 1 + Z.of_nat k ->
             is_chr (char_at (rdata r) q) char_lf = false) ->
  col (bjLocation (set_cur r (p + 1 + Z.of_nat k))) = 1 + Z.of_nat k.
Proof.
  intros Hp Hlf. induction k as [|k IH]; intros Hq.
  - rewrite Z.add_0_r. destruct Hlf as [-> | Hlf].
    + rewrite bjLocation_start by (simpl; lia). reflexivity.
    + assert (0 <= p).
      { destruct (Z.eq_dec p (-1)) as [->|]; [discriminate Hlf | lia]. }
      change (set_cur r (p + 1))
        with (set_cur (set_cur r p) (rcur (set_cur r p) + 1)).
      rewrite bjLocation_succ by (simpl; lia).
      cbn [rcur rdata set_cur]. unfold loc_step. rewrite Hlf. reflexivity.
  - replace (p + 1 + Z.of_nat (S k)) with (p + 1 + Z.of_nat k + 1) by lia.
    change (set_cur r (p + 1 + Z.of_nat k + 1))
      with (set_cur (set_cur r (p + 1 + Z.of_nat k))
                    (rcur (set_cur r (p + 1 + Z.of_nat k)) + 1)).
    rewrite bjLocation_succ by (simpl; lia).
    cbn [rcur rdata set_cur]. unfold loc_step.
    rewrite Hq by lia. cbn [col]. rewrite IH; [lia|].
    intros q Hq'. apply Hq. lia.
Qed.

(** X2.  The column is the distance from the last line feed before the
    cursor (from just before the text, position [-1], when there is none):
    with a line feed at [p] and none between [p] and the cursor, the column
    is [cur - p]. *)
Theorem X2_location_column (r : BjReader) (p : Z) :
  -1 <= p < rcur r ->
  p = -1 \/ is_chr (char_at (rdata r) p) char_lf = true ->
  (forall q, p < q < rcur r -> is_chr (char_at (rdata r) q) char_lf = false) ->
  col (bjLocation r) = rcur r - p.
Proof.
  intros Hp Hlf Hq.
  pose proof (bjLocation_column_from r p (Z.to_nat (rcur r - p - 1))) as H.
  rewrite Z2Nat.id in H by lia.
  replace (p + 1 + (rcur r - p - 1)) with (rcur r) in H by lia.
  rewrite set_cur_same in H. rewrite H; [lia | lia | exact Hlf | exact Hq].
Qed.

Lemma X2_location_column_witness :
  let r := reads 3 (bjReader (json "{
  'test':
  123
}")) in
  rcur r = 17 /\ col (bjLocation r) = 17 - 11.
Proof.
  split; [reflexivity|].
  apply (X2_location_column
           (reads 3 (bjReader (json "{
  'test':
  123
}"))) 11).
  - vm_compute. split; [discriminate | reflexivity].
  - right; reflexivity.
  - intros q Hq. change (rcur _) with 17 in Hq.
    assert (C : q = 12 \/ q = 13 \/ q = 14 \/ q = 15 \/ q = 16) by lia.
    destruct C as [-> | [-> | [-> | [-> | ->]]]]; reflexivity.
Defined.

Lemma loc_lt_trans (a b c : BjLocation) : loc_lt a b -> loc_lt b c -> loc_lt a c.
Proof. unfold loc_lt. lia. Qed.

Lemma loc_step_lt (c : option ascii) (l : BjLocation) : loc_lt l (loc_step c l).
Proof.
  unfold loc_lt, loc_step. destruct (is_chr c char_lf); cbn [line col]; lia.
Qed.

Lemma bjLocation_increasing (r : BjReader) (c : Z) (k : nat) :
  0 <= c ->
  loc_lt (bjLocation (set_cur r c)) (bjLocation (set_cur r (c + 1 + Z.of_nat k))).
Proof.
  intros Hc. induction k as [|k IH].
  - rewrite Z.add_0_r.
    change (set_cur r (c + 1))
      with (set_cur (set_cur r c) (rcur (set_cur r c) + 1)).
    rewrite bjLocation_succ by (simpl; lia). apply loc_step_lt.
  - apply (loc_lt_trans _ _ _ IH).
    replace (c + 1 + Z.of_nat (S k)) with (c + 1 + Z.of_nat k + 1) by lia.
    change (set_cur r (c + 1 + Z.of_nat k + 1))
      with (set_cur (set_cur r (c + 1 + Z.of_nat k))
                    (rcur (set_cur r (c + 1 + Z.of_nat k)) + 1)).
    rewrite bjLocation_succ by (simpl; lia). apply loc_step_lt.
Qed.

Lemma bjLocation_data_cur (r1 r2 : BjReader) :
  rdata r1 = rdata r2 -> rcur r1 = rcur r2 -> bjLocation r1 = bjLocation r2.
Proof. unfold bjLocation. intros -> ->. reflexivity. Qed.

Lemma bjLocation_lt (r1 r2 : BjReader) :
  rdata r1 = rdata r2 -> 0 <= rcur r1 < rcur r2 ->
  loc_lt (bjLocation r1) (bjLocation r2).
Proof.
  intros D H.
  pose proof (bjLocation_increasing r1 (rcur r1)
                (Z.to_nat (rcur r2 - rcur r1 - 1))) as L.
  rewrite Z2Nat.id in L by lia.
  replace (rcur r1 + 1 + (rcur r2 - rcur r1 - 1)) with (rcur r2) in L by lia.
  rewrite set_cur_same in L.
  rewrite (bjLocation_data_cur r2 (set_cur r1 (rcur r2)));
    [apply L; lia | symmetry; exact D | reflexivity].
Qed.

(** X3.  Over one text, a later cursor has a later location (a later line,
    or the same line and a later column): the location determines the
    offset. *)
Theorem X3_location_orders_offsets (r1 r2 : BjReader) :
  rdata r1 = rdata r2 -> 0 <= rcur r1 -> 0 <= rcur r2 ->
  (rcur r1 < rcur r2 <-> loc_lt (bjLocation r1) (bjLocation r2))
  /\ (bjLocation r1 = bjLocation r2 -> rcur r1 = rcur r2).
Proof.
  intros D H1 H2.
  assert (A : forall a b, rdata a = rdata b -> 0 <= rcur a < rcur b ->
                          loc_lt (bjLocation a) (bjLocation b))
    by (intros; apply bjLocation_lt; assumption).
  split; [split|].
  - intros L. apply A; [exact D | lia].
  - intros L. destruct (Z.lt_trichotomy (rcur r1) (rcur r2)) as [Lt|[Eq|Gt]];
      [exact Lt | |].
    + rewrite (bjLocation_data_cur r1 r2 D Eq) in L. unfold loc_lt in L. lia.
    + pose proof (A r2 r1 (eq_sym D) (conj H2 Gt)) as L'.
      unfold loc_lt in *. lia.
  - intros E. destruct (Z.lt_trichotomy (rcur r1) (rcur r2)) as [Lt|[Eq|Gt]];
      [|exact Eq|].
    + pose proof (A r1 r2 D (conj H1 Lt)) as L. rewrite E in L.
      unfold loc_lt in L. lia.
    + pose proof (A r2 r1 (eq_sym D) (conj H2 Gt)) as L. rewrite E in L.
      unfold loc_lt in L. lia.
Qed.

Lemma X3_location_orders_offsets_witness :
  let r := bjReader (json "{'a':
1}") in
  (rcur (reads 1 r) < rcur (reads 3 r)
   <-> loc_lt (bjLocation (reads 1 r)) (bjLocation (reads 3 r)))
  /\ (bjLocation (reads 1 r) = bjLocation (reads 3 r)
      -> rcur (reads 1 r) = rcur (reads 3 r)).
Proof.
  apply (X3_location_orders_offsets
           (reads 1 (bjReader (json "{'a':
1}")))
           (reads 3 (bjReader (json "{'a':
1}")))).
  - reflexivity.
  - vm_compute; discriminate.
  - vm_compute; discriminate.
Defined.

(** X4.  A scan that returns a token leaves the reader at a later location
    than it found it. *)
Theorem X4_token_moves_location_forward (r : BjReader) :
  0 <= rcur r -> vtype (snd (bjRead r)) <> ERROR ->
  loc_lt (bjLocation r) (bjLocation (fst (bjRead r))).
Proof.
  intros H N. pose proof (bjRead_facts r) as F.
  destruct (sf_token _ _ _ F N) as (_ & L & _).
  apply bjLocation_lt; [symmetry; apply (sf_data _ _ _ F) | lia].
Qed.

Lemma X4_token_moves_location_forward_witness :
  let r := bjReader (json "
 'k'") in
  bjLocation r = mkLocation 1 1
  /\ bjLocation (fst (bjRead r)) = mkLocation 2 5
  /\ loc_lt (bjLocation r) (bjLocation (fst (bjRead r))).
Proof.
  split; [reflexivity|]. split; [reflexivity|].
  apply (X4_token_moves_location_forward (bjReader (json "
 'k'"))).
  - vm_compute; discriminate.
  - vm_compute; discriminate.
Defined.

(** ** The span of a token and the errors of the scanner *)

Lemma isString_from_chars (data : string) (cur end_ : Z) (expect : string) :
  forall i : Z,
    0 <= i ->
    isString_from data cur end_ expect i = true ->
    forall k, 0 <= k < slen expect ->
              char_at data (cur + i + k) = char_at expect k.
Proof.
  induction expect as [|e rest IH]; intros i Hi H k Hk.
  - rewrite slen_nil in Hk. lia.
  - simpl in H.
    destruct (end_ <=? cur + i); simpl in H; [discriminate|].
    destruct (is_chr (char_at data (cur + i)) e) eqn:C; simpl in H;
      [|discriminate].
    rewrite slen_String in Hk.
    destruct (Z.eq_dec k 0) as [->|Ne].
    + rewrite Z.add_0_r. apply is_chr_Some in C. rewrite C. reflexivity.
    + specialize (IH (i + 1) ltac:(lia) H (k - 1) ltac:(lia)).
      replace (cur + (i + 1) + (k - 1)) with (cur + i + k) in IH by lia.
      rewrite IH. unfold char_at.
      rewrite (proj2 (Z.ltb_ge (k - 1) 0)), (proj2 (Z.ltb_ge k 0)) by lia.
      replace (Z.to_nat k) with (S (Z.to_nat (k - 1))) by lia. reflexivity.
Qed.

Lemma char_at_last (rest : string) :
  forall a, exists b, char_at (String a rest) (slen rest) = Some b.
Proof.
  induction rest as [|x rest IH]; intros a.
  - exists a. reflexivity.
  - destruct (IH x) as [b Hb]. exists b.
    rewrite slen_String. pose proof (slen_nonneg rest) as Hn.
    unfold char_at in *.
    rewrite (proj2 (Z.ltb_ge (slen rest) 0)) in Hb by lia.
    rewrite (proj2 (Z.ltb_ge (1 + slen rest) 0)) by lia.
    replace (Z.to_nat (1 + slen rest)) with (S (Z.to_nat (slen rest))) by lia.
    exact Hb.
Qed.

(** A literal that matches lies within the text. *)
Lemma isString_within (data : string) (cur end_ : Z) (a : ascii) (rest : string) :
  isString data cur end_ (String a rest) = true ->
  0 <= cur /\ cur + slen (String a rest) <= slen data.
Proof.
  intros H. unfold isString in H.
  pose proof (isString_from_chars _ _ _ _ 0 (Z.le_refl 0) H) as C.
  pose proof (slen_nonneg rest) as Hr. rewrite slen_String.
  assert (C0 := C 0). assert (Cl := C (slen rest)).
  rewrite slen_String in C0, Cl.
  specialize (C0 ltac:(lia)). specialize (Cl ltac:(lia)).
  destruct (char_at_last rest a) as [b Hb].
  rewrite Hb in Cl. apply char_at_Some_bound in Cl.
  simpl in C0. apply char_at_Some_bound in C0. lia.
Qed.

Lemma chr_within (data : string) (i : Z) (a : ascii) :
  is_chr (char_at data i) a = true -> 0 <= i < slen data.
Proof. intros H. apply is_chr_Some in H. apply (char_at_Some_bound _ _ _ H). Qed.

Lemma number_cont_within (data : string) (i : Z) :
  isNumberCont (char_at data i) = true -> 0 <= i < slen data.
Proof.
  destruct (char_at data i) as [a|] eqn:C; [|discriminate].
  intros _. apply (char_at_Some_bound _ _ _ C).
Qed.

Lemma close_within (data : string) (i : Z) :
  is_close (char_at data i) = true -> 0 <= i < slen data.
Proof.
  destruct (char_at data i) as [a|] eqn:C; [|discriminate].
  intros _. apply (char_at_Some_bound _ _ _ C).
Qed.

Lemma bjRead_step_token (r r' : BjReader) (v : BjValue) :
  bjRead_step r = Return r' v -> token_facts r r' v.
Proof.
  unfold bjRead_step, unknown_token.
  destruct (truthy (rerror r)) eqn:T.
  { intros H; inversion H; subst; clear H.
    constructor; simpl; [intros N; exfalso; apply N; reflexivity
                        | exact I | congruence]. }
  destruct (rend r <=? rcur r) eqn:E.
  { apply Z.leb_le in E. intros H; inversion H; subst; clear H.
    constructor; simpl; [intros N; exfalso; apply N; reflexivity | exact I |].
    intros _ _. left. simpl. repeat split; try reflexivity; lia. }
  apply Z.leb_gt in E. cbv zeta.
  destruct (is_skip _) eqn:Sk; [discriminate|].
  destruct (is_number_start _) eqn:N.
  { intros H; inversion H; subst; clear H.
    destruct (number_scan_maximal _ _ _ E N) as (B & Run & Stop).
    pose proof (number_cont_within _ _ (Run (rcur r) ltac:(lia))).
    pose proof (number_cont_within _ _
                  (Run (number_scan (rdata r) (rend r) (rcur r) - 1) ltac:(lia))).
    constructor; simpl; [|unfold kind_at; simpl; auto | discriminate].
    intros _. repeat split; lia. }
  destruct (is_chr _ quote) eqn:Q.
  { destruct (string_scan _ _ _) as [q [|]] eqn:S;
      intros H; inversion H; subst; clear H.
    - apply string_scan_closes in S.
      destruct (closes_at_range _ _ _ _ S) as [Rg Qq].
      pose proof (chr_within _ _ _ Q). pose proof (chr_within _ _ _ Qq).
      constructor; simpl; [| | discriminate].
      + intros _. repeat split; lia.
      + unfold kind_at; simpl. split; [|exact S].
        replace (rcur r + 1 - 1) with (rcur r) by lia. exact Q.
    - apply string_scan_unclosed in S; [|lia]. destruct S as [-> S].
      constructor; simpl;
        [intros X; exfalso; apply X; reflexivity | exact I |].
      intros _ _. right. right. left. simpl.
      replace (rcur r + 1 - 1) with (rcur r) by lia.
      repeat split; auto. }
  destruct (is_open _) eqn:O.
  { intros H; inversion H; subst; clear H.
    unfold is_open in O.
    assert (W : 0 <= rcur r < slen (rdata r)).
    { apply orb_prop in O. destruct O as [O|O]; apply (chr_within _ _ _ O). }
    constructor; simpl.
    - intros _. destruct (is_chr _ "{"); simpl; repeat split; lia.
    - unfold kind_at; simpl.
      destruct (is_chr (char_at (rdata r) (rcur r)) "{") eqn:B; simpl;
        [auto|]. simpl in O. auto.
    - destruct (is_chr _ "{"); discriminate. }
  destruct (is_close _) eqn:C.
  { pose proof (close_within _ _ C) as W.
    destruct (rdepth r - 1 <? 0) eqn:D;
      intros H; inversion H; subst; clear H.
    - apply Z.ltb_lt in D.
      constructor; simpl;
        [intros X; exfalso; apply X; reflexivity | exact I |].
      intros _ _. right. right. right.
      unfold stray_close; simpl. unfold is_close in C.
      repeat split; try lia.
      destruct (is_chr (char_at (rdata r) (rcur r)) "}"); simpl in C; auto.
    - constructor; simpl; [| unfold kind_at; simpl; auto | discriminate].
      intros _. repeat split; lia. }
  assert (U : forall r0 v0,
             Return (set_error r "unknown token")
                    (mkValue ERROR (rcur r) (rcur r) (rdepth r)) = Return r0 v0 ->
             token_facts r r0 v0).
  { intros r0 v0 H; inversion H; subst; clear H.
    constructor; simpl;
      [intros X; exfalso; apply X; reflexivity | exact I |].
    intros _ _. right. left. simpl. repeat split; auto. }
  destruct (is_literal_start _); [|apply U].
  destruct (isString _ _ _ "null") eqn:S1.
  { destruct (isString_first _ _ _ _ _ S1) as [_ F1].
    destruct (isString_within _ _ _ _ _ S1) as [W1 W2].
    rewrite !slen_String, slen_nil in W2.
    rewrite F1. simpl.
    intros H; inversion H; subst; clear H.
    constructor; simpl; [| unfold kind_at; simpl; auto | discriminate].
    intros _. repeat split; lia. }
  destruct (isString _ _ _ "true") eqn:S2.
  { destruct (isString_first _ _ _ _ _ S2) as [_ F1].
    destruct (isString_within _ _ _ _ _ S2) as [W1 W2].
    rewrite !slen_String, slen_nil in W2.
    rewrite F1. simpl.
    intros H; inversion H; subst; clear H.
    constructor; simpl; [| unfold kind_at; simpl; auto | discriminate].
    intros _. repeat split; lia. }
  destruct (isString _ _ _ "false") eqn:S3; [|apply U].
  destruct (isString_first _ _ _ _ _ S3) as [_ F1].
  destruct (isString_within _ _ _ _ _ S3) as [W1 W2].
  rewrite !slen_String, slen_nil in W2.
  rewrite F1. simpl.
  intros H; inversion H; subst; clear H.
  constructor; simpl; [| unfold kind_at; simpl; auto | discriminate].
  intros _. repeat split; lia.
Qed.

Lemma bjRead_token_facts (r : BjReader) :
  token_facts r (fst (bjRead r)) (snd (bjRead r)).
Proof.
  apply (bjRead_ind token_facts); [apply bjRead_step_token|].
  intros r0 r1 r' v S F.
  apply bjRead_step_continue in S. destruct S as (-> & Hlt & T).
  destruct F as [F1 F2 F3]. simpl in *.
  constructor; simpl; try assumption.
  intros N. specialize (F1 N). lia.
Qed.

(** X5.  The span of a token lies within the text and after the cursor the
    scan started from, and the scan leaves the cursor at the end of the span
    (one further, past the closing quote, for a String); so the accessors'
    [substring] is never clamped: it has the length of the span. *)
Theorem X5_token_span_within_text (r : BjReader) :
  vtype (snd (bjRead r)) <> ERROR ->
  let r' := fst (bjRead r) in
  let v := snd (bjRead r) in
  rcur r <= vstart v <= vend v
  /\ 0 <= vstart v /\ vend v <= slen (rdata r)
  /\ rcur r' = (if BjType_eqb (vtype v) STRING then vend v + 1 else vend v)
  /\ slen (substring (rdata r') (vstart v) (vend v)) = vend v - vstart v.
Proof.
  intros N r' v.
  destruct (tf_span _ _ _ (bjRead_token_facts r) N) as (A & B & C & D & E).
  fold r' v in A, B, C, D, E.
  repeat split; try assumption.
  unfold r'. rewrite (sf_data _ _ _ (bjRead_facts r)).
  rewrite substring_in_range by lia.
  unfold slen in *. rewrite length_substring; lia.
Qed.

Lemma X5_token_span_within_text_witness :
  let r := bjReader (json "  'abc' ") in
  let r' := fst (bjRead r) in
  let v := snd (bjRead r) in
  v = mkValue STRING 3 6 0
  /\ rcur r <= vstart v <= vend v
  /\ 0 <= vstart v /\ vend v <= slen (rdata r)
  /\ rcur r' = (if BjType_eqb (vtype v) STRING then vend v + 1 else vend v)
  /\ slen (substring (rdata r') (vstart v) (vend v)) = vend v - vstart v.
Proof.
  split; [reflexivity|].
  apply (X5_token_span_within_text (bjReader (json "  'abc' "))).
  vm_compute; discriminate.
Defined.

(** X6.  On a reader with no error, a scan either returns a token and
    leaves the error field alone, or returns an Error value and records one
    of five messages: ["unexpected eof"] with the cursor at or past [end];
    ["unknown token"] with the cursor on a character that starts no token;
    ["unclosed string"] with the cursor at [end] and the value starting on
    the opening quote; or a stray ['}'] or [']'] with the cursor on the
    bracket. *)
Theorem X6_errors_of_a_scan (r : BjReader) :
  truthy (rerror r) = false ->
  let r' := fst (bjRead r) in
  let v := snd (bjRead r) in
  (vtype v <> ERROR /\ rerror r' = rerror r)
  \/ (vtype v = ERROR /\ error_at r r' v).
Proof.
  intros T r' v.
  destruct (BjType_eqb (vtype v) ERROR) eqn:E.
  - apply BjType_eqb_eq in E. right. split; [exact E|].
    apply (tf_error _ _ _ (bjRead_token_facts r) T E).
  - apply BjType_eqb_neq in E. left. split; [exact E|].
    apply (sf_token _ _ _ (bjRead_facts r) E).
Qed.

Lemma X6_errors_of_a_scan_witness :
  let r := bjReader "  nul" in
  let r' := fst (bjRead r) in
  let v := snd (bjRead r) in
  (rerror r' = Some "unknown token" /\ rcur r' = 2)
  /\ ((vtype v <> ERROR /\ rerror r' = rerror r)
      \/ (vtype v = ERROR /\ error_at r r' v)).
Proof.
  split; [split; reflexivity|].
  apply (X6_errors_of_a_scan (bjReader "  nul")). reflexivity.
Defined.

Lemma bjRead_nothing_left (r : BjReader) :
  truthy (rerror r) = false ->
  (forall x, rcur r <= x < rend r -> is_skip (char_at (rdata r) x) = true) ->
  let e := Z.max (rcur r) (rend r) in
  bjRead r = (mkReader (rdata r) e (rend r) (rdepth r) (Some "unexpected eof"),
              mkValue ERROR e e (rdepth r)).
Proof.
  intros T Sk e.
  assert (R : bjRead r = bjRead (set_cur r e)).
  { destruct (Z.le_gt_cases (rend r) (rcur r)) as [H|H].
    - replace e with (rcur r) by (unfold e; lia).
      rewrite set_cur_same. reflexivity.
    - apply bjRead_skips; [exact T | unfold e; lia |].
      intros x Hx. apply Sk. unfold e in Hx. lia. }
  rewrite R, bjRead_unfold. unfold bjRead_step. simpl.
  rewrite T. rewrite (proj2 (Z.leb_le (rend r) e)) by (unfold e; lia).
  reflexivity.
Qed.

(** X7.  With nothing but white space, commas and colons between the
    cursor and [end] (and so on the empty text), a scan records
    ["unexpected eof"], returns an Error value at [end], leaves the depth as
    it is and moves the cursor to [end]. *)
Theorem X7_nothing_left_is_unexpected_eof (r : BjReader) :
  truthy (rerror r) = false ->
  (forall x, rcur r <= x < rend r -> is_skip (char_at (rdata r) x) = true) ->
  let e := Z.max (rcur r) (rend r) in
  bjRead r = (mkReader (rdata r) e (rend r) (rdepth r) (Some "unexpected eof"),
              mkValue ERROR e e (rdepth r)).
Proof. exact (bjRead_nothing_left r). Qed.

Lemma X7_nothing_left_is_unexpected_eof_witness :
  bjRead (bjReader EmptyString)
  = (mkReader EmptyString 0 0 0 (Some "unexpected eof"), mkValue ERROR 0 0 0)
  /\ bjRead (reads 2 (bjReader "[ ] , "))
     = (mkReader "[ ] , " 6 6 0 (Some "unexpected eof"), mkValue ERROR 6 6 0).
Proof.
  split.
  - apply (X7_nothing_left_is_unexpected_eof (bjReader EmptyString));
      [reflexivity|].
    intros x Hx. change (0 <= x < 0) in Hx. lia.
  - apply (X7_nothing_left_is_unexpected_eof (reads 2 (bjReader "[ ] , ")));
      [reflexivity|].
    intros x Hx. change (3 <= x < 6) in Hx.
    assert (C : x = 3 \/ x = 4 \/ x = 5) by lia.
    destruct C as [-> | [-> | ->]]; reflexivity.
Defined.

Lemma reads_error_stays (n m : nat) (r : BjReader) :
  truthy (rerror (reads n r)) = true -> (n <= m)%nat ->
  reads m r = reads n r.
Proof.
  intros T L. replace m with (n + (m - n))%nat by lia.
  rewrite reads_add. apply reads_error, T.
Qed.

Lemma reads_end_in_error (n : nat) :
  forall r : BjReader,
    (Z.to_nat (rend r - rcur r) < n)%nat ->
    truthy (rerror (reads n r)) = true.
Proof.
  induction n as [|n IH]; intros r H; [lia|].
  pose proof (bjRead_facts r) as F.
  destruct (BjType_eqb (vtype (snd (bjRead r))) ERROR) eqn:E.
  - apply BjType_eqb_eq, (sf_error _ _ _ F) in E.
    simpl. rewrite (reads_error n _ E). exact E.
  - apply BjType_eqb_neq in E.
    destruct (sf_token _ _ _ F E) as (_ & A & B).
    simpl. apply IH. rewrite (sf_end _ _ _ F). lia.
Qed.

(** X8.  Scanning always ends in the error state: from any reader, after
    [end - cur + 1] scans the error is set (and stays, each later scan
    returning Error).  There is no value for the end of the document: the
    scan after the last token records an error. *)
Theorem X8_scanning_ends_in_error (r : BjReader) (n : nat) :
  (Z.to_nat (rend r - rcur r) < n)%nat ->
  truthy (rerror (reads n r)) = true
  /\ vtype (snd (bjRead (reads n r))) = ERROR.
Proof.
  intros H. pose proof (reads_end_in_error n r H) as T.
  split; [exact T|]. rewrite (bjRead_error _ T). reflexivity.
Qed.

Lemma X8_scanning_ends_in_error_witness :
  rerror (reads 4 (bjReader "[1]")) = Some "unexpected eof"
  /\ truthy (rerror (reads 4 (bjReader "[1]"))) = true
  /\ vtype (snd (bjRead (reads 4 (bjReader "[1]")))) = ERROR.
Proof.
  split; [reflexivity|].
  apply (X8_scanning_ends_in_error (bjReader "[1]") 4). simpl. lia.
Defined.

(** ** The text of a token *)

Lemma get_beyond (s : string) (n : nat) :
  (String.length s <= n)%nat -> String.get n s = None.
Proof.
  revert n; induction s as [|a s IH]; intros n H; [destruct n; reflexivity|].
  destruct n as [|n]; simpl in *; [lia|]. apply IH. lia.
Qed.

(** The text between two offsets, when it is known character by
    character. *)
Lemma substring_chars (data s : string) (j : Z) :
  0 <= j -> j + slen s <= slen data ->
  (forall k, 0 <= k < slen s -> char_at data (j + k) = char_at s k) ->
  substring data j (j + slen s) = s.
Proof.
  intros Hj Hl C. pose proof (slen_nonneg s) as Hs.
  rewrite substring_in_range by lia.
  replace (j + slen s - j) with (slen s) by lia.
  unfold slen at 1. rewrite Nat2Z.id.
  apply get_correct. intros p.
  destruct (Nat.lt_ge_cases p (String.length s)) as [L|G].
  - rewrite substring_correct1 by exact L.
    specialize (C (Z.of_nat p)). unfold slen, char_at in C.
    rewrite (proj2 (Z.ltb_ge _ 0)), (proj2 (Z.ltb_ge _ 0)) in C by lia.
    rewrite Nat2Z.id in C.
    replace (Z.to_nat (j + Z.of_nat p)) with (p + Z.to_nat j)%nat in C by lia.
    apply C. lia.
  - rewrite substring_correct2 by exact G. symmetry; apply get_beyond, G.
Qed.

Lemma isString_substring (data : string) (i end_ : Z) (a : ascii) (rest : string) :
  isString data i end_ (String a rest) = true ->
  substring data i (i + slen (String a rest)) = String a rest.
Proof.
  intros H. destruct (isString_within _ _ _ _ _ H) as [W1 W2].
  apply substring_chars; [exact W1 | exact W2 |].
  intros k Hk. unfold isString in H.
  pose proof (isString_from_chars _ _ _ _ 0 (Z.le_refl 0) H k Hk) as C.
  rewrite Z.add_0_r in C. exact C.
Qed.

(** X9.  The text of a Null value is [null]; the text of a Bool value is
    [true] or [false], and [bjGetBool] returns [true] on the first and
    [false] on the second.  (The kind is chosen by the first character, and
    the literal then has to match in full.) *)
Theorem X9_literal_values_have_their_text (r : BjReader) :
  let r' := fst (bjRead r) in
  let v := snd (bjRead r) in
  match vtype v with
  | NULL =>
      substring (rdata r') (vstart v) (vend v) = "null" /\ bjIsNull v = true
  | BOOL =>
      (substring (rdata r') (vstart v) (vend v) = "true"
       /\ bjGetBool r' v = Ok true)
      \/ (substring (rdata r') (vstart v) (vend v) = "false"
          /\ bjGetBool r' v = Ok false)
  | _ => bjIsNull v = false
  end.
Proof.
  cbv zeta.
  pose proof (tf_kind _ _ _ (bjRead_token_facts r)) as K.
  rewrite (sf_data _ _ _ (bjRead_facts r)).
  unfold kind_at, bjIsNull, bjGetBool in *.
  destruct (vtype (snd (bjRead r))) eqn:Ty; simpl; try reflexivity.
  - destruct K as [[S E] | [S E]]; rewrite E;
      [left | right]; apply isString_substring in S;
      rewrite !slen_String, slen_nil in S; simpl in S;
      rewrite (sf_data _ _ _ (bjRead_facts r)), S; split; reflexivity.
  - destruct K as [S E]. rewrite E. apply isString_substring in S.
    rewrite !slen_String, slen_nil in S. simpl in S. rewrite S.
    split; reflexivity.
Qed.

Lemma suffix_chars (data : string) (s rest : string) :
  forall i, suffix_at data i (s ++ rest) ->
            forall k, 0 <= k < slen s -> char_at data (i + k) = char_at s k.
Proof.
  induction s as [|a s IH]; intros i H k Hk.
  - rewrite slen_nil in Hk. lia.
  - simpl in H. apply suffix_cons in H. destruct H as (_ & C & H).
    rewrite slen_String in Hk.
    destruct (Z.eq_dec k 0) as [->|Ne]; [rewrite Z.add_0_r; exact C|].
    specialize (IH (i + 1) H (k - 1) ltac:(lia)).
    replace (i + 1 + (k - 1)) with (i + k) in IH by lia. rewrite IH.
    unfold char_at.
    rewrite (proj2 (Z.ltb_ge (k - 1) 0)), (proj2 (Z.ltb_ge k 0)) by lia.
    replace (Z.to_nat k) with (S (Z.to_nat (k - 1))) by lia. reflexivity.
Qed.

Lemma suffix_substring (data : string) (s rest : string) (i : Z) :
  suffix_at data i (s ++ rest) -> substring data i (i + slen s) = s.
Proof.
  intros H. pose proof (suffix_bound _ _ _ H) as B.
  pose proof (suffix_bound _ _ _ (suffix_app _ _ _ _ H)) as B'.
  apply substring_chars; [lia | lia | apply (suffix_chars _ _ _ _ H)].
Qed.

(** X10.  A JSON string standing at the cursor is scanned as one String
    value, and [bjGetString] returns what stands between its quotes,
    escapes untouched. *)
Theorem X10_string_round_trip (r : BjReader) (pre body post : string) :
  json_chars body ->
  rdata r = pre ++ String quote (body ++ String quote post) ->
  rcur r = slen pre -> rend r = slen (rdata r) ->
  truthy (rerror r) = false ->
  bjRead r = (set_cur r (slen pre + slen body + 2),
              mkValue STRING (slen pre + 1) (slen pre + 1 + slen body) (rdepth r))
  /\ bjGetString (fst (bjRead r)) (snd (bjRead r)) = Ok body.
Proof.
  intros J D Cu E T.
  pose proof (suffix_start pre (String quote (body ++ String quote post))) as Sf.
  rewrite <- D in Sf.
  apply suffix_cons in Sf. destruct Sf as (L & C & Sf).
  pose proof (chars_close body J _ _ _ Sf) as Cl.
  pose proof (suffix_substring _ _ _ _ Sf) as Sub.
  rewrite <- E in Cl, L. rewrite <- Cu in Cl, L, C.
  assert (Q : is_chr (char_at (rdata r) (rcur r)) quote = true)
    by (rewrite C; reflexivity).
  assert (R : bjRead r = (set_cur r (slen pre + slen body + 2),
              mkValue STRING (slen pre + 1) (slen pre + 1 + slen body) (rdepth r))).
  { rewrite (bjRead_string r T L Q).
    apply string_scan_closes in Cl. rewrite Cl, Cu.
    do 2 f_equal. lia. }
  split; [exact R|]. rewrite R. unfold bjGetString. simpl. rewrite Sub.
  reflexivity.
Qed.

Lemma X10_string_round_trip_witness :
  let r := set_cur (bjReader (json "['a\nb', 1]")) 1 in
  bjRead r = (set_cur r 7, mkValue STRING 2 6 0)
  /\ bjGetString (fst (bjRead r)) (snd (bjRead r)) = Ok "a\nb".
Proof.
  apply (X10_string_round_trip
           (set_cur (bjReader (json "['a\nb', 1]")) 1) "[" "a\nb" ", 1]");
    try reflexivity.
  apply chars_plain; try reflexivity.
  apply chars_escape; [reflexivity|].
  apply chars_plain; try reflexivity. apply chars_nil.
Defined.

(** X11.  A JSON number standing at the cursor and followed by the end of
    the text or by a character that continues no number is scanned as one
    Number value whose span is exactly its text. *)
Theorem X11_number_round_trip (r : BjReader) (pre s post : string) :
  json_number s -> follows post ->
  rdata r = pre ++ s ++ post ->
  rcur r = slen pre -> rend r = slen (rdata r) ->
  truthy (rerror r) = false ->
  bjRead r = (set_cur r (slen pre + slen s),
              mkValue NUMBER (slen pre) (slen pre + slen s) (rdepth r))
  /\ substring (rdata r) (slen pre) (slen pre + slen s) = s
  /\ bjGetNumber (fst (bjRead r)) (snd (bjRead r)) = Ok (parseFloat s).
Proof.
  intros N F D Cu E T.
  pose proof (suffix_start pre (s ++ post)) as Sf. rewrite <- D in Sf.
  pose proof (suffix_substring _ _ _ _ Sf) as Sub.
  assert (K : slen pre < slen pre + slen s <= slen (rdata r)
              /\ is_number_start (char_at (rdata r) (slen pre)) = true
              /\ number_scan (rdata r) (slen (rdata r)) (slen pre)
                 = slen pre + slen s).
  { destruct (json_number_shape s N) as ((a & t & Es & St) & A).
    pose proof (suffix_bound _ _ _ (suffix_app _ _ _ _ Sf)) as B.
    assert (L : slen pre < slen pre + slen s)
      by (subst s; rewrite slen_String; pose proof (slen_nonneg t); lia).
    assert (St' : is_number_start (char_at (rdata r) (slen pre)) = true).
    { pose proof Sf as Sf'. rewrite Es in Sf'. simpl in Sf'.
      apply suffix_cons in Sf'. destruct Sf' as (_ & C & _).
      rewrite C. exact St. }
    split; [lia|]. split; [exact St'|].
    apply number_scan_unique; [lia | exact St' | |].
    - intros k Hk.
      apply (suffix_all_chars is_number_char isNumberCont _ s post (slen pre));
        auto.
    - pose proof (suffix_app _ _ _ _ Sf) as Sr. destruct post as [|c post].
      + left. apply suffix_nil, Sr.
      + right. apply suffix_cons in Sr. destruct Sr as (_ & C & _).
        rewrite C. exact F. }
  destruct K as (L & St & Sc').
  assert (R : bjRead r = (set_cur r (slen pre + slen s),
              mkValue NUMBER (slen pre) (slen pre + slen s) (rdepth r))).
  { assert (L' : rcur r < rend r) by (rewrite E, Cu; lia).
    assert (St2 : is_number_start (char_at (rdata r) (rcur r)) = true)
      by (rewrite Cu; exact St).
    rewrite (bjRead_number r T L' St2), E, Cu, Sc'. reflexivity. }
  split; [exact R|]. split; [exact Sub|].
  rewrite R. unfold bjGetNumber. simpl. rewrite Sub. reflexivity.
Qed.

Lemma X11_number_round_trip_witness :
  let r := set_cur (bjReader "[-1.5e3]") 1 in
  bjRead r = (set_cur r 7, mkValue NUMBER 1 7 0)
  /\ substring (rdata r) 1 7 = "-1.5e3"
  /\ bjGetNumber (fst (bjRead r)) (snd (bjRead r)) = Ok (parseFloat "-1.5e3").
Proof.
  apply (X11_number_round_trip (set_cur (bjReader "[-1.5e3]") 1) "[" "-1.5e3" "]");
    try reflexivity.
  exists "-", "1", ".5", "e3". repeat split.
  - right; reflexivity.
  - right. exists "1"%char, EmptyString. repeat split.
  - right. exists "5". repeat split. discriminate.
  - right. exists "e"%char, EmptyString, "3". repeat split; auto. discriminate.
Defined.

(** ** The iterators run to their end *)

(** A step of the array iterator that hands out a value. *)
Lemma bjIterArray_yield (r r' : BjReader) (c v : BjValue) :
  bjIterArray r c = (r', mkIter false (Some v)) ->
  cursor_forward r r' /\ rcur r < rcur r' /\ rcur r < rend r
  /\ truthy (rerror r') = false /\ rdepth r' = vdepth v
  /\ vend v <= rcur r' /\ yielded r c v.
Proof.
  unfold bjIterArray.
  pose proof (bjDiscardUntil_forward r (vdepth c)) as F.
  pose proof (bjDiscardUntil_stops r (vdepth c)) as St.
  set (r1 := bjDiscardUntil r (vdepth c)) in *.
  pose proof (bjRead_facts r1) as Sf. pose proof (bjRead_token_facts r1) as Tf.
  destruct (bjRead r1) as [r2 val] eqn:R. simpl in Sf, Tf.
  destruct (BjType_eqb (vtype val) ERROR) eqn:E1; [discriminate|].
  destruct (BjType_eqb (vtype val) END) eqn:E2; [discriminate|].
  simpl. intros H; inversion H; subst r2 val; clear H.
  apply BjType_eqb_neq in E1, E2.
  destruct (sf_token _ _ _ Sf E1) as (Er & Lt & Le).
  destruct (tf_span _ _ _ Tf E1) as (S1 & S2 & S3 & _).
  pose proof (sf_cur_le _ _ _ Sf) as Cl.
  pose proof (sf_data _ _ _ Sf) as Da. pose proof (sf_end _ _ _ Sf) as En.
  pose proof (sf_depth _ _ _ Sf) as Dp.
  destruct F as (Fd & Fe & Fc).
  assert (Ne : truthy (rerror r') = false).
  { destruct (truthy (rerror r')) eqn:T; [|reflexivity].
    apply (sf_error _ _ _ Sf) in T. contradiction. }
  assert (D1 : rdepth r1 = vdepth c).
  { destruct St as [D|T]; [exact D|].
    rewrite (bjRead_error r1 T) in R. inversion R; subst.
    exfalso; apply E1; reflexivity. }
  unfold cursor_forward, yielded.
  assert (Ve : vend v <= rcur r')
    by (destruct (BjType_eqb (vtype v) STRING); lia).
  repeat split; try congruence; try lia.
  - unfold depth_step in Dp. destruct (vtype v); try tauto; lia.
  - unfold depth_step in Dp.
    destruct (vtype v); simpl; try tauto; try lia.
Qed.

Lemma BjArrayIterator_loop_more (fuel fuel' : nat) (r : BjReader) (a : BjValue)
      (res : BjReader * list BjValue) :
  BjArrayIterator_loop fuel r a = Some res -> (fuel <= fuel')%nat ->
  BjArrayIterator_loop fuel' r a = Some res.
Proof.
  revert fuel' r res; induction fuel as [|fuel IH]; intros fuel' r res H L.
  - destruct fuel'; simpl in *; [exact H|].
    destruct (bjIterArray r a) as [r' [[|] [v|]]]; try exact H; discriminate.
  - destruct fuel' as [|fuel']; [lia|]. simpl in *.
    destruct (bjIterArray r a) as [r' [[|] [v|]]]; try exact H.
    destruct (BjArrayIterator_loop fuel r' a) as [[r'' vs]|] eqn:E;
      [|discriminate].
    rewrite (IH fuel' r' _ E) by lia. exact H.
Qed.

Lemma BjArrayIterator_loop_Some (fuel : nat) (r : BjReader) (a : BjValue) :
  (Z.to_nat (rend r - rcur r) <= fuel)%nat ->
  exists res, BjArrayIterator_loop fuel r a = Some res.
Proof.
  revert r; induction fuel as [|fuel IH]; intros r L.
  - simpl. destruct (bjIterArray r a) as [r' [[|] [v|]]] eqn:I; simpl; eauto.
    apply bjIterArray_yield in I. lia.
  - simpl. destruct (bjIterArray r a) as [r' [[|] [v|]]] eqn:I; simpl; eauto.
    apply bjIterArray_yield in I.
    destruct I as ((_ & Fe & _) & Lt & _).
    destruct (IH r') as [[r'' vs] E]; [lia|]. rewrite E. eauto.
Qed.

Lemma BjArrayIterator_loop_enough (fuel : nat) (r : BjReader) (a : BjValue) :
  (Z.to_nat (rend r - rcur r) <= fuel)%nat ->
  BjArrayIterator_loop fuel r a
  = Some (BjArrayIterator_values (mkArrayIterator r a)).
Proof.
  intros L.
  destruct (BjArrayIterator_loop_Some _ r a (Nat.le_refl _)) as [res E].
  unfold BjArrayIterator_values. cbn [ai_reader ai_array]. rewrite E.
  exact (BjArrayIterator_loop_more _ _ _ _ _ E L).
Qed.

(** The equation of the generator: a step of [bjIterArray], its value if
    it has one, and the rest of the run. *)
Lemma BjArrayIterator_values_unfold (r : BjReader) (a : BjValue) :
  BjArrayIterator_values (mkArrayIterator r a) =
  let (r', result) := bjIterArray r a in
  match done result, value result with
  | false, Some v =>
      let (r'', vs) := BjArrayIterator_values (mkArrayIterator r' a) in
      (r'', v :: vs)
  | _, _ => (r', [])
  end.
Proof.
  pose proof (BjArrayIterator_loop_enough
                (S (Z.to_nat (rend r - rcur r))) r a ltac:(lia)) as E.
  simpl in E.
  destruct (bjIterArray r a) as [r' [[|] [v|]]] eqn:I; simpl;
    try (inversion E; reflexivity).
  apply bjIterArray_yield in I. destruct I as ((_ & Fe & _) & Lt & _).
  rewrite (BjArrayIterator_loop_enough _ r' a) in E by lia.
  destruct (BjArrayIterator_values (mkArrayIterator r' a)) as [r'' vs].
  inversion E; reflexivity.
Qed.

(** A step of the object iterator that hands out a pair. *)
Lemma bjIterObject_yield (r r' : BjReader) (c k v : BjValue) :
  bjIterObject r c = (r', mkObjIter false (Some k) (Some v)) ->
  cursor_forward r r' /\ rcur r < rcur r' /\ rcur r < rend r
  /\ truthy (rerror r') = false /\ rdepth r' = vdepth v
  /\ yielded r c k
  /\ vtype v <> ERROR /\ vtype v <> END
  /\ vend k <= vstart v <= vend v /\ vend v <= rcur r'.
Proof.
  unfold bjIterObject.
  pose proof (bjDiscardUntil_forward r (vdepth c)) as F.
  pose proof (bjDiscardUntil_stops r (vdepth c)) as St.
  set (r1 := bjDiscardUntil r (vdepth c)) in *.
  pose proof (bjRead_facts r1) as Sf. pose proof (bjRead_token_facts r1) as Tf.
  destruct (bjRead r1) as [r2 key] eqn:R. simpl in Sf, Tf.
  destruct (BjType_eqb (vtype key) ERROR) eqn:E1; [discriminate|].
  destruct (BjType_eqb (vtype key) END) eqn:E2; [discriminate|].
  simpl.
  pose proof (bjRead_facts r2) as Sf2.
  pose proof (bjRead_token_facts r2) as Tf2.
  destruct (bjRead r2) as [r3 val] eqn:R2. simpl in Sf2, Tf2.
  destruct (BjType_eqb (vtype val) END) eqn:E3; [discriminate|].
  destruct (BjType_eqb (vtype val) ERROR) eqn:E4; [discriminate|].
  intros H; inversion H; subst r3 key val; clear H.
  apply BjType_eqb_neq in E1, E2, E3, E4.
  destruct (sf_token _ _ _ Sf E1) as (Er & Lt & Le).
  destruct (tf_span _ _ _ Tf E1) as (S1 & S2 & S3 & _).
  destruct (sf_token _ _ _ Sf2 E4) as (Er2 & Lt2 & Le2).
  destruct (tf_span _ _ _ Tf2 E4) as (T1 & T2 & T3 & _).
  pose proof (sf_cur_le _ _ _ Sf) as Cl. pose proof (sf_cur_le _ _ _ Sf2) as Cl2.
  pose proof (sf_data _ _ _ Sf) as Da. pose proof (sf_end _ _ _ Sf) as En.
  pose proof (sf_data _ _ _ Sf2) as Da2. pose proof (sf_end _ _ _ Sf2) as En2.
  pose proof (sf_depth _ _ _ Sf) as Dp. pose proof (sf_depth _ _ _ Sf2) as Dp2.
  destruct F as (Fd & Fe & Fc).
  assert (Ne : truthy (rerror r') = false).
  { destruct (truthy (rerror r')) eqn:T; [|reflexivity].
    apply (sf_error _ _ _ Sf2) in T. contradiction. }
  assert (D1 : rdepth r1 = vdepth c).
  { destruct St as [D|T]; [exact D|].
    rewrite (bjRead_error r1 T) in R. inversion R; subst.
    exfalso; apply E1; reflexivity. }
  unfold cursor_forward, yielded.
  assert (Ke : vend k <= rcur r2)
    by (destruct (BjType_eqb (vtype k) STRING); lia).
  assert (Ve : vend v <= rcur r')
    by (destruct (BjType_eqb (vtype v) STRING); lia).
  repeat split; try congruence; try lia.
  - unfold depth_step in Dp2. destruct (vtype v); try tauto; lia.
  - unfold depth_step in Dp.
    destruct (vtype k); simpl; try tauto; try lia.
Qed.

Lemma BjObjectIterator_loop_more (fuel fuel' : nat) (r : BjReader) (o : BjValue)
      (res : BjReader * list (BjValue * BjValue)) :
  BjObjectIterator_loop fuel r o = Some res -> (fuel <= fuel')%nat ->
  BjObjectIterator_loop fuel' r o = Some res.
Proof.
  revert fuel' r res; induction fuel as [|fuel IH]; intros fuel' r res H L.
  - destruct fuel'; simpl in *; [exact H|].
    destruct (bjIterObject r o) as [r' [[|] [k|] [v|]]]; try exact H;
      discriminate.
  - destruct fuel' as [|fuel']; [lia|]. simpl in *.
    destruct (bjIterObject r o) as [r' [[|] [k|] [v|]]]; try exact H.
    destruct (BjObjectIterator_loop fuel r' o) as [[r'' vs]|] eqn:E;
      [|discriminate].
    rewrite (IH fuel' r' _ E) by lia. exact H.
Qed.

Lemma BjObjectIterator_loop_Some (fuel : nat) (r : BjReader) (o : BjValue) :
  (Z.to_nat (rend r - rcur r) <= fuel)%nat ->
  exists res, BjObjectIterator_loop fuel r o = Some res.
Proof.
  revert r; induction fuel as [|fuel IH]; intros r L.
  - simpl. destruct (bjIterObject r o) as [r' [[|] [k|] [v|]]] eqn:I; simpl;
      eauto.
    apply bjIterObject_yield in I. lia.
  - simpl. destruct (bjIterObject r o) as [r' [[|] [k|] [v|]]] eqn:I; simpl;
      eauto.
    apply bjIterObject_yield in I.
    destruct I as ((_ & Fe & _) & Lt & _).
    destruct (IH r') as [[r'' vs] E]; [lia|]. rewrite E. eauto.
Qed.

Lemma BjObjectIterator_loop_enough (fuel : nat) (r : BjReader) (o : BjValue) :
  (Z.to_nat (rend r - rcur r) <= fuel)%nat ->
  BjObjectIterator_loop fuel r o
  = Some (BjObjectIterator_entries (mkObjectIterator r o)).
Proof.
  intros L.
  destruct (BjObjectIterator_loop_Some _ r o (Nat.le_refl _)) as [res E].
  unfold BjObjectIterator_entries. cbn [oi_reader oi_object]. rewrite E.
  exact (BjObjectIterator_loop_more _ _ _ _ _ E L).
Qed.

Lemma BjObjectIterator_entries_unfold (r : BjReader) (o : BjValue) :
  BjObjectIterator_entries (mkObjectIterator r o) =
  let (r', result) := bjIterObject r o in
  match odone result, okey result, ovalue result with
  | false, Some k, Some v =>
      let (r'', kvs) := BjObjectIterator_entries (mkObjectIterator r' o) in
      (r'', (k, v) :: kvs)
  | _, _, _ => (r', [])
  end.
Proof.
  pose proof (BjObjectIterator_loop_enough
                (S (Z.to_nat (rend r - rcur r))) r o ltac:(lia)) as E.
  simpl in E.
  destruct (bjIterObject r o) as [r' [[|] [k|] [v|]]] eqn:I; simpl;
    try (inversion E; reflexivity).
  apply bjIterObject_yield in I. destruct I as ((_ & Fe & _) & Lt & _).
  rewrite (BjObjectIterator_loop_enough _ r' o) in E by lia.
  destruct (BjObjectIterator_entries (mkObjectIterator r' o)) as [r'' vs].
  inversion E; reflexivity.
Qed.

Lemma BjArrayIterator_values_step (r1 r2 : BjReader) (a : BjValue) :
  bjIterArray r1 a = bjIterArray r2 a ->
  BjArrayIterator_values (mkArrayIterator r1 a)
  = BjArrayIterator_values (mkArrayIterator r2 a).
Proof.
  intros H.
  rewrite (BjArrayIterator_values_unfold r1), (BjArrayIterator_values_unfold r2), H.
  reflexivity.
Qed.

Lemma BjObjectIterator_entries_step (r1 r2 : BjReader) (o : BjValue) :
  bjIterObject r1 o = bjIterObject r2 o ->
  BjObjectIterator_entries (mkObjectIterator r1 o)
  = BjObjectIterator_entries (mkObjectIterator r2 o).
Proof.
  intros H.
  rewrite (BjObjectIterator_entries_unfold r1),
    (BjObjectIterator_entries_unfold r2), H.
  reflexivity.
Qed.

(** ** The items of a container *)

Lemma number_start_not_quote (c : option ascii) :
  is_number_start c = true -> is_chr c quote = false.
Proof.
  destruct c as [a|]; [|discriminate].
  destruct a as [[] [] [] [] [] [] [] []]; vm_compute; congruence.
Qed.

Lemma scalar_value_kind (data : string) (d i j : Z) :
  let t := vtype (scalar_value data d i j) in
  t <> ERROR /\ t <> END /\ t <> ARRAY /\ t <> OBJECT.
Proof.
  unfold scalar_value.
  destruct (is_chr (char_at data i) quote); simpl;
    [repeat split; discriminate|].
  destruct (is_number_start (char_at data i)); simpl;
    [repeat split; discriminate|].
  destruct (is_chr (char_at data i) "n"); simpl; repeat split; discriminate.
Qed.

(** The scanner on a scalar. *)
Lemma bjRead_scalar_value (data : string) (end_ i j : Z) (r : BjReader) :
  scalar_at data end_ i j ->
  rdata r = data -> rend r = end_ -> rcur r = i ->
  truthy (rerror r) = false ->
  bjRead r = (set_cur r j, scalar_value data (rdepth r) i j).
Proof.
  intros Sc D E C T. revert C. unfold scalar_value.
  destruct Sc as [i S | i S | i S | i j B N Run Stop | i q L Q Cl];
    intros C; subst data end_ i.
  - rewrite (bjRead_null r T S).
    destruct (isString_first _ _ _ _ _ S) as [_ Ch]. rewrite Ch. reflexivity.
  - rewrite (bjRead_true r T S).
    destruct (isString_first _ _ _ _ _ S) as [_ Ch]. rewrite Ch. reflexivity.
  - rewrite (bjRead_false r T S).
    destruct (isString_first _ _ _ _ _ S) as [_ Ch]. rewrite Ch. reflexivity.
  - rewrite (bjRead_number r T) by (try lia; exact N).
    rewrite (number_scan_unique _ _ _ _ B N Run Stop).
    rewrite (number_start_not_quote _ N), N. reflexivity.
  - rewrite (bjRead_string r T L Q).
    apply string_scan_closes in Cl. rewrite Cl, Q.
    replace (q + 1 - 1) with q by lia. reflexivity.
Qed.

(** The scanner on an item: it returns the value of the item, and the next
    step of an iterator of the enclosing container goes on from behind the
    item, whether the item was a scalar or a container left unread. *)
Lemma item_scanned (data : string) (end_ d i j : Z) (v : BjValue) (r : BjReader) :
  item_at data end_ d i j v ->
  rdata r = data -> rend r = end_ -> rcur r = i -> rdepth r = d ->
  truthy (rerror r) = false -> 0 <= d ->
  snd (bjRead r) = v
  /\ vtype v <> ERROR /\ vtype v <> END
  /\ forall c, vdepth c = d ->
       bjIterArray (fst (bjRead r)) c = bjIterArray (set_cur r j) c
       /\ bjIterObject (fst (bjRead r)) c = bjIterObject (set_cur r j) c.
Proof.
  intros I D E C Dp T D0.
  destruct I as [i j Sc | i j n L Op Co Lj Clo].
  - rewrite (bjRead_scalar_value _ _ _ _ r Sc D E C T), Dp. simpl.
    destruct (scalar_value_kind data d i j) as (K1 & K2 & _).
    repeat split; auto.
  - subst data end_ i d.
    rewrite (bjRead_open r T L Op). simpl.
    split; [reflexivity|].
    split; [destruct (is_chr _ _); discriminate|].
    split; [destruct (is_chr _ _); discriminate|].
    intros c Hc.
    set (r1 := set_cur (set_depth r (rdepth r + 1)) (rcur r + 1)).
    destruct (abandoned_content r1 c j n 0) as (_ & _ & A & O);
      try (subst r1; destruct r; simpl in *; auto; lia).
    simpl in A, O. rewrite A, O.
    replace (set_cur (set_depth r1 (vdepth c)) (j + 1)) with (set_cur r (j + 1))
      by (subst r1; destruct r; simpl in *; subst; reflexivity).
    split; reflexivity.
Qed.

(** The array iterator run over the items of its array. *)
Lemma array_items (data : string) (end_ : Z) (a : BjValue) (i j : Z)
      (vs : list BjValue) :
  items_at data end_ (vdepth a) i j vs ->
  1 <= vdepth a -> j < end_ -> is_close (char_at data j) = true ->
  forall r : BjReader,
    rdata r = data -> rend r = end_ -> rcur r = i -> rdepth r = vdepth a ->
    truthy (rerror r) = false ->
    BjArrayIterator_values (mkArrayIterator r a)
    = (set_cur (set_depth r (vdepth a - 1)) (j + 1), vs).
Proof.
  intros It D1 Lj Clo.
  induction It as [i Le | i j vs L Sk It IH | i j k v vs I It IH];
    intros r D E C Dp T.
  - rewrite BjArrayIterator_values_unfold. unfold bjIterArray.
    rewrite (bjDiscardUntil_at_depth r _ Dp).
    subst data end_ i.
    rewrite (bjRead_close r T Lj Clo) by lia. simpl. rewrite Dp. reflexivity.
  - assert (St : bjIterArray r a = bjIterArray (set_cur r (i + 1)) a).
    { unfold bjIterArray.
      rewrite (bjDiscardUntil_at_depth r _ Dp).
      rewrite (bjDiscardUntil_at_depth (set_cur r (i + 1)) _)
        by (destruct r; exact Dp).
      subst data end_ i. rewrite (bjRead_skip r T L Sk). reflexivity. }
    rewrite (BjArrayIterator_values_step _ _ _ St).
    rewrite (IH Lj Clo (set_cur r (i + 1))); destruct r; simpl in *; auto.
  - destruct (item_scanned _ _ _ _ _ _ r I D E C Dp T ltac:(lia))
      as (V & K1 & K2 & Nx).
    destruct (Nx a eq_refl) as [Na _].
    rewrite BjArrayIterator_values_unfold. unfold bjIterArray.
    rewrite (bjDiscardUntil_at_depth r _ Dp).
    destruct (bjRead r) as [r' v'] eqn:R. simpl in V, Na. subst v'.
    apply BjType_eqb_neq in K1, K2. rewrite K1, K2. simpl.
    rewrite (BjArrayIterator_values_step _ _ _ Na).
    rewrite (IH Lj Clo (set_cur r j)); destruct r; simpl in *; auto.
Qed.

(** The object iterator run over the members of its object. *)
Lemma object_entries (data : string) (end_ : Z) (o : BjValue) (i j : Z)
      (es : list (BjValue * BjValue)) :
  entries_at data end_ (vdepth o) i j es ->
  1 <= vdepth o -> j < end_ -> is_close (char_at data j) = true ->
  forall r : BjReader,
    rdata r = data -> rend r = end_ -> rcur r = i -> rdepth r = vdepth o ->
    truthy (rerror r) = false ->
    BjObjectIterator_entries (mkObjectIterator r o)
    = (set_cur (set_depth r (vdepth o - 1)) (j + 1), es).
Proof.
  intros It D1 Lj Clo.
  induction It as [i Le | i j es L Sk It IH
                   | i j j' k l v es Sc B Sk I It IH];
    intros r D E C Dp T.
  - rewrite BjObjectIterator_entries_unfold. unfold bjIterObject.
    rewrite (bjDiscardUntil_at_depth r _ Dp).
    subst data end_ i.
    rewrite (bjRead_close r T Lj Clo) by lia. simpl. rewrite Dp. reflexivity.
  - assert (St : bjIterObject r o = bjIterObject (set_cur r (i + 1)) o).
    { unfold bjIterObject.
      rewrite (bjDiscardUntil_at_depth r _ Dp).
      rewrite (bjDiscardUntil_at_depth (set_cur r (i + 1)) _)
        by (destruct r; exact Dp).
      subst data end_ i. rewrite (bjRead_skip r T L Sk). reflexivity. }
    rewrite (BjObjectIterator_entries_step _ _ _ St).
    rewrite (IH Lj Clo (set_cur r (i + 1))); destruct r; simpl in *; auto.
  - set (r' := set_cur r j').
    assert (R2 : bjRead (set_cur r j) = bjRead r').
    { rewrite (bjRead_skips (set_cur r j) j').
      - subst r'; destruct r; reflexivity.
      - destruct r; exact T.
      - destruct r; simpl in *; subst; lia.
      - destruct r; simpl in *; subst; exact Sk. }
    destruct (item_scanned data end_ (vdepth o) j' k v r' I)
      as (V & K1 & K2 & Nx);
      try (subst r'; destruct r; simpl in *; auto; lia).
    destruct (Nx o eq_refl) as [_ No].
    destruct (scalar_value_kind data (vdepth o) i j) as (Q1 & Q2 & _).
    rewrite BjObjectIterator_entries_unfold. unfold bjIterObject.
    rewrite (bjDiscardUntil_at_depth r _ Dp).
    rewrite (bjRead_scalar_value _ _ _ _ r Sc D E C T), Dp, R2.
    apply BjType_eqb_neq in Q1, Q2. rewrite Q1, Q2. simpl.
    destruct (bjRead r') as [r3 v'] eqn:R. simpl in V, No. subst v'.
    apply BjType_eqb_neq in K1, K2. rewrite K1, K2. simpl.
    rewrite (BjObjectIterator_entries_step _ _ _ No).
    rewrite (IH Lj Clo (set_cur r' k));
      subst r'; destruct r; simpl in *; auto.
Qed.

(** X12.  The array iterator run to its end, from a reader that stands in
    an array before a run of items closed by a bracket: it hands out the
    values of exactly these items, in order (for a nested container its
    opening bracket, the content being passed over unread), and leaves the
    reader behind the closing bracket, one level up and without error. *)
Theorem X12_array_iterator_yields_the_items
        (r : BjReader) (a : BjValue) (it : BjArrayIterator) (j : Z)
        (vs : list BjValue) :
  new_BjArrayIterator r a = Ok it ->
  truthy (rerror r) = false -> rdepth r = vdepth a -> 1 <= vdepth a ->
  items_at (rdata r) (rend r) (vdepth a) (rcur r) j vs ->
  j < rend r -> is_close (char_at (rdata r) j) = true ->
  BjArrayIterator_values it
  = (set_cur (set_depth r (vdepth a - 1)) (j + 1), vs).
Proof.
  intros N T Dp D1 It Lj Clo. unfold new_BjArrayIterator in N.
  destruct (negb (BjType_eqb (vtype a) ARRAY)); [discriminate|].
  inversion N; subst it.
  apply (array_items (rdata r) (rend r) a (rcur r) j vs); auto.
Qed.

(** X13.  The object iterator run to its end, from a reader that stands in
    an object before a run of members closed by a bracket: it hands out
    exactly the pairs of these members, in order, the key slot holding any
    scalar, and leaves the reader behind the closing bracket, one level up
    and without error. *)
Theorem X13_object_iterator_yields_the_members
        (r : BjReader) (o : BjValue) (it : BjObjectIterator) (j : Z)
        (es : list (BjValue * BjValue)) :
  new_BjObjectIterator r o = Ok it ->
  truthy (rerror r) = false -> rdepth r = vdepth o -> 1 <= vdepth o ->
  entries_at (rdata r) (rend r) (vdepth o) (rcur r) j es ->
  j < rend r -> is_close (char_at (rdata r) j) = true ->
  BjObjectIterator_entries it
  = (set_cur (set_depth r (vdepth o - 1)) (j + 1), es).
Proof.
  intros N T Dp D1 It Lj Clo. unfold new_BjObjectIterator in N.
  destruct (negb (BjType_eqb (vtype o) OBJECT)); [discriminate|].
  inversion N; subst it.
  apply (object_entries (rdata r) (rend r) o (rcur r) j es); auto.
Qed.

(** ** From the text to its items *)

Lemma close_follows (c : ascii) (rest : string) :
  is_close (Some c) = true -> follows (String c rest).
Proof.
  destruct c as [[] [] [] [] [] [] [] []]; vm_compute; congruence.
Qed.

(** A run of number characters that starts as a number does and is
    followed by nothing that continues it is one Number item. *)
Lemma number_chars_item (data : string) (a : ascii) (t rest : string) (d i : Z) :
  is_number_start (Some a) = true ->
  all_chars is_number_char (String a t) = true ->
  suffix_at data i (String a t ++ rest) -> follows rest ->
  item_at data (slen data) d i (i + slen (String a t))
          (mkValue NUMBER i (i + slen (String a t)) d)
  /\ substring data i (i + slen (String a t)) = String a t.
Proof.
  intros St A Sf F.
  pose proof (suffix_bound _ _ _ (suffix_app _ _ _ _ Sf)) as B.
  pose proof (suffix_substring _ _ _ _ Sf) as Sub.
  assert (St' : is_number_start (char_at data i) = true).
  { pose proof Sf as Sf'. simpl in Sf'.
    apply suffix_cons in Sf'. destruct Sf' as (_ & C & _).
    rewrite C. exact St. }
  split; [|exact Sub].
  replace (mkValue NUMBER i (i + slen (String a t)) d)
    with (scalar_value data d i (i + slen (String a t)))
    by (unfold scalar_value;
        rewrite (number_start_not_quote _ St'), St'; reflexivity).
  apply item_scalar, scalar_number.
  - rewrite slen_String in *. pose proof (slen_nonneg t). lia.
  - exact St'.
  - intros k Hk.
    apply (suffix_all_chars is_number_char isNumberCont data
                            (String a t) rest i); auto.
  - pose proof (suffix_app _ _ _ _ Sf) as Sr. destruct rest as [|c rest].
    + left. apply suffix_nil, Sr.
    + right. apply suffix_cons in Sr. destruct Sr as (_ & C & _).
      rewrite C. exact F.
Qed.

Lemma digit_is_number_start (a : ascii) :
  is_digit_char a = true -> is_number_start (Some a) = true.
Proof.
  destruct a as [[] [] [] [] [] [] [] []]; vm_compute; congruence.
Qed.

Lemma digits_item (data : string) (x rest : string) (d i : Z) :
  json_digits x -> suffix_at data i (x ++ rest) -> follows rest ->
  item_at data (slen data) d i (i + slen x) (mkValue NUMBER i (i + slen x) d)
  /\ substring data i (i + slen x) = x.
Proof.
  intros [Ne A] Sf F. destruct x as [|a t]; [contradiction Ne; reflexivity|].
  apply number_chars_item with (rest := rest); auto.
  - simpl in A. apply andb_prop in A. apply digit_is_number_start, A.
  - apply (all_chars_impl is_digit_char); [apply digit_is_number_char | exact A].
Qed.

(** A JSON string is one String item, whose span is its body. *)
Lemma string_scalar (data : string) (body rest : string) (d i : Z) :
  json_chars body ->
  suffix_at data i (String quote (body ++ String quote rest)) ->
  scalar_at data (slen data) i (i + slen body + 2)
  /\ scalar_value data d i (i + slen body + 2)
     = mkValue STRING (i + 1) (i + 1 + slen body) d
  /\ substring data (i + 1) (i + 1 + slen body) = body.
Proof.
  intros J Sf. apply suffix_cons in Sf. destruct Sf as (L & C & Sf).
  pose proof (chars_close body J _ _ _ Sf) as Cl.
  pose proof (suffix_substring _ _ _ _ Sf) as Sub.
  assert (Q : is_chr (char_at data i) quote = true) by (rewrite C; reflexivity).
  split; [|split; [|exact Sub]].
  - replace (i + slen body + 2) with (i + 1 + slen body + 1) by lia.
    apply scalar_string; assumption.
  - unfold scalar_value. rewrite Q. f_equal. lia.
Qed.

Lemma concat_cons2 (sep x y : string) (l : list string) :
  String.concat sep (x :: y :: l) = x ++ sep ++ String.concat sep (y :: l).
Proof. reflexivity. Qed.

(** Numbers separated by a comma and a space, up to a closing bracket:
    one Number item each, whose text is the number. *)
Lemma numbers_items (l : list string) (d : Z) :
  Forall json_digits l ->
  forall (data : string) (i : Z) (c : ascii) (rest : string),
    is_close (Some c) = true ->
    suffix_at data i (String.concat ", " l ++ String c rest) ->
    exists vs,
      items_at data (slen data) d i (i + slen (String.concat ", " l)) vs
      /\ map (shape data) vs = map (pair NUMBER) l.
Proof.
  induction l as [|x l IH]; intros F data i c rest Cl Sf.
  - exists []. split; [|reflexivity]. simpl. rewrite slen_nil, Z.add_0_r.
    apply items_nil. apply (suffix_bound _ _ _ Sf).
  - inversion F as [|x' l' Dx Fl]; subst x' l'.
    destruct l as [|y l].
    + simpl in Sf |- *.
      destruct (digits_item data x (String c rest) d i Dx Sf
                            (close_follows c rest Cl)) as [I Sub].
      exists [mkValue NUMBER i (i + slen x) d]. split.
      * eapply items_cons; [exact I|]. apply items_nil.
        apply (suffix_bound _ _ _ (suffix_app _ _ _ _ Sf)).
      * unfold shape. simpl. rewrite Sub. reflexivity.
    + rewrite concat_cons2 in Sf |- *.
      rewrite !append_assoc in Sf.
      destruct (digits_item data x _ d i Dx Sf) as [I Sub]; [reflexivity|].
      pose proof (suffix_app _ _ _ _ Sf) as S1. simpl in S1.
      apply suffix_cons in S1. destruct S1 as (L1 & C1 & S1).
      apply suffix_cons in S1. destruct S1 as (L2 & C2 & S1).
      destruct (IH Fl data _ c rest Cl S1) as (vs & It & M).
      exists (mkValue NUMBER i (i + slen x) d :: vs). split.
      * eapply items_cons; [exact I|].
        apply items_skip; [exact L1 | rewrite C1; reflexivity|].
        apply items_skip; [exact L2 | rewrite C2; reflexivity|].
        replace (i + slen (x ++ ", " ++ String.concat ", " (y :: l)))
          with (i + slen x + 1 + 1 + slen (String.concat ", " (y :: l)))
          by (rewrite !slen_append, !slen_String, slen_nil; lia).
        exact It.
      * simpl map. rewrite M. unfold shape at 1. simpl. rewrite Sub.
        reflexivity.
Qed.

Lemma digit_is_plain (a : ascii) :
  is_digit_char a = true ->
  Ascii.eqb a quote = false /\ Ascii.eqb a backslash = false
  /\ (32 <=? N_of_ascii a)%N = true.
Proof.
  destruct a as [[] [] [] [] [] [] [] []]; vm_compute; intuition congruence.
Qed.

Lemma digits_chars (s : string) :
  all_chars is_digit_char s = true -> json_chars s.
Proof.
  induction s as [|a s IH]; intros A; [apply chars_nil|].
  simpl in A. apply andb_prop in A. destruct A as [Aa As].
  destruct (digit_is_plain a Aa) as (Q & B & P).
  apply chars_plain; auto.
Qed.

(** Members [member_text] separated by a comma and a space, up to a
    closing bracket: one pair each, a String whose text is the key and a
    Number whose text is the value. *)
Lemma members_entries (l : list (string * string)) (d : Z) :
  Forall (fun kx => json_chars (fst kx) /\ json_digits (snd kx)) l ->
  forall (data : string) (i : Z) (c : ascii) (rest : string),
    is_close (Some c) = true ->
    suffix_at data i (String.concat ", " (map member_text l) ++ String c rest) ->
    exists es,
      entries_at data (slen data) d i
                 (i + slen (String.concat ", " (map member_text l))) es
      /\ map (fun kv => (shape data (fst kv), shape data (snd kv))) es
         = map (fun kx => ((STRING, fst kx), (NUMBER, snd kx))) l.
Proof.
  assert (One : forall (k x rest : string) (data : string) (i : Z),
             json_chars k -> json_digits x -> follows rest ->
             suffix_at data i (member_text (k, x) ++ rest) ->
             let j := i + slen k + 2 in
             let v := mkValue NUMBER (j + 2) (j + 2 + slen x) d in
             scalar_at data (slen data) i j
             /\ j <= j + 2 <= slen data
             /\ (forall p, j <= p < j + 2 -> is_skip (char_at data p) = true)
             /\ item_at data (slen data) d (j + 2) (j + 2 + slen x) v
             /\ shape data (scalar_value data d i j) = (STRING, k)
             /\ shape data v = (NUMBER, x)
             /\ suffix_at data (j + 2 + slen x) rest
             /\ slen (member_text (k, x)) = slen k + 4 + slen x).
  { intros k x rest data i Jk Dx F Sf. cbv zeta.
    unfold member_text in Sf |- *. cbn [fst snd] in Sf |- *.
    cbn [append] in Sf. rewrite append_assoc in Sf. cbn [append] in Sf.
    destruct (string_scalar data k _ d i Jk Sf) as (Sc & Sv & Sub).
    pose proof Sf as S1. apply suffix_cons in S1. destruct S1 as (_ & _ & S1).
    apply suffix_app in S1.
    apply suffix_cons in S1. destruct S1 as (_ & _ & S1).
    apply suffix_cons in S1. destruct S1 as (L1 & C1 & S1).
    apply suffix_cons in S1. destruct S1 as (L2 & C2 & S1).
    replace (i + 1 + slen k + 1 + 1 + 1) with (i + slen k + 2 + 2) in S1 by lia.
    replace (i + 1 + slen k + 1) with (i + slen k + 2) in L1, C1 by lia.
    replace (i + 1 + slen k + 1 + 1) with (i + slen k + 2 + 1) in L2, C2 by lia.
    destruct (digits_item data x rest d _ Dx S1 F) as [I SubX].
    split; [exact Sc|]. split; [lia|]. split; [|split; [exact I|]].
    { intros p Hp.
      assert (E : p = i + slen k + 2 \/ p = i + slen k + 2 + 1) by lia.
      destruct E as [-> | ->]; [rewrite C1 | rewrite C2]; reflexivity. }
    split; [rewrite Sv; unfold shape; simpl; rewrite Sub; reflexivity|].
    split; [unfold shape; simpl; rewrite SubX; reflexivity|].
    split; [apply (suffix_app _ _ _ _ S1)|].
    rewrite !slen_String, slen_append, !slen_String.
    rewrite (slen_append ": " x). change (slen ": ") with 2. lia. }
  induction l as [|[k x] l IH]; intros F data i c rest Cl Sf.
  - exists []. split; [|reflexivity]. simpl. rewrite slen_nil, Z.add_0_r.
    apply entries_nil. apply (suffix_bound _ _ _ Sf).
  - inversion F as [|kx l' [Jk Dx] Fl]; subst kx l'. cbn [fst snd] in Jk, Dx.
    destruct l as [|[k' x'] l].
    + cbn [map String.concat] in Sf |- *.
      destruct (One k x (String c rest) data i Jk Dx (close_follows c rest Cl) Sf)
        as (Sc & B & Sk & I & Sh1 & Sh2 & Sr & Len).
      exists [(scalar_value data d i (i + slen k + 2),
               mkValue NUMBER (i + slen k + 2 + 2) (i + slen k + 2 + 2 + slen x) d)].
      split.
      * rewrite Len.
        replace (i + (slen k + 4 + slen x)) with (i + slen k + 2 + 2 + slen x)
          by lia.
        eapply entries_cons; eauto.
        apply entries_nil. apply (suffix_bound _ _ _ Sr).
      * cbn [map fst snd]. rewrite Sh1, Sh2. reflexivity.
    + change (map member_text ((k, x) :: (k', x') :: l))
        with (member_text (k, x) :: member_text (k', x') :: map member_text l)
        in Sf |- *.
      rewrite concat_cons2 in Sf |- *.
      change (member_text (k', x') :: map member_text l)
        with (map member_text ((k', x') :: l)) in Sf |- *.
      rewrite !append_assoc in Sf.
      destruct (One k x _ data i Jk Dx (eq_refl : follows (", " ++ _)) Sf)
        as (Sc & B & Sk & I & Sh1 & Sh2 & Sr & Len).
      apply suffix_cons in Sr. destruct Sr as (L1 & C1 & Sr).
      apply suffix_cons in Sr. destruct Sr as (L2 & C2 & Sr).
      destruct (IH Fl data _ c rest Cl Sr) as (es & It & M).
      exists ((scalar_value data d i (i + slen k + 2),
               mkValue NUMBER (i + slen k + 2 + 2) (i + slen k + 2 + 2 + slen x) d)
                :: es).
      split.
      * eapply entries_cons; eauto.
        apply entries_skip; [exact L1 | rewrite C1; reflexivity|].
        apply entries_skip; [exact L2 | rewrite C2; reflexivity|].
        replace (i + slen (member_text (k, x) ++ ", "
                             ++ String.concat ", "
                                  (map member_text ((k', x') :: l))))
          with (i + slen k + 2 + 2 + slen x + 1 + 1
                + slen (String.concat ", " (map member_text ((k', x') :: l))))
          by (rewrite !slen_append, Len, !slen_String, slen_nil; lia).
        exact It.
      * cbn [map fst snd] in M |- *. rewrite Sh1, Sh2, M. reflexivity.
Qed.

(** ** The generated documents *)

Lemma string_of_uint_digits (d : Decimal.uint) :
  all_chars is_digit_char (NilEmpty.string_of_uint d) = true.
Proof. induction d; simpl; auto. Qed.

Lemma string_of_nat_digits (i : nat) : json_digits (string_of_nat i).
Proof.
  split; [|apply string_of_uint_digits].
  unfold string_of_nat. destruct (N.of_nat i) as [|p]; [discriminate|].
  simpl. pose proof (DecimalPos.Unsigned.to_uint_nonnil p) as Nn.
  destruct (Pos.to_uint p); try discriminate. contradiction Nn; reflexivity.
Qed.

Lemma count_length (A : Type) (l : list A) (n : Z) :
  fold_left (fun count _ => count + 1) l n = n + Z.of_nat (length l).
Proof.
  revert n; induction l as [|a l IH]; intros n; simpl length; simpl fold_left;
    [lia | rewrite IH; lia].
Qed.

(** The root of a document that starts with a bracket. *)
Lemma bjRead_root (a : ascii) (body : string) :
  is_open (Some a) = true ->
  bjRead (bjReader (String a body))
  = (mkReader (String a body) 1 (slen (String a body)) 1 None,
     mkValue (if is_chr (Some a) "{" then OBJECT else ARRAY) 0 1 1).
Proof.
  intros Op.
  rewrite bjRead_open; try reflexivity; exact Op.
Qed.

(** What the iterator over the root of a document [opening ++ body ++
    closing] starts from. *)
Lemma root_closed (a c : ascii) (body : string) :
  let data := String a (body ++ String c EmptyString) in
  suffix_at data 1 (body ++ String c EmptyString)
  /\ 1 + slen body < slen data
  /\ char_at data (1 + slen body) = Some c
  /\ 1 + slen body + 1 = slen data.
Proof.
  cbv zeta.
  pose proof (suffix_start (String a EmptyString) (body ++ String c EmptyString))
    as Sf.
  change (slen (String a EmptyString)) with 1 in Sf. cbn [append] in Sf.
  split; [exact Sf|].
  apply suffix_app in Sf. apply suffix_cons in Sf.
  destruct Sf as (L & C & Sf). apply suffix_nil in Sf. auto.
Qed.

(** X14.  The document [generateLargeArray size] read back as the
    benchmark does: the array iterator hands out [size] values, the
    [i]-th a Number whose text is [i] in decimal, and leaves the reader at
    the end of the text, at depth 0 and without error; [benchmarkArray]
    counts [size]. *)
Theorem X14_generated_array_is_read_back (size : nat) :
  let data := generateLargeArray size in
  let root := bjRead (bjReader data) in
  let run := BjArrayIterator_values (mkArrayIterator (fst root) (snd root)) in
  benchmarkArray data = Ok (Z.of_nat size)
  /\ map (shape data) (snd run)
     = map (fun i => (NUMBER, string_of_nat i)) (seq 0 size)
  /\ fst run = mkReader data (slen data) (slen data) 0 None.
Proof.
  cbv zeta. unfold benchmarkArray.
  set (l := map string_of_nat (seq 0 size)).
  assert (D : generateLargeArray size
              = String "[" (String.concat ", " l ++ String "]" EmptyString))
    by reflexivity.
  rewrite D. set (data := String "[" _) in *.
  destruct (root_closed "[" "]" (String.concat ", " l))
    as (Sf & Lj & Cj & En). fold data in Sf, Lj, Cj, En.
  assert (R : bjRead (bjReader data)
              = (mkReader data 1 (slen data) 1 None, mkValue ARRAY 0 1 1))
    by (apply (bjRead_root "[" _ eq_refl)).
  rewrite !R. cbn [fst snd].
  change (new_BjArrayIterator (mkReader data 1 (slen data) 1 None)
                              (mkValue ARRAY 0 1 1))
    with (Ok (mkArrayIterator (mkReader data 1 (slen data) 1 None)
                              (mkValue ARRAY 0 1 1))).
  assert (F : Forall json_digits l).
  { apply Forall_forall. intros x Hx. apply in_map_iff in Hx.
    destruct Hx as (i & <- & _). apply string_of_nat_digits. }
  destruct (numbers_items l 1 F data 1 "]" EmptyString eq_refl Sf)
    as (vs & It & M).
  rewrite (array_items data (slen data) (mkValue ARRAY 0 1 1) 1 _ vs It);
    try reflexivity; try exact Lj; try (cbn [vdepth]; lia);
    try (rewrite Cj; reflexivity).
  cbn [fst snd set_cur set_depth vdepth rdata rend rerror].
  assert (Len : length vs = size).
  { apply (f_equal (@length _)) in M. unfold l in M.
    rewrite !length_map, length_seq in M. exact M. }
  split; [rewrite count_length, Len; reflexivity|].
  split.
  - rewrite M. unfold l. rewrite map_map. reflexivity.
  - rewrite En. reflexivity.
Qed.

(** X15.  The document [generateLargeObject size] read back as the
    benchmark does: the object iterator hands out [size] pairs, the [i]-th
    a String whose text is [key<i>] and a Number whose text is [i] in
    decimal, and leaves the reader at the end of the text, at depth 0 and
    without error; [benchmarkObject] counts [size]. *)
Theorem X15_generated_object_is_read_back (size : nat) :
  let data := generateLargeObject size in
  let root := bjRead (bjReader data) in
  let run := BjObjectIterator_entries (mkObjectIterator (fst root) (snd root)) in
  benchmarkObject data = Ok (Z.of_nat size)
  /\ map (fun kv => (shape data (fst kv), shape data (snd kv))) (snd run)
     = map (fun i => ((STRING, "key" ++ string_of_nat i),
                      (NUMBER, string_of_nat i))) (seq 0 size)
  /\ fst run = mkReader data (slen data) (slen data) 0 None.
Proof.
  cbv zeta. unfold benchmarkObject.
  set (l := map (fun i => ("key" ++ string_of_nat i, string_of_nat i))
                (seq 0 size)).
  assert (D : generateLargeObject size
              = String "{" (String.concat ", " (map member_text l)
                              ++ String "}" EmptyString)).
  { unfold generateLargeObject, l. rewrite map_map. reflexivity. }
  rewrite D. set (data := String "{" _) in *.
  destruct (root_closed "{" "}" (String.concat ", " (map member_text l)))
    as (Sf & Lj & Cj & En). fold data in Sf, Lj, Cj, En.
  assert (R : bjRead (bjReader data)
              = (mkReader data 1 (slen data) 1 None, mkValue OBJECT 0 1 1))
    by (apply (bjRead_root "{" _ eq_refl)).
  rewrite !R. cbn [fst snd].
  change (new_BjObjectIterator (mkReader data 1 (slen data) 1 None)
                               (mkValue OBJECT 0 1 1))
    with (Ok (mkObjectIterator (mkReader data 1 (slen data) 1 None)
                               (mkValue OBJECT 0 1 1))).
  assert (F : Forall (fun kx => json_chars (fst kx) /\ json_digits (snd kx)) l).
  { apply Forall_forall. intros x Hx. apply in_map_iff in Hx.
    destruct Hx as (i & <- & _). cbn [fst snd].
    split; [|apply string_of_nat_digits].
    cbn [append]. do 3 (apply chars_plain; try reflexivity).
    apply digits_chars, string_of_nat_digits. }
  destruct (members_entries l 1 F data 1 "}" EmptyString eq_refl Sf)
    as (es & It & M).
  rewrite (object_entries data (slen data) (mkValue OBJECT 0 1 1) 1 _ es It);
    try reflexivity; try exact Lj; try (cbn [vdepth]; lia);
    try (rewrite Cj; reflexivity).
  cbn [fst snd set_cur set_depth vdepth rdata rend rerror].
  assert (Len : length es = size).
  { apply (f_equal (@length _)) in M. unfold l in M.
    rewrite !length_map, length_seq in M. exact M. }
  split; [rewrite count_length, Len; reflexivity|].
  split.
  - rewrite M. unfold l. rewrite map_map. reflexivity.
  - rewrite En. reflexivity.
Qed.

Lemma X12_array_iterator_yields_the_items_witness :
  let data := json "[7, [8], 'x']" in
  BjArrayIterator_values
    (mkArrayIterator (mkReader data 1 13 1 None) (mkValue ARRAY 0 1 1))
  = (mkReader data 13 13 0 None,
     [mkValue NUMBER 1 2 1; mkValue ARRAY 4 5 2; mkValue STRING 10 11 1]).
Proof.
  cbv zeta. set (data := json "[7, [8], 'x']").
  assert (N1 : scalar_at data 13 1 2).
  { apply scalar_number; [lia | reflexivity | | right; reflexivity].
    intros k Hk. replace k with 1 by lia. reflexivity. }
  assert (N5 : scalar_at data 13 5 6).
  { apply scalar_number; [lia | reflexivity | | right; reflexivity].
    intros k Hk. replace k with 5 by lia. reflexivity. }
  assert (S9 : scalar_at data 13 9 (11 + 1)).
  { apply scalar_string; [lia | reflexivity |].
    apply closes_plain; [lia | reflexivity | reflexivity |].
    apply (closes_here data 13 11); [lia | reflexivity]. }
  apply (X12_array_iterator_yields_the_items
           (mkReader data 1 13 1 None) (mkValue ARRAY 0 1 1)
           (mkArrayIterator (mkReader data 1 13 1 None) (mkValue ARRAY 0 1 1))
           12
           [mkValue NUMBER 1 2 1; mkValue ARRAY 4 5 2; mkValue STRING 10 11 1]);
    try reflexivity; try (cbn; lia).
  cbn [rdata rend rcur vdepth].
  apply (items_cons data 13 1 1 2 12 _ _ (item_scalar data 13 1 1 2 N1)).
  apply items_skip; [lia | reflexivity|].
  apply items_skip; [lia | reflexivity|].
  apply (items_cons data 13 1 4 (6 + 1) 12 _ _
           (item_container data 13 1 4 6 1 ltac:(lia) eq_refl
              (content_scalar data 13 5 6 6 0 N5
                 (content_done data 13 6 ltac:(lia)))
              ltac:(lia) eq_refl)).
  apply items_skip; [lia | reflexivity|].
  apply items_skip; [lia | reflexivity|].
  apply (items_cons data 13 1 9 (11 + 1) 12 _ _
           (item_scalar data 13 1 9 (11 + 1) S9)).
  apply items_nil. lia.
Defined.

Lemma X13_object_iterator_yields_the_members_witness :
  let data := json "{'a': 1, 2: [3]}" in
  BjObjectIterator_entries
    (mkObjectIterator (mkReader data 1 16 1 None) (mkValue OBJECT 0 1 1))
  = (mkReader data 16 16 0 None,
     [(mkValue STRING 2 3 1, mkValue NUMBER 6 7 1);
      (mkValue NUMBER 9 10 1, mkValue ARRAY 12 13 2)]).
Proof.
  cbv zeta. set (data := json "{'a': 1, 2: [3]}").
  assert (Num : forall i, In i [6; 9; 13] -> scalar_at data 16 i (i + 1)).
  { intros i Hi. simpl in Hi.
    decompose [or] Hi; try contradiction; subst i;
      (apply scalar_number; [lia | reflexivity | | right; reflexivity]);
      intros k Hk;
      match goal with |- context [char_at data k] =>
        match type of Hk with ?a <= _ < _ => replace k with a by lia end
      end; reflexivity. }
  assert (S1 : scalar_at data 16 1 (3 + 1)).
  { apply scalar_string; [lia | reflexivity |].
    apply closes_plain; [lia | reflexivity | reflexivity |].
    apply (closes_here data 16 3); [lia | reflexivity]. }
  assert (Sk : forall a b, In (a, b) [(4, 6); (10, 12)] ->
                 forall x, a <= x < b -> is_skip (char_at data x) = true).
  { intros a b H x Hx. simpl in H. decompose [or] H; try contradiction;
      match goal with E : (_, _) = (_, _) |- _ => inversion E; subst end;
      (assert (C : x = 4 \/ x = 5 \/ x = 10 \/ x = 11) by lia);
      decompose [or] C; subst; reflexivity. }
  apply (X13_object_iterator_yields_the_members
           (mkReader data 1 16 1 None) (mkValue OBJECT 0 1 1)
           (mkObjectIterator (mkReader data 1 16 1 None) (mkValue OBJECT 0 1 1))
           15
           [(mkValue STRING 2 3 1, mkValue NUMBER 6 7 1);
            (mkValue NUMBER 9 10 1, mkValue ARRAY 12 13 2)]);
    try reflexivity; try (cbn; lia).
  cbn [rdata rend rcur vdepth].
  apply (entries_cons data 16 1 1 (3 + 1) 6 (6 + 1) 15 _ _ S1
           ltac:(lia) (Sk 4 6 ltac:(simpl; auto))
           (item_scalar data 16 1 6 (6 + 1) (Num 6 ltac:(simpl; auto)))).
  apply entries_skip; [lia | reflexivity|].
  apply entries_skip; [lia | reflexivity|].
  apply (entries_cons data 16 1 9 (9 + 1) 12 (14 + 1) 15 _ _
           (Num 9 ltac:(simpl; auto))
           ltac:(lia) (Sk 10 12 ltac:(simpl; auto))
           (item_container data 16 1 12 14 1 ltac:(lia) eq_refl
              (content_scalar data 16 13 (13 + 1) 14 0
                 (Num 13 ltac:(simpl; auto))
                 (content_done data 16 14 ltac:(lia)))
              ltac:(lia) eq_refl)).
  apply entries_nil. lia.
Defined.

(** ** JSON arrays and objects under the iterators *)

(** [json_elements] and [json_members] are the elements and the members of
    the grammar, with their values told apart. *)
Lemma json_elements_sound (vs : list string) (es : string) :
  json_elements vs es -> json_text Elements es.
Proof.
  induction 1 as [w1 v w2 W1 V W2 | w1 v w2 es vs W1 V W2 _ IH].
  - apply json_elements_one, json_element; assumption.
  - apply json_elements_more; [apply json_element; assumption | exact IH].
Qed.

Lemma json_elements_complete (srt : json_sort) (es : string) :
  json_text srt es -> srt = Elements -> exists vs, json_elements vs es.
Proof.
  induction 1 as [ | | | s N | s St
                 | w W | es E IH | w W | ms M IH
                 | w1 v w2 W1 V IH W2
                 | e E IH | e es E IHe Es IHes
                 | w1 k w2 e W1 K W2 E IH
                 | m M IH | m ms M IHm Ms IHms ];
    intros Q; try discriminate Q.
  - inversion E as [ | | | | | | | | | w1 v w2 W1 V W2 | | | | | ]; subst.
    exists [v]. apply elements_one; assumption.
  - inversion E as [ | | | | | | | | | w1 v w2 W1 V W2 | | | | | ]; subst.
    destruct (IHes eq_refl) as [vs J].
    exists (v :: vs). apply elements_more; assumption.
Qed.

Lemma json_members_sound (kvs : list (string * string)) (ms : string) :
  json_members kvs ms -> json_text Members ms.
Proof.
  induction 1 as [w1 k w2 w3 v w4 W1 K W2 W3 V W4
                 | w1 k w2 w3 v w4 ms kvs W1 K W2 W3 V W4 _ IH].
  - apply json_members_one, json_member; try assumption.
    + exists k. split; [reflexivity | exact K].
    + apply json_element; assumption.
  - apply json_members_more; [|exact IH].
    apply json_member; try assumption.
    + exists k. split; [reflexivity | exact K].
    + apply json_element; assumption.
Qed.

Lemma json_members_complete (srt : json_sort) (ms : string) :
  json_text srt ms -> srt = Members -> exists kvs, json_members kvs ms.
Proof.
  assert (One : forall m, json_text Member m ->
            exists w1 k w2 w3 v w4,
              m = w1 ++ key_text k ++ w2 ++ ":" ++ (w3 ++ v ++ w4)
              /\ json_ws w1 /\ json_chars k /\ json_ws w2
              /\ json_ws w3 /\ json_text Value v /\ json_ws w4).
  { intros m M.
    inversion M as [ | | | | | | | | | | | | w1 k w2 e W1 K W2 E | | ]; subst.
    inversion E as [ | | | | | | | | | w3 v w4 W3 V W4 | | | | | ]; subst.
    destruct K as (kb & -> & K).
    exists w1, kb, w2, w3, v, w4. repeat split; assumption. }
  induction 1 as [ | | | s N | s St
                 | w W | es E IH | w W | ms M IH
                 | w1 v w2 W1 V IH W2
                 | e E IH | e es E IHe Es IHes
                 | w1 k w2 e W1 K W2 E IH
                 | m M IH | m ms M IHm Ms IHms ];
    intros Q; try discriminate Q.
  - destruct (One m M) as (w1 & k & w2 & w3 & v & w4 & -> & H).
    exists [(k, v)]. apply members_one; tauto.
  - destruct (One m M) as (w1 & k & w2 & w3 & v & w4 & -> & H).
    destruct (IHms eq_refl) as [kvs J].
    exists ((k, v) :: kvs). apply members_more; tauto.
Qed.

Lemma number_text_shape (a : ascii) (t : string) :
  is_number_start (Some a) = true ->
  text_shape (String a t) = (NUMBER, String a t).
Proof.
  intros H. unfold text_shape.
  destruct a as [[] [] [] [] [] [] [] []]; vm_compute in H; try discriminate H;
    reflexivity.
Qed.

Lemma length_snoc (a : string) (c : ascii) :
  String.length (a ++ String c EmptyString) = S (String.length a).
Proof. induction a as [|x a IH]; simpl; [reflexivity | rewrite IH; reflexivity]. Qed.

Lemma substring_prefix (a b : string) :
  String.substring 0 (String.length a) (a ++ b) = a.
Proof.
  induction a as [|x a IH]; simpl; [destruct b; reflexivity|].
  rewrite IH. reflexivity.
Qed.

Lemma string_text_shape (body : string) :
  text_shape (key_text body) = (STRING, body).
Proof.
  unfold text_shape, key_text.
  change (Ascii.eqb quote quote) with true. cbv iota.
  rewrite length_snoc. simpl Nat.sub. rewrite Nat.sub_0_r.
  rewrite substring_prefix. reflexivity.
Qed.

(** A container whose content is well formed is one item: its opening
    bracket, handed out one level down. *)
Lemma container_item (data : string) (i d : Z) (a c : ascii)
      (body rest : string) (n : nat) :
  is_open (Some a) = true -> is_close (Some c) = true ->
  suffix_at data i (String a (body ++ String c rest)) ->
  content_at data (slen data) (i + 1) (i + 1 + slen body) n ->
  let tok := mkValue (if is_chr (Some a) "{" then OBJECT else ARRAY)
                     i (i + 1) (d + 1) in
  item_at data (slen data) d i (i + 1 + slen body + 1) tok
  /\ shape data tok
     = (if is_chr (Some a) "{" then OBJECT else ARRAY, String a EmptyString).
Proof.
  intros Op Cl Sf B. cbv zeta.
  pose proof (suffix_substring data (String a EmptyString) _ i Sf) as Sub.
  change (slen (String a EmptyString)) with 1 in Sub.
  apply suffix_cons in Sf. destruct Sf as (L & C & Sf).
  apply suffix_app in Sf. apply suffix_cons in Sf. destruct Sf as (L' & C' & Sf).
  split.
  - rewrite <- C.
    apply (item_container data (slen data) d i (i + 1 + slen body) n);
      try assumption; [rewrite C; exact Op | rewrite C'; exact Cl].
  - unfold shape. simpl. rewrite Sub. reflexivity.
Qed.

(** A JSON value, wherever it stands in the buffer, is one item, of the
    kind and with the text its first character announces. *)
Lemma value_item (v : string) :
  json_text Value v ->
  forall (data : string) (i d : Z) (rest : string),
    suffix_at data i (v ++ rest) -> follows rest ->
    exists tok,
      item_at data (slen data) d i (i + slen v) tok
      /\ shape data tok = text_shape v.
Proof.
  intros J data i d rest Sf F.
  pose proof (suffix_substring _ _ _ _ Sf) as Sub.
  assert (Lit : forall c t,
             v = String c t ->
             isString data i (slen data) v = true ->
             is_number_start (Some c) = false -> Ascii.eqb c quote = false ->
             scalar_at data (slen data) i (i + slen v) ->
             exists tok,
               item_at data (slen data) d i (i + slen v) tok
               /\ shape data tok
                  = (if Ascii.eqb c "n" then NULL else BOOL, v)).
  { intros c t -> S Nn Nq Sc.
    destruct (isString_first _ _ _ _ _ S) as [_ Ch].
    exists (scalar_value data d i (i + slen (String c t))).
    split; [apply item_scalar, Sc|].
    unfold scalar_value, shape. rewrite Ch. cbn [is_chr].
    rewrite Nq, Nn. simpl. rewrite Sub. reflexivity. }
  inversion J as [ | | | s N | s St | w W | es E | w W | ms M
                   | | | | | | ]; subst.
  - apply (Lit "n"%char "ull" eq_refl); try reflexivity.
    + apply (literal_at _ _ rest), Sf.
    + apply scalar_null, (literal_at _ _ rest), Sf.
  - apply (Lit "t"%char "rue" eq_refl); try reflexivity.
    + apply (literal_at _ _ rest), Sf.
    + apply scalar_true, (literal_at _ _ rest), Sf.
  - apply (Lit "f"%char "alse" eq_refl); try reflexivity.
    + apply (literal_at _ _ rest), Sf.
    + apply scalar_false, (literal_at _ _ rest), Sf.
  - destruct (json_number_shape v N) as ((a & t & -> & St) & A).
    destruct (number_chars_item data a t rest d i St A Sf F) as [I _].
    eexists; split; [exact I|].
    unfold shape. simpl. rewrite Sub. symmetry. apply number_text_shape, St.
  - destruct St as (body & -> & K).
    cbn [append] in Sf. rewrite append_assoc in Sf. cbn [append] in Sf.
    destruct (string_scalar data body rest d i K Sf) as (Sc & Sv & SubB).
    exists (scalar_value data d i (i + slen body + 2)). split.
    + replace (i + slen (String quote (body ++ String quote EmptyString)))
        with (i + slen body + 2)
        by (rewrite slen_String, slen_append, slen_String, slen_nil; lia).
      apply item_scalar, Sc.
    + rewrite Sv. unfold shape. simpl. rewrite SubB.
      symmetry. apply (string_text_shape body).
  - cbn [append] in Sf. rewrite append_assoc in Sf. cbn [append] in Sf.
    pose proof Sf as Sf'. apply suffix_cons in Sf'. destruct Sf' as (_ & _ & Sf').
    destruct (container_item data i d "[" "]" w rest O eq_refl eq_refl Sf
                             (ws_content _ _ _ _ W Sf')) as [I Sh].
    eexists; split; [|exact Sh].
    cbn [append]. rewrite slen_String, slen_append, slen_String, slen_nil.
    replace (i + (1 + (slen w + (1 + 0)))) with (i + 1 + slen w + 1) by lia.
    exact I.
  - cbn [append] in Sf. rewrite append_assoc in Sf. cbn [append] in Sf.
    pose proof Sf as Sf'. apply suffix_cons in Sf'. destruct Sf' as (_ & _ & Sf').
    destruct (json_content _ _ E data (i + 1) _ Sf' eq_refl) as [n C].
    destruct (container_item data i d "[" "]" es rest n eq_refl eq_refl Sf C)
      as [I Sh].
    eexists; split; [|exact Sh].
    cbn [append]. rewrite slen_String, slen_append, slen_String, slen_nil.
    replace (i + (1 + (slen es + (1 + 0)))) with (i + 1 + slen es + 1) by lia.
    exact I.
  - cbn [append] in Sf. rewrite append_assoc in Sf. cbn [append] in Sf.
    pose proof Sf as Sf'. apply suffix_cons in Sf'. destruct Sf' as (_ & _ & Sf').
    destruct (container_item data i d "{" "}" w rest O eq_refl eq_refl Sf
                             (ws_content _ _ _ _ W Sf')) as [I Sh].
    eexists; split; [|exact Sh].
    cbn [append]. rewrite slen_String, slen_append, slen_String, slen_nil.
    replace (i + (1 + (slen w + (1 + 0)))) with (i + 1 + slen w + 1) by lia.
    exact I.
  - cbn [append] in Sf. rewrite append_assoc in Sf. cbn [append] in Sf.
    pose proof Sf as Sf'. apply suffix_cons in Sf'. destruct Sf' as (_ & _ & Sf').
    destruct (json_content _ _ M data (i + 1) _ Sf' eq_refl) as [n C].
    destruct (container_item data i d "{" "}" ms rest n eq_refl eq_refl Sf C)
      as [I Sh].
    eexists; split; [|exact Sh].
    cbn [append]. rewrite slen_String, slen_append, slen_String, slen_nil.
    replace (i + (1 + (slen ms + (1 + 0)))) with (i + 1 + slen ms + 1) by lia.
    exact I.
Qed.

Lemma ws_skips (data : string) (w rest : string) (i : Z) :
  json_ws w -> suffix_at data i (w ++ rest) ->
  forall x, i <= x < i + slen w -> is_skip (char_at data x) = true.
Proof.
  intros W Sf.
  apply (suffix_all_chars is_ws_char is_skip data w rest i);
    [apply ws_is_skip | exact W | exact Sf].
Qed.

Lemma items_skips (data : string) (end_ d i j k : Z) (vs : list BjValue) :
  i <= j <= end_ ->
  (forall x, i <= x < j -> is_skip (char_at data x) = true) ->
  items_at data end_ d j k vs -> items_at data end_ d i k vs.
Proof.
  intros B Sk It.
  remember (Z.to_nat (j - i)) as n eqn:Hn.
  revert i B Sk Hn; induction n as [|n IH]; intros i B Sk Hn.
  - replace i with j by lia. exact It.
  - apply items_skip; [lia | apply Sk; lia|].
    apply IH; [lia | intros x Hx; apply Sk; lia | lia].
Qed.

Lemma entries_skips (data : string) (end_ d i j k : Z)
      (es : list (BjValue * BjValue)) :
  i <= j <= end_ ->
  (forall x, i <= x < j -> is_skip (char_at data x) = true) ->
  entries_at data end_ d j k es -> entries_at data end_ d i k es.
Proof.
  intros B Sk It.
  remember (Z.to_nat (j - i)) as n eqn:Hn.
  revert i B Sk Hn; induction n as [|n IH]; intros i B Sk Hn.
  - replace i with j by lia. exact It.
  - apply entries_skip; [lia | apply Sk; lia|].
    apply IH; [lia | intros x Hx; apply Sk; lia | lia].
Qed.

(** An element [w1 v w2] of an array, followed by [rest]: white space, the
    item of [v], white space. *)
Lemma element_item (data : string) (w1 v w2 rest : string) (i d : Z) :
  json_ws w1 -> json_text Value v -> json_ws w2 -> follows rest ->
  suffix_at data i (w1 ++ v ++ w2 ++ rest) ->
  let p := i + slen w1 in
  let q := p + slen v in
  exists tok,
    item_at data (slen data) d p q tok
    /\ shape data tok = text_shape v
    /\ i <= p /\ q <= q + slen w2 <= slen data
    /\ (forall x, i <= x < p -> is_skip (char_at data x) = true)
    /\ (forall x, q <= x < q + slen w2 -> is_skip (char_at data x) = true)
    /\ suffix_at data (q + slen w2) rest.
Proof.
  intros W1 V W2 F Sf. cbv zeta.
  pose proof (ws_skips _ _ _ _ W1 Sf) as K1.
  pose proof (suffix_app _ _ _ _ Sf) as S1.
  destruct (value_item v V data (i + slen w1) d _ S1 (ws_follows _ _ W2 F))
    as (tok & I & Sh).
  pose proof (suffix_app _ _ _ _ S1) as S2.
  pose proof (ws_skips _ _ _ _ W2 S2) as K2.
  pose proof (suffix_app _ _ _ _ S2) as S3.
  pose proof (suffix_bound _ _ _ S3) as B3.
  pose proof (slen_nonneg w1). pose proof (slen_nonneg w2).
  exists tok. do 6 (split; [assumption || lia|]). exact S3.
Qed.

(** The elements of a JSON array, up to its closing bracket: one item
    each, of the kind and with the text of the element. *)
Lemma json_elements_items (vs : list string) (es : string) :
  json_elements vs es ->
  forall (data : string) (i d : Z) (c : ascii) (rest : string),
    is_close (Some c) = true ->
    suffix_at data i (es ++ String c rest) ->
    exists toks,
      items_at data (slen data) d i (i + slen es) toks
      /\ map (shape data) toks = map text_shape vs.
Proof.
  induction 1 as [w1 v w2 W1 V W2 | w1 v w2 es vs W1 V W2 _ IH];
    intros data i d c rest Cl Sf.
  - rewrite !append_assoc in Sf.
    destruct (element_item data w1 v w2 _ i d W1 V W2 (close_follows c rest Cl) Sf)
      as (tok & I & Sh & B1 & B2 & K1 & K2 & S3).
    pose proof (slen_nonneg v) as Nv.
    exists [tok]. split; [|simpl; rewrite Sh; reflexivity].
    rewrite !slen_append.
    apply (items_skips _ _ _ i (i + slen w1)); [lia | exact K1|].
    eapply items_cons; [exact I|].
    apply (items_skips _ _ _ _ (i + slen w1 + slen v + slen w2));
      [lia | exact K2|].
    replace (i + (slen w1 + (slen v + slen w2)))
      with (i + slen w1 + slen v + slen w2) by lia.
    apply items_nil. lia.
  - rewrite !append_assoc in Sf. cbn [append] in Sf.
    destruct (element_item data w1 v w2 _ i d W1 V W2
                (eq_refl : follows (String "," _)) Sf)
      as (tok & I & Sh & B1 & B2 & K1 & K2 & S3).
    pose proof (slen_nonneg v) as Nv.
    apply suffix_cons in S3. destruct S3 as (L & C & S3).
    destruct (IH data _ d c rest Cl S3) as (toks & It & M).
    exists (tok :: toks). split; [|simpl; rewrite Sh, M; reflexivity].
    apply (items_skips _ _ _ i (i + slen w1)); [lia | exact K1|].
    eapply items_cons; [exact I|].
    apply (items_skips _ _ _ _ (i + slen w1 + slen v + slen w2));
      [lia | exact K2|].
    apply items_skip; [exact L | rewrite C; reflexivity|].
    replace (i + slen ((w1 ++ v ++ w2) ++ "," ++ es))
      with (i + slen w1 + slen v + slen w2 + 1 + slen es)
      by (rewrite !slen_append; change (slen ",") with 1; lia).
    exact It.
Qed.

(** A member [w1 "k" w2 : w3 v w4] of an object, followed by [rest]. *)
Lemma member_entry (data : string) (w1 k w2 w3 v w4 rest : string) (i d : Z) :
  json_ws w1 -> json_chars k -> json_ws w2 ->
  json_ws w3 -> json_text Value v -> json_ws w4 -> follows rest ->
  suffix_at data i
            (w1 ++ key_text k ++ w2 ++ ":" ++ w3 ++ v ++ w4 ++ rest) ->
  let p := i + slen w1 in
  let j := p + slen k + 2 in
  let j' := j + slen w2 + 1 + slen w3 in
  let q := j' + slen v in
  exists tok,
    scalar_at data (slen data) p j
    /\ shape data (scalar_value data d p j) = (STRING, k)
    /\ j <= j' <= slen data
    /\ (forall x, j <= x < j' -> is_skip (char_at data x) = true)
    /\ item_at data (slen data) d j' q tok
    /\ shape data tok = text_shape v
    /\ i <= p /\ p <= slen data /\ q <= q + slen w4 <= slen data
    /\ (forall x, i <= x < p -> is_skip (char_at data x) = true)
    /\ (forall x, q <= x < q + slen w4 -> is_skip (char_at data x) = true)
    /\ suffix_at data (q + slen w4) rest.
Proof.
  intros W1 K W2 W3 V W4 F Sf. cbv zeta.
  pose proof (ws_skips _ _ _ _ W1 Sf) as K1.
  pose proof (suffix_app _ _ _ _ Sf) as S1.
  unfold key_text in S1. cbn [append] in S1. rewrite append_assoc in S1.
  cbn [append] in S1.
  destruct (string_scalar data k _ d _ K S1) as (Sc & Sv & SubK).
  pose proof S1 as S2.
  apply suffix_cons in S2. destruct S2 as (_ & _ & S2).
  apply suffix_app in S2.
  apply suffix_cons in S2. destruct S2 as (_ & _ & S2).
  replace (i + slen w1 + 1 + slen k + 1) with (i + slen w1 + slen k + 2)
    in S2 by lia.
  pose proof (ws_skips _ _ _ _ W2 S2) as K2.
  apply suffix_app in S2.
  apply suffix_cons in S2. destruct S2 as (Lc & Cc & S2).
  destruct (element_item data w3 v w4 rest _ d W3 V W4 F S2)
    as (tok & I & Sh & B1 & B2 & K3 & K4 & S3).
  pose proof (suffix_bound _ _ _ S1) as Bp.
  pose proof (slen_nonneg w1). pose proof (slen_nonneg w2).
  pose proof (slen_nonneg w3). pose proof (slen_nonneg k).
  pose proof (slen_nonneg v).
  exists tok.
  split; [exact Sc|].
  split; [rewrite Sv; unfold shape; simpl; rewrite SubK; reflexivity|].
  split; [lia|].
  split.
  { intros x Hx.
    destruct (Z.lt_ge_cases x (i + slen w1 + slen k + 2 + slen w2)) as [A|A];
      [apply K2; lia|].
    destruct (Z.eq_dec x (i + slen w1 + slen k + 2 + slen w2)) as [->|Ne];
      [rewrite Cc; reflexivity|].
    apply K3; lia. }
  do 7 (split; [assumption || lia|]). exact S3.
Qed.

(** The members of a JSON object, up to its closing bracket: one pair
    each, a String with the text of the key and the item of the value. *)
Lemma json_members_entries (kvs : list (string * string)) (ms : string) :
  json_members kvs ms ->
  forall (data : string) (i d : Z) (c : ascii) (rest : string),
    is_close (Some c) = true ->
    suffix_at data i (ms ++ String c rest) ->
    exists es,
      entries_at data (slen data) d i (i + slen ms) es
      /\ map (fun kv => (shape data (fst kv), shape data (snd kv))) es
         = map (fun kx => ((STRING, fst kx), text_shape (snd kx))) kvs.
Proof.
  induction 1 as [w1 k w2 w3 v w4 W1 K W2 W3 V W4
                 | w1 k w2 w3 v w4 ms kvs W1 K W2 W3 V W4 _ IH];
    intros data i d c rest Cl Sf.
  - rewrite !append_assoc in Sf. cbn [append] in Sf.
    change (String ":" (w3 ++ v ++ w4 ++ String c rest))
      with (":" ++ w3 ++ v ++ w4 ++ String c rest) in Sf.
    destruct (member_entry data w1 k w2 w3 v w4 _ i d W1 K W2 W3 V W4
                (close_follows c rest Cl) Sf)
      as (tok & Sc & Shk & Bj & Kj & I & Sh & B1 & B2 & B3 & K1 & K4 & S3).
    pose proof (slen_nonneg v) as Nv. pose proof (slen_nonneg k) as Nk.
    eexists [(_, tok)]. split; [|cbn [map fst snd]; rewrite Shk, Sh; reflexivity].
    apply (entries_skips _ _ _ i (i + slen w1)); [lia | exact K1|].
    eapply entries_cons; [exact Sc | exact Bj | exact Kj | exact I|].
    eapply (entries_skips _ _ _ _ _); [| exact K4|]; [lia|].
    match goal with |- entries_at _ _ _ ?a ?b _ => replace b with a end.
    + apply entries_nil. lia.
    + unfold key_text. rewrite !slen_append, !slen_String, !slen_append,
        !slen_String, slen_nil. lia.
  - rewrite !append_assoc in Sf. cbn [append] in Sf.
    change (String ":" (w3 ++ v ++ w4 ++ String "," (ms ++ String c rest)))
      with (":" ++ w3 ++ v ++ w4 ++ String "," (ms ++ String c rest)) in Sf.
    destruct (member_entry data w1 k w2 w3 v w4 _ i d W1 K W2 W3 V W4
                (eq_refl : follows (String "," _)) Sf)
      as (tok & Sc & Shk & Bj & Kj & I & Sh & B1 & B2 & B3 & K1 & K4 & S3).
    pose proof (slen_nonneg v) as Nv. pose proof (slen_nonneg k) as Nk.
    apply suffix_cons in S3. destruct S3 as (L & C & S3).
    destruct (IH data _ d c rest Cl S3) as (es & It & M).
    eexists ((_, tok) :: es).
    split; [|cbn [map fst snd] in M |- *; rewrite Shk, Sh, M; reflexivity].
    apply (entries_skips _ _ _ i (i + slen w1)); [lia | exact K1|].
    eapply entries_cons; [exact Sc | exact Bj | exact Kj | exact I|].
    eapply (entries_skips _ _ _ _ _); [| exact K4|]; [lia|].
    apply entries_skip; [exact L | rewrite C; reflexivity|].
    match goal with
    | H : entries_at _ _ _ ?a ?b _ |- entries_at _ _ _ ?a ?b' _ =>
        replace b' with b; [exact H|]
    end.
    unfold key_text. rewrite !slen_append, !slen_String, !slen_append,
      !slen_String, slen_nil. change (slen ",") with 1. lia.
Qed.

(** X16.  The array iterator run to its end inside a JSON array, from
    behind the opening bracket: for the elements [vs] of the array it
    hands out one value each, in order, of the kind and with the text of
    the element (a string without its quotes, a nested container as its
    opening bracket), none for an empty array, and it leaves the reader
    behind the closing bracket, one level up. *)
Theorem X16_json_array_is_iterated
        (r : BjReader) (a : BjValue) (it : BjArrayIterator)
        (pre es post : string) (c : ascii) (vs : list string) :
  new_BjArrayIterator r a = Ok it ->
  (json_ws es /\ vs = []) \/ json_elements vs es ->
  is_close (Some c) = true ->
  rdata r = pre ++ es ++ String c post ->
  rcur r = slen pre -> rend r = slen (rdata r) ->
  truthy (rerror r) = false -> rdepth r = vdepth a -> 1 <= vdepth a ->
  fst (BjArrayIterator_values it)
  = set_cur (set_depth r (vdepth a - 1)) (slen pre + slen es + 1)
  /\ map (shape (rdata r)) (snd (BjArrayIterator_values it))
     = map text_shape vs.
Proof.
  intros N J Cl D Cu E T Dp D1. unfold new_BjArrayIterator in N.
  destruct (negb (BjType_eqb (vtype a) ARRAY)); [discriminate|].
  inversion N; subst it; clear N.
  pose proof (suffix_start pre (es ++ String c post)) as Sf. rewrite <- D in Sf.
  pose proof (suffix_app _ _ _ _ Sf) as Sc.
  apply suffix_cons in Sc. destruct Sc as (Lc & Cc & _).
  pose proof (slen_nonneg es) as Ne.
  assert (It : exists toks,
             items_at (rdata r) (slen (rdata r)) (vdepth a)
                      (slen pre) (slen pre + slen es) toks
             /\ map (shape (rdata r)) toks = map text_shape vs).
  { destruct J as [[W ->] | J].
    - exists []. split; [|reflexivity].
      apply (items_skips _ _ _ _ (slen pre + slen es));
        [lia | apply (ws_skips _ _ _ _ W Sf) | apply items_nil; lia].
    - apply (json_elements_items vs es J (rdata r) _ _ c post Cl Sf). }
  destruct It as (toks & It & M).
  rewrite (array_items (rdata r) (rend r) a (rcur r) (slen pre + slen es) toks);
    try reflexivity; try assumption.
  - split; [reflexivity | exact M].
  - rewrite E, Cu. exact It.
  - rewrite E. exact Lc.
  - rewrite Cc. exact Cl.
Qed.

(** X17.  The object iterator run to its end inside a JSON object, from
    behind the opening bracket: for the members [kvs] of the object it
    hands out one pair each, in order, a String with the text of the key
    (its quotes left out, its escapes as written) and a value of the kind
    and with the text of the member's value, none for an empty object, and
    it leaves the reader behind the closing bracket, one level up. *)
Theorem X17_json_object_is_iterated
        (r : BjReader) (o : BjValue) (it : BjObjectIterator)
        (pre ms post : string) (c : ascii) (kvs : list (string * string)) :
  new_BjObjectIterator r o = Ok it ->
  (json_ws ms /\ kvs = []) \/ json_members kvs ms ->
  is_close (Some c) = true ->
  rdata r = pre ++ ms ++ String c post ->
  rcur r = slen pre -> rend r = slen (rdata r) ->
  truthy (rerror r) = false -> rdepth r = vdepth o -> 1 <= vdepth o ->
  fst (BjObjectIterator_entries it)
  = set_cur (set_depth r (vdepth o - 1)) (slen pre + slen ms + 1)
  /\ map (fun kv => (shape (rdata r) (fst kv), shape (rdata r) (snd kv)))
         (snd (BjObjectIterator_entries it))
     = map (fun kx => ((STRING, fst kx), text_shape (snd kx))) kvs.
Proof.
  intros N J Cl D Cu E T Dp D1. unfold new_BjObjectIterator in N.
  destruct (negb (BjType_eqb (vtype o) OBJECT)); [discriminate|].
  inversion N; subst it; clear N.
  pose proof (suffix_start pre (ms ++ String c post)) as Sf. rewrite <- D in Sf.
  pose proof (suffix_app _ _ _ _ Sf) as Sc.
  apply suffix_cons in Sc. destruct Sc as (Lc & Cc & _).
  pose proof (slen_nonneg ms) as Ne.
  assert (It : exists es,
             entries_at (rdata r) (slen (rdata r)) (vdepth o)
                        (slen pre) (slen pre + slen ms) es
             /\ map (fun kv => (shape (rdata r) (fst kv),
                                shape (rdata r) (snd kv))) es
                = map (fun kx => ((STRING, fst kx), text_shape (snd kx))) kvs).
  { destruct J as [[W ->] | J].
    - exists []. split; [|reflexivity].
      apply (entries_skips _ _ _ _ (slen pre + slen ms));
        [lia | apply (ws_skips _ _ _ _ W Sf) | apply entries_nil; lia].
    - apply (json_members_entries kvs ms J (rdata r) _ _ c post Cl Sf). }
  destruct It as (es & It & M).
  rewrite (object_entries (rdata r) (rend r) o (rcur r) (slen pre + slen ms) es);
    try reflexivity; try assumption.
  - split; [reflexivity | exact M].
  - rewrite E, Cu. exact It.
  - rewrite E. exact Lc.
  - rewrite Cc. exact Cl.
Qed.

Lemma json_one : json_text Value "1".
Proof.
  apply json_num. exists EmptyString, "1", EmptyString, EmptyString.
  repeat split; [auto | | left; reflexivity | left; reflexivity].
  right. exists "1"%char, EmptyString. repeat split.
Defined.

Lemma X16_json_array_is_iterated_witness :
  let data := json "[1, 'a', [true]]" in
  let run := BjArrayIterator_values
               (mkArrayIterator (mkReader data 1 16 1 None)
                                (mkValue ARRAY 0 1 1)) in
  fst run = mkReader data 16 16 0 None
  /\ map (shape data) (snd run) = [(NUMBER, "1"); (STRING, "a"); (ARRAY, "[")].
Proof.
  apply (X16_json_array_is_iterated
           (mkReader (json "[1, 'a', [true]]") 1 16 1 None)
           (mkValue ARRAY 0 1 1)
           (mkArrayIterator (mkReader (json "[1, 'a', [true]]") 1 16 1 None)
                            (mkValue ARRAY 0 1 1))
           "[" (json "1, 'a', [true]") EmptyString "]"
           ["1"; json "'a'"; "[true]"]);
    try reflexivity; try (cbn; lia).
  right.
  apply (elements_more EmptyString "1" EmptyString (json " 'a', [true]")
                       [json "'a'"; "[true]"]); try reflexivity.
  { exact json_one. }
  apply (elements_more " " (json "'a'") EmptyString " [true]" ["[true]"]);
    try reflexivity.
  { apply json_str. exists "a". split; [reflexivity|].
    apply chars_plain; try reflexivity. apply chars_nil. }
  apply (elements_one " " "[true]" EmptyString); try reflexivity.
  apply (json_array "true").
  apply json_elements_one.
  apply (json_element EmptyString "true" EmptyString); try reflexivity.
  apply json_true.
Defined.

Lemma X17_json_object_is_iterated_witness :
  let data := json "{'k': 1, 'n' : null}" in
  let run := BjObjectIterator_entries
               (mkObjectIterator (mkReader data 1 20 1 None)
                                 (mkValue OBJECT 0 1 1)) in
  fst run = mkReader data 20 20 0 None
  /\ map (fun kv => (shape data (fst kv), shape data (snd kv))) (snd run)
     = [((STRING, "k"), (NUMBER, "1")); ((STRING, "n"), (NULL, "null"))].
Proof.
  apply (X17_json_object_is_iterated
           (mkReader (json "{'k': 1, 'n' : null}") 1 20 1 None)
           (mkValue OBJECT 0 1 1)
           (mkObjectIterator (mkReader (json "{'k': 1, 'n' : null}") 1 20 1 None)
                             (mkValue OBJECT 0 1 1))
           "{" (json "'k': 1, 'n' : null") EmptyString "}"
           [("k", "1"); ("n", "null")]);
    try reflexivity; try (cbn; lia).
  right.
  apply (members_more EmptyString "k" EmptyString " " "1" EmptyString
                      (json " 'n' : null") [("n", "null")]);
    try reflexivity.
  { apply chars_plain; try reflexivity. apply chars_nil. }
  { exact json_one. }
  apply (members_one " " "n" " " " " "null" EmptyString); try reflexivity.
  { apply chars_plain; try reflexivity. apply chars_nil. }
  apply json_null.
Defined.

(** ** A whole document, token by token *)

Lemma append_nil_r (s : string) : s ++ EmptyString = s.
Proof. induction s as [|a s IH]; simpl; [reflexivity | rewrite IH; reflexivity]. Qed.

Lemma reads_succ (n : nat) (r : BjReader) :
  reads (S n) r = reads n (fst (bjRead r)).
Proof. reflexivity. Qed.

(** The scans over one item: the last of them leaves the reader behind the
    item at the depth it had, and between the first and the last the depth
    is greater. *)
Lemma item_tokens (data : string) (end_ d i j : Z) (tok : BjValue) (r : BjReader) :
  item_at data end_ d i j tok ->
  rdata r = data -> rend r = end_ -> rcur r = i -> rdepth r = d ->
  truthy (rerror r) = false -> 0 <= d ->
  exists n, (1 <= n)%nat
    /\ reads n r = set_cur r j
    /\ forall k, (0 < k < n)%nat -> d + 1 <= rdepth (reads k r).
Proof.
  intros I D E C Dp T D0.
  destruct I as [i j Sc | i j n L Op Co Lj Clo].
  - exists 1%nat. split; [lia|]. split; [|intros k Hk; lia].
    simpl. rewrite (bjRead_scalar_value _ _ _ _ r Sc D E C T). reflexivity.
  - subst data end_ i d.
    set (r1 := set_cur (set_depth r (rdepth r + 1)) (rcur r + 1)).
    assert (R1 : fst (bjRead r) = r1)
      by (rewrite (bjRead_open r T L Op); reflexivity).
    destruct (abandoned_content r1 (mkValue ARRAY 0 0 (rdepth r)) j n 0)
      as (Full & _);
      try (subst r1; destruct r; simpl in *; auto; lia).
    destruct (content_scanned _ _ _ _ _ Co r1) as (Dn & _);
      try (subst r1; destruct r; simpl in *; auto; lia).
    exists (S (S n)). split; [lia|]. split.
    + rewrite reads_succ, R1, Full.
      subst r1; destruct r; reflexivity.
    + intros k Hk. destruct k as [|k]; [lia|].
      rewrite reads_succ, R1.
      specialize (Dn k ltac:(lia)).
      replace (rdepth r1) with (rdepth r + 1) in Dn
        by (subst r1; destruct r; reflexivity).
      exact Dn.
Qed.

(** X18.  A JSON document, a value with white space around it, scanned
    token by token from a fresh reader: no scan up to the last token of
    the value records an error; once the value is entered the depth is at
    least 1 until its last token is scanned, which brings it back to 0
    with the cursor right behind the value; the scan after that records
    ["unexpected eof"] at the end of the text. *)
Theorem X18_document_returns_to_depth_zero (w1 v w2 : string) :
  json_ws w1 -> json_text Value v -> json_ws w2 ->
  let data := w1 ++ v ++ w2 in
  let r := bjReader data in
  exists n, (1 <= n)%nat
    /\ (forall k, (k <= n)%nat -> rerror (reads k r) = None)
    /\ (forall k, (0 < k < n)%nat -> 1 <= rdepth (reads k r))
    /\ reads n r = mkReader data (slen w1 + slen v) (slen data) 0 None
    /\ bjRead (reads n r)
       = (mkReader data (slen data) (slen data) 0 (Some "unexpected eof"),
          mkValue ERROR (slen data) (slen data) 0).
Proof.
  intros W1 V W2 data r.
  pose proof (suffix_start EmptyString data) as Sf.
  change (EmptyString ++ data) with data in Sf. rewrite slen_nil in Sf.
  unfold data in Sf at 2. rewrite <- (append_nil_r w2) in Sf.
  destruct (element_item data w1 v w2 EmptyString 0 0 W1 V W2 I Sf)
    as (tok & It & _ & B1 & B2 & K1 & K2 & S3).
  apply suffix_nil in S3. rewrite !Z.add_0_l in *.
  set (r0 := set_cur r (slen w1)).
  assert (R0 : bjRead r = bjRead r0).
  { pose proof (slen_nonneg v) as Nv.
    apply bjRead_skips;
      [reflexivity | unfold r, bjReader; cbn [rcur rend]; lia | exact K1]. }
  destruct (item_tokens data (slen data) 0 (slen w1) (slen w1 + slen v) tok r0 It)
    as (n & N1 & Rn & Dn); try reflexivity; try lia.
  assert (Same : forall k, (0 < k)%nat -> reads k r = reads k r0).
  { intros k Hk. destruct k as [|k]; [lia|]. rewrite !reads_succ, R0.
    reflexivity. }
  assert (Fin : reads n r = mkReader data (slen w1 + slen v) (slen data) 0 None)
    by (rewrite (Same n) by lia; rewrite Rn; reflexivity).
  exists n. split; [exact N1|]. split; [|split; [|split; [exact Fin|]]].
  - intros k Hk.
    destruct (reads_error_null_or_set data k) as [Nn|Tk]; [exact Nn|].
    fold r in Tk. rewrite <- (reads_error_stays k n r Tk Hk), Fin in Tk.
    discriminate Tk.
  - intros k Hk. rewrite (Same k) by lia. apply (Dn k Hk).
  - rewrite Fin.
    rewrite bjRead_nothing_left;
      [|reflexivity
       |cbn [rdata rcur rend]; intros x Hx; apply K2; lia].
    cbn [rdata rcur rend rdepth].
    replace (Z.max (slen w1 + slen v) (slen data)) with (slen data) by lia.
    reflexivity.
Qed.

Lemma X18_document_returns_to_depth_zero_witness :
  let data := " [1] " in
  let r := bjReader data in
  exists n, (1 <= n)%nat
    /\ (forall k, (k <= n)%nat -> rerror (reads k r) = None)
    /\ (forall k, (0 < k < n)%nat -> 1 <= rdepth (reads k r))
    /\ reads n r = mkReader data 4 5 0 None
    /\ bjRead (reads n r)
       = (mkReader data 5 5 0 (Some "unexpected eof"), mkValue ERROR 5 5 0).
Proof.
  apply (X18_document_returns_to_depth_zero " " "[1]" " "); try reflexivity.
  apply (json_array "1"), json_elements_one.
  apply (json_element EmptyString "1" EmptyString); try reflexivity.
  exact json_one.
Defined.

(** ** The iterators on any input *)

(** A step of the array iterator hands out a value or reports the end. *)
Lemma bjIterArray_cases (r r' : BjReader) (c : BjValue) (res : BjIteratorResult) :
  bjIterArray r c = (r', res) ->
  (res = mkIter true None /\ cursor_forward r r' /\ iterator_ended c r')
  \/ exists v, res = mkIter false (Some v).
Proof.
  intros H. pose proof (bjIterArray_forward r c) as F. rewrite H in F.
  simpl in F. revert H. unfold bjIterArray.
  pose proof (bjDiscardUntil_stops r (vdepth c)) as St.
  set (r1 := bjDiscardUntil r (vdepth c)) in *.
  pose proof (bjRead_facts r1) as Sf.
  destruct (bjRead r1) as [r2 val] eqn:R. simpl in Sf.
  destruct (BjType_eqb (vtype val) ERROR) eqn:E1; simpl.
  - intros H; inversion H; subst. left. split; [reflexivity|]. split; [exact F|].
    left. apply (sf_error _ _ _ Sf), BjType_eqb_eq, E1.
  - destruct (BjType_eqb (vtype val) END) eqn:E2; intros H; inversion H; subst;
      [|right; eexists; reflexivity].
    left. split; [reflexivity|]. split; [exact F|]. right.
    apply BjType_eqb_eq in E2. apply BjType_eqb_neq in E1.
    pose proof (sf_depth _ _ _ Sf) as Dp. unfold depth_step in Dp.
    rewrite E2 in Dp. destruct Dp as (Dp & _).
    destruct St as [D|T]; [lia|].
    rewrite (bjRead_error r1 T) in R. inversion R; subst.
    exfalso; apply E1; reflexivity.
Qed.

Lemma yielded_from (r r' : BjReader) (c v : BjValue) :
  rcur r <= rcur r' -> rend r' = rend r ->
  yielded r' c v -> yielded r c v.
Proof. unfold yielded. intros L E (A & B & C & D & F). repeat split; auto; lia. Qed.

Lemma array_run_facts (n : nat) :
  forall (r : BjReader) (a : BjValue),
    (Z.to_nat (rend r - rcur r) <= n)%nat ->
    let run := BjArrayIterator_values (mkArrayIterator r a) in
    cursor_forward r (fst run)
    /\ Forall (yielded r a) (snd run)
    /\ ordered_spans (snd run)
    /\ Z.of_nat (length (snd run)) <= Z.max 0 (rend r - rcur r)
    /\ iterator_ended a (fst run).
Proof.
  induction n as [|n IH]; intros r a Hn; cbv zeta;
    rewrite BjArrayIterator_values_unfold;
    destruct (bjIterArray r a) as [r' res] eqn:It;
    destruct (bjIterArray_cases _ _ _ _ It) as [(-> & F & En) | (v & ->)];
    cbn [done value fst snd length];
    try (split; [exact F | split; [constructor | split; [exact I
           | split; [simpl; lia | exact En]]]]);
    apply bjIterArray_yield in It;
    destruct It as (F & Lt & Le & T & Dp & Ve & Y); [lia|].
  destruct F as (Fd & Fe & Fc).
  specialize (IH r' a ltac:(lia)). cbv zeta in IH.
  destruct (BjArrayIterator_values (mkArrayIterator r' a)) as [r'' vs].
  cbn [fst snd length] in IH |- *.
  destruct IH as (F' & Ys & Or & Len & En).
  split; [apply (cursor_forward_trans r r' r''); [repeat split; auto; lia | exact F']|].
  split.
  { constructor; [exact Y|].
    apply (Forall_impl _ (fun v' => yielded_from r r' a v' ltac:(lia) Fe) Ys). }
  split.
  { destruct vs as [|v2 vs]; [exact I|]. split; [|exact Or].
    inversion Ys as [|? ? Y2 _]; subst.
    destruct Y2 as (_ & _ & (S2 & _) & _). lia. }
  split; [|exact En].
  rewrite Nat2Z.inj_succ. lia.
Qed.

(** X19.  Whatever the text and wherever the reader stands, the array
    iterator run to its end only moves the cursor forward; the values it
    hands out are neither Error nor End, lie in the text that was left, at
    the depth of the array (or one deeper for a container), in the order
    of the text and without overlap; there are at most as many as
    characters were left; and the run leaves the reader with an error or
    one level above the array. *)
Theorem X19_array_iterator_on_any_input (r : BjReader) (a : BjValue) :
  let run := BjArrayIterator_values (mkArrayIterator r a) in
  cursor_forward r (fst run)
  /\ Forall (yielded r a) (snd run)
  /\ ordered_spans (snd run)
  /\ Z.of_nat (length (snd run)) <= Z.max 0 (rend r - rcur r)
  /\ iterator_ended a (fst run).
Proof. exact (array_run_facts _ r a (Nat.le_refl _)). Qed.

(** A step of the object iterator hands out a pair or reports the end. *)
Lemma bjIterObject_cases (r r' : BjReader) (c : BjValue)
      (res : BjObjectIteratorResult) :
  bjIterObject r c = (r', res) ->
  (res = mkObjIter true None None /\ cursor_forward r r'
   /\ iterator_ended c r')
  \/ exists k v, res = mkObjIter false (Some k) (Some v).
Proof.
  intros H. pose proof (bjIterObject_forward r c) as F. rewrite H in F.
  simpl in F. revert H. unfold bjIterObject.
  pose proof (bjDiscardUntil_stops r (vdepth c)) as St.
  set (r1 := bjDiscardUntil r (vdepth c)) in *.
  pose proof (bjRead_facts r1) as Sf.
  destruct (bjRead r1) as [r2 key] eqn:R. simpl in Sf.
  destruct (BjType_eqb (vtype key) ERROR) eqn:E1; simpl.
  { intros H; inversion H; subst. left. split; [reflexivity|]. split; [exact F|].
    left. apply (sf_error _ _ _ Sf), BjType_eqb_eq, E1. }
  destruct (BjType_eqb (vtype key) END) eqn:E2.
  { intros H; inversion H; subst.
    left. split; [reflexivity|]. split; [exact F|]. right.
    apply BjType_eqb_eq in E2. apply BjType_eqb_neq in E1.
    pose proof (sf_depth _ _ _ Sf) as Dp. unfold depth_step in Dp.
    rewrite E2 in Dp. destruct Dp as (Dp & _).
    destruct St as [D|T]; [lia|].
    rewrite (bjRead_error r1 T) in R. inversion R; subst.
    exfalso; apply E1; reflexivity. }
  pose proof (bjRead_facts r2) as Sf2.
  destruct (bjRead r2) as [r3 val] eqn:R2. simpl in Sf2.
  destruct (BjType_eqb (vtype val) END) eqn:E3.
  { intros H; inversion H; subst. left. split; [reflexivity|].
    split; [exact F|]. left. reflexivity. }
  destruct (BjType_eqb (vtype val) ERROR) eqn:E4; intros H; inversion H; subst;
    [|right; eexists; eexists; reflexivity].
  left. split; [reflexivity|]. split; [exact F|].
  left. apply (sf_error _ _ _ Sf2), BjType_eqb_eq, E4.
Qed.

Lemma yielded_pair_from (r r' : BjReader) (c : BjValue) (kv : BjValue * BjValue) :
  rcur r <= rcur r' -> rend r' = rend r ->
  yielded_pair r' c kv -> yielded_pair r c kv.
Proof.
  unfold yielded_pair. intros L E (A & B & C & D & F).
  split; [apply (yielded_from r r'); assumption|].
  repeat split; auto; lia.
Qed.

Lemma object_run_facts (n : nat) :
  forall (r : BjReader) (o : BjValue),
    (Z.to_nat (rend r - rcur r) <= n)%nat ->
    let run := BjObjectIterator_entries (mkObjectIterator r o) in
    cursor_forward r (fst run)
    /\ Forall (yielded_pair r o) (snd run)
    /\ ordered_spans (flat_map (fun kv => [fst kv; snd kv]) (snd run))
    /\ Z.of_nat (length (snd run)) <= Z.max 0 (rend r - rcur r)
    /\ iterator_ended o (fst run).
Proof.
  induction n as [|n IH]; intros r o Hn; cbv zeta;
    rewrite BjObjectIterator_entries_unfold;
    destruct (bjIterObject r o) as [r' res] eqn:It;
    destruct (bjIterObject_cases _ _ _ _ It) as [(-> & F & En) | (k & v & ->)];
    cbn [odone okey ovalue fst snd length flat_map];
    try (split; [exact F | split; [constructor | split; [exact I
           | split; [simpl; lia | exact En]]]]);
    apply bjIterObject_yield in It;
    destruct It as (F & Lt & Le & T & Dp & Y & V1 & V2 & Vo & Ve); [lia|].
  destruct F as (Fd & Fe & Fc).
  specialize (IH r' o ltac:(lia)). cbv zeta in IH.
  destruct (BjObjectIterator_entries (mkObjectIterator r' o)) as [r'' es].
  cbn [fst snd length flat_map] in IH |- *.
  destruct IH as (F' & Ys & Or & Len & En).
  split; [apply (cursor_forward_trans r r' r''); [repeat split; auto; lia | exact F']|].
  split.
  { constructor.
    - unfold yielded_pair. cbn [fst snd].
      split; [exact Y|]. repeat split; auto; lia.
    - apply (Forall_impl _ (fun kv => yielded_pair_from r r' o kv ltac:(lia) Fe)
                         Ys). }
  split.
  { cbn [app ordered_spans]. split; [lia|].
    destruct es as [|[k2 v2] es]; [exact I|].
    cbn [flat_map app fst snd] in Or |- *. split; [|exact Or].
    inversion Ys as [|? ? Y2 _]; subst.
    destruct Y2 as ((_ & _ & (S2 & _) & _) & _). cbn [fst] in S2. lia. }
  split; [|exact En].
  rewrite Nat2Z.inj_succ. lia.
Qed.

(** X20.  The same for the object iterator: the cursor only moves
    forward; in every pair handed out the key is neither Error nor End and
    lies at the depth of the object (or one deeper for a container), the
    value is neither Error nor End and stands behind the key; the pairs
    come in the order of the text without overlap, at most as many as
    characters were left; and the run leaves the reader with an error or
    one level above the object. *)
Theorem X20_object_iterator_on_any_input (r : BjReader) (o : BjValue) :
  let run := BjObjectIterator_entries (mkObjectIterator r o) in
  cursor_forward r (fst run)
  /\ Forall (yielded_pair r o) (snd run)
  /\ ordered_spans (flat_map (fun kv => [fst kv; snd kv]) (snd run))
  /\ Z.of_nat (length (snd run)) <= Z.max 0 (rend r - rcur r)
  /\ iterator_ended o (fst run).
Proof. exact (object_run_facts _ r o (Nat.le_refl _)). Qed.

(** X21.  On a reader that carries an error the discard helper and both
    iterators do nothing: a step reports the end, a run hands out nothing,
    and the reader is left as it was, message and cursor included. *)
Theorem X21_iterators_stop_on_error (r : BjReader) (c : BjValue) (depth : Z) :
  truthy (rerror r) = true ->
  bjDiscardUntil r depth = r
  /\ bjIterArray r c = (r, mkIter true None)
  /\ bjIterObject r c = (r, mkObjIter true None None)
  /\ BjArrayIterator_values (mkArrayIterator r c) = (r, [])
  /\ BjObjectIterator_entries (mkObjectIterator r c) = (r, []).
Proof.
  intros T.
  assert (A : bjIterArray r c = (r, mkIter true None)).
  { unfold bjIterArray. rewrite (bjDiscardUntil_error r _ T), (bjRead_error r T).
    reflexivity. }
  assert (O : bjIterObject r c = (r, mkObjIter true None None)).
  { unfold bjIterObject. rewrite (bjDiscardUntil_error r _ T), (bjRead_error r T).
    reflexivity. }
  split; [apply bjDiscardUntil_error, T|]. split; [exact A|]. split; [exact O|].
  rewrite BjArrayIterator_values_unfold, BjObjectIterator_entries_unfold, A, O.
  split; reflexivity.
Qed.

Lemma X21_iterators_stop_on_error_witness :
  let r := fst (bjRead (bjReader "[1, ?, 3]")) in
  let r' := reads 2 r in
  rerror r' = Some "unknown token"
  /\ bjDiscardUntil r' 0 = r'
  /\ bjIterArray r' (snd (bjRead (bjReader "[1, ?, 3]"))) = (r', mkIter true None)
  /\ bjIterObject r' (snd (bjRead (bjReader "[1, ?, 3]")))
     = (r', mkObjIter true None None)
  /\ BjArrayIterator_values
       (mkArrayIterator r' (snd (bjRead (bjReader "[1, ?, 3]")))) = (r', [])
  /\ BjObjectIterator_entries
       (mkObjectIterator r' (snd (bjRead (bjReader "[1, ?, 3]")))) = (r', []).
Proof.
  split; [reflexivity|].
  apply (X21_iterators_stop_on_error
           (reads 2 (fst (bjRead (bjReader "[1, ?, 3]"))))
           (snd (bjRead (bjReader "[1, ?, 3]"))) 0).
  reflexivity.
Defined.

(** ** The discard helper as a run of scans *)

Lemma discard_first (n : nat) :
  forall (r : BjReader) (depth : Z),
    (Z.to_nat (rend r - rcur r) <= n)%nat ->
    exists m,
      bjDiscardUntil r depth = reads m r
      /\ (forall k, (k < m)%nat ->
            rdepth (reads k r) <> depth
            /\ truthy (rerror (reads k r)) = false).
Proof.
  induction n as [|n IH]; intros r depth Hn.
  - destruct (truthy (rerror r)) eqn:T.
    { exists O. split; [apply bjDiscardUntil_error, T | intros k Hk; lia]. }
    destruct (Z.eq_dec (rdepth r) depth) as [D|D].
    { exists O. split; [apply bjDiscardUntil_at_depth, D | intros k Hk; lia]. }
    pose proof (bjRead_facts r) as Sf.
    assert (E : truthy (rerror (fst (bjRead r))) = true).
    { apply (sf_error _ _ _ Sf).
      destruct (BjType_eqb (vtype (snd (bjRead r))) ERROR) eqn:Ty;
        [apply BjType_eqb_eq, Ty|].
      apply BjType_eqb_neq in Ty. destruct (sf_token _ _ _ Sf Ty) as (_ & _ & L).
      lia. }
    exists 1%nat. split.
    + rewrite bjDiscardUntil_unfold, (proj2 (Z.eqb_neq _ _) D).
      apply bjDiscardUntil_error, E.
    + intros k Hk. replace k with O by lia. split; assumption.
  - destruct (truthy (rerror r)) eqn:T.
    { exists O. split; [apply bjDiscardUntil_error, T | intros k Hk; lia]. }
    destruct (Z.eq_dec (rdepth r) depth) as [D|D].
    { exists O. split; [apply bjDiscardUntil_at_depth, D | intros k Hk; lia]. }
    pose proof (bjRead_facts r) as Sf.
    destruct (BjType_eqb (vtype (snd (bjRead r))) ERROR) eqn:Ty.
    + apply BjType_eqb_eq, (sf_error _ _ _ Sf) in Ty.
      exists 1%nat. split.
      * rewrite bjDiscardUntil_unfold, (proj2 (Z.eqb_neq _ _) D).
        apply bjDiscardUntil_error, Ty.
      * intros k Hk. replace k with O by lia. split; assumption.
    + apply BjType_eqb_neq in Ty.
      destruct (sf_token _ _ _ Sf Ty) as (_ & Lt & L).
      pose proof (sf_end _ _ _ Sf) as En.
      destruct (IH (fst (bjRead r)) depth) as (m & Eq & Fst); [lia|].
      exists (S m). split.
      * rewrite bjDiscardUntil_unfold, (proj2 (Z.eqb_neq _ _) D). exact Eq.
      * intros k Hk. destruct k as [|k]; [split; assumption|].
        apply Fst. lia.
Qed.

(** X22.  The discard helper is a run of scans that stops at the first
    reader whose depth is the target or that carries an error: it returns
    the reader after [m] scans, no earlier reader of the run had the target
    depth or an error, and the one returned has one of the two.  Asked
    again for the same depth it does nothing more. *)
Theorem X22_discard_stops_at_the_first (r : BjReader) (depth : Z) :
  (exists m,
      bjDiscardUntil r depth = reads m r
      /\ (rdepth (reads m r) = depth \/ truthy (rerror (reads m r)) = true)
      /\ forall k, (k < m)%nat ->
           rdepth (reads k r) <> depth
           /\ truthy (rerror (reads k r)) = false)
  /\ bjDiscardUntil (bjDiscardUntil r depth) depth = bjDiscardUntil r depth.
Proof.
  pose proof (bjDiscardUntil_stops r depth) as St.
  split.
  - destruct (discard_first _ r depth (Nat.le_refl _)) as (m & Eq & Fst).
    exists m. rewrite <- Eq. auto.
  - destruct St as [D|T];
      [apply bjDiscardUntil_at_depth, D | apply bjDiscardUntil_error, T].
Qed.

(** ** The literal matcher *)

Lemma isString_from_iff (data : string) (cur end_ : Z) (expect : string) :
  forall i : Z,
    0 <= i ->
    isString_from data cur end_ expect i = true
    <-> (forall k, 0 <= k < slen expect ->
           cur + i + k < end_
           /\ is_chr (char_at data (cur + i + k)) 
                     (match char_at expect k with Some e => e | None => zero end)
              = true).
Proof.
  induction expect as [|e rest IH]; intros i Hi.
  - split; [intros _ k Hk; rewrite slen_nil in Hk; lia | reflexivity].
  - pose proof (slen_nonneg rest) as Hr. cbn [isString_from]. split.
    + intros H k Hk. rewrite slen_String in Hk.
      destruct (end_ <=? cur + i) eqn:E; [discriminate H|].
      destruct (is_chr (char_at data (cur + i)) e) eqn:C; [|discriminate H].
      simpl in H. apply Z.leb_gt in E.
      destruct (Z.eq_dec k 0) as [->|Ne].
      * rewrite Z.add_0_r. split; [exact E | exact C].
      * apply (IH (i + 1) ltac:(lia)) with (k := k - 1) in H; [|lia].
        replace (cur + (i + 1) + (k - 1)) with (cur + i + k) in H by lia.
        replace (char_at (String e rest) k) with (char_at rest (k - 1));
          [exact H|].
        unfold char_at.
        rewrite (proj2 (Z.ltb_ge (k - 1) 0)), (proj2 (Z.ltb_ge k 0)) by lia.
        replace (Z.to_nat k) with (S (Z.to_nat (k - 1))) by lia. reflexivity.
    + intros H. rewrite slen_String in H.
      destruct (H 0 ltac:(lia)) as [E C]. rewrite Z.add_0_r in E, C.
      simpl in C. rewrite (proj2 (Z.leb_gt _ _) E), C. simpl.
      apply (IH (i + 1) ltac:(lia)). intros k Hk.
      specialize (H (k + 1) ltac:(lia)).
      replace (cur + i + (k + 1)) with (cur + (i + 1) + k) in H by lia.
      replace (char_at (String e rest) (k + 1)) with (char_at rest k) in H;
        [exact H|].
      unfold char_at.
      rewrite (proj2 (Z.ltb_ge k 0)), (proj2 (Z.ltb_ge (k + 1) 0)) by lia.
      replace (Z.to_nat (k + 1)) with (S (Z.to_nat k)) by lia. reflexivity.
Qed.

Lemma char_at_in_range (s : string) (k : Z) :
  0 <= k < slen s -> exists e, char_at s k = Some e.
Proof.
  intros Hk. unfold char_at. rewrite (proj2 (Z.ltb_ge k 0)) by lia.
  destruct (String.get (Z.to_nat k) s) as [e|] eqn:G; [eauto|].
  exfalso. unfold slen in Hk.
  assert (L : (Z.to_nat k < String.length s)%nat) by lia.
  clear Hk. revert G L. generalize (Z.to_nat k) as n.
  induction s as [|a s IH]; intros n G L; simpl in *; [lia|].
  destruct n as [|n]; [discriminate G|]. apply (IH n G). lia.
Qed.

(** X23.  [isString] answers true exactly when every character of
    [expect] stands in the text at its place from [cur] on, before [end];
    the text from [cur] is then [expect] itself. *)
Theorem X23_isString_matches_the_literal
        (data : string) (cur end_ : Z) (expect : string) :
  (isString data cur end_ expect = true
   <-> forall k, 0 <= k < slen expect ->
         cur + k < end_ /\ char_at data (cur + k) = char_at expect k)
  /\ (isString data cur end_ expect = true -> expect <> EmptyString ->
      0 <= cur /\ cur + slen expect <= end_
      /\ cur + slen expect <= slen data
      /\ substring data cur (cur + slen expect) = expect).
Proof.
  assert (Iff : isString data cur end_ expect = true
                <-> forall k, 0 <= k < slen expect ->
                      cur + k < end_
                      /\ char_at data (cur + k) = char_at expect k).
  { unfold isString.
    rewrite (isString_from_iff data cur end_ expect 0 (Z.le_refl 0)).
    split; intros H k Hk; specialize (H k Hk);
      destruct (char_at_in_range expect k Hk) as [e Ce];
      rewrite Ce in H |- *; rewrite Z.add_0_r in *;
      destruct H as [L C]; (split; [exact L|]).
    - apply is_chr_Some, C.
    - rewrite C. simpl. apply Ascii.eqb_refl. }
  split; [exact Iff|].
  intros H Ne. destruct expect as [|a rest]; [contradiction Ne; reflexivity|].
  destruct (isString_within _ _ _ _ _ H) as [W1 W2].
  pose proof (isString_substring _ _ _ _ _ H) as Sub.
  pose proof (slen_nonneg rest) as Hr.
  destruct (proj1 Iff H (slen rest)) as [L _];
    [rewrite slen_String; lia|].
  rewrite slen_String in *. repeat split; try assumption; lia.
Qed.

(** ** What a scan passes over *)

Lemma bjRead_step_continue_skip (r r1 : BjReader) :
  bjRead_step r = Continue r1 ->
  is_skip (char_at (rdata r) (rcur r)) = true.
Proof.
  unfold bjRead_step, unknown_token.
  destruct (truthy (rerror r)); [discriminate|].
  destruct (rend r <=? rcur r) eqn:E; [discriminate|]. cbv zeta.
  destruct (is_skip _); [reflexivity|].
  destruct (is_number_start _); [discriminate|].
  destruct (is_chr _ quote).
  { destruct (string_scan _ _ _) as [q [|]]; discriminate. }
  destruct (is_open _); [discriminate|].
  destruct (is_close _).
  { destruct (rdepth r - 1 <? 0); discriminate. }
  destruct (is_literal_start _); [|discriminate].
  destruct (isString _ _ _ "null"); [discriminate|].
  destruct (isString _ _ _ "true"); [discriminate|].
  destruct (isString _ _ _ "false"); discriminate.
Qed.

(** The turn of the loop that returns a token stands on its first
    character. *)
Lemma bjRead_step_start (r r' : BjReader) (v : BjValue) :
  bjRead_step r = Return r' v -> vtype v <> ERROR ->
  rcur r < rend r
  /\ is_skip (char_at (rdata r) (rcur r)) = false
  /\ token_start v = rcur r.
Proof.
  unfold bjRead_step, unknown_token, token_start.
  destruct (truthy (rerror r)) eqn:T.
  { intros H N; inversion H; subst; exfalso; apply N; reflexivity. }
  destruct (rend r <=? rcur r) eqn:E.
  { intros H N; inversion H; subst; exfalso; apply N; reflexivity. }
  apply Z.leb_gt in E. cbv zeta.
  destruct (is_skip _) eqn:Sk; [discriminate|].
  destruct (is_number_start _) eqn:Ns.
  { intros H N; inversion H; subst. simpl. auto. }
  destruct (is_chr _ quote) eqn:Q.
  { destruct (string_scan _ _ _) as [q [|]] eqn:S; intros H N; inversion H; subst;
      simpl; [repeat split; auto; lia | exfalso; apply N; reflexivity]. }
  destruct (is_open _) eqn:O.
  { intros H N; inversion H; subst. simpl.
    destruct (is_chr _ "{"); simpl; auto. }
  destruct (is_close _) eqn:C.
  { destruct (rdepth r - 1 <? 0); intros H N; inversion H; subst; simpl;
      [exfalso; apply N; reflexivity | auto]. }
  assert (U : forall r0 v0,
             Return (set_error r "unknown token")
                    (mkValue ERROR (rcur r) (rcur r) (rdepth r)) = Return r0 v0 ->
             vtype v0 <> ERROR -> False).
  { intros r0 v0 H N; inversion H; subst. apply N; reflexivity. }
  destruct (is_literal_start _); [|intros H N; destruct (U _ _ H N)].
  destruct (isString _ _ _ "null").
  { intros H N; inversion H; subst. simpl.
    destruct (is_chr _ "n"); simpl; auto. }
  destruct (isString _ _ _ "true").
  { intros H N; inversion H; subst. simpl.
    destruct (is_chr _ "n"); simpl; auto. }
  destruct (isString _ _ _ "false"); [|intros H N; destruct (U _ _ H N)].
  intros H N; inversion H; subst. simpl.
  destruct (is_chr _ "n"); simpl; auto.
Qed.

(** A scan is a run of characters passed over, then one returning turn. *)
Lemma bjRead_skipped (r : BjReader) :
  exists p, rcur r <= p
    /\ (forall x, rcur r <= x < p -> is_skip (char_at (rdata r) x) = true)
    /\ bjRead_step (set_cur r p) = Return (fst (bjRead r)) (snd (bjRead r)).
Proof.
  apply (bjRead_ind
           (fun r r' v =>
              exists p, rcur r <= p
                /\ (forall x, rcur r <= x < p ->
                      is_skip (char_at (rdata r) x) = true)
                /\ bjRead_step (set_cur r p) = Return r' v)).
  - intros r0 r' v S. exists (rcur r0).
    split; [lia|]. split; [intros x Hx; lia|].
    rewrite set_cur_same. exact S.
  - intros r0 r1 r' v S (p & Le & Sk & St).
    pose proof (bjRead_step_continue_skip _ _ S) as Sk0.
    apply bjRead_step_continue in S. destruct S as (-> & Lt & T).
    simpl in Le, Sk, St. exists p. split; [lia|]. split.
    + intros x Hx. destruct (Z.eq_dec x (rcur r0)) as [->|Ne];
        [exact Sk0 | apply Sk; lia].
    + replace (set_cur r0 p) with (set_cur (set_cur r0 (rcur r0 + 1)) p)
        by (destruct r0; reflexivity).
      exact St.
Qed.



(** X25.  The benchmark readers look at the root only: when the first
    character of the document that is no white space, comma or colon is
    an opening square bracket, [benchmarkArray] returns a count, and in
    every other case, the empty document included, it throws
    ["Value is not an array"] before any iteration; the same holds of
    [benchmarkObject] with the opening brace. *)
Theorem X25_benchmark_checks_the_root (data : string) :
  (first_token data "[" -> exists n, 0 <= n /\ benchmarkArray data = Ok n)
  /\ (~ first_token data "[" ->
      benchmarkArray data = Throw "Value is not an array")
  /\ (first_token data "{" -> exists n, 0 <= n /\ benchmarkObject data = Ok n)
  /\ (~ first_token data "{" ->
      benchmarkObject data = Throw "Value is not an object").
Proof.
  assert (Root : forall c, first_token data c -> is_open (Some c) = true ->
             vtype (snd (bjRead (bjReader data)))
             = if is_chr (Some c) "{" then OBJECT else ARRAY).
  { intros c (p & B & Sk & C) Op.
    rewrite (bjRead_skips (bjReader data) p); [|reflexivity|simpl; lia|exact Sk].
    rewrite bjRead_open; simpl; try reflexivity; try lia;
      rewrite C; [reflexivity | exact Op]. }
  assert (Back : forall c,
             is_chr (char_at data (vstart (snd (bjRead (bjReader data))))) c = true ->
             vtype (snd (bjRead (bjReader data))) <> ERROR ->
             vtype (snd (bjRead (bjReader data))) <> STRING ->
             first_token data c).
  { intros c C N Ns.
    destruct (bjRead_skipped (bjReader data)) as (p & Le & Sk & St).
    destruct (bjRead_step_start _ _ _ St N) as (Lt & _ & Ts).
    unfold token_start in Ts. apply BjType_eqb_neq in Ns. rewrite Ns in Ts.
    simpl in Le, Sk, Lt, Ts. exists p. rewrite <- Ts.
    split; [lia|]. split; [rewrite Ts; exact Sk|]. apply is_chr_Some, C. }
  pose proof (tf_kind _ _ _ (bjRead_token_facts (bjReader data))) as K.
  unfold kind_at in K. simpl rdata in K.
  unfold benchmarkArray, benchmarkObject,
    new_BjArrayIterator, new_BjObjectIterator.
  destruct (bjRead (bjReader data)) as [r' root] eqn:R. simpl in Root, Back, K.
  repeat split.
  - intros F. rewrite (Root _ F eq_refl). simpl.
    eexists; split; [|reflexivity]. rewrite count_length. lia.
  - intros F. destruct (vtype root) eqn:Ty; simpl; try reflexivity.
    exfalso. apply F, Back; [apply K | discriminate | discriminate].
  - intros F. rewrite (Root _ F eq_refl). simpl.
    eexists; split; [|reflexivity]. rewrite count_length. lia.
  - intros F. destruct (vtype root) eqn:Ty; simpl; try reflexivity.
    exfalso. apply F, Back; [apply K | discriminate | discriminate].
Qed.

(** ** C4: a nested value abandoned, and the siblings that remain *)

(** What remains of an array behind one of its elements, up to its closing
    bracket: one item for each element that remains. *)
Lemma more_elements_items (sibs : list string) (rest : string) :
  json_more_elements sibs rest ->
  forall (data : string) (i d : Z) (c : ascii) (post : string),
    is_close (Some c) = true ->
    suffix_at data i (rest ++ String c post) ->
    exists toks,
      items_at data (slen data) d i (i + slen rest) toks
      /\ map (shape data) toks = map text_shape sibs.
Proof.
  intros [[W ->] | (w & es & -> & W & J)] data i d c post Cl Sf.
  - pose proof (suffix_bound _ _ _ (suffix_app _ _ _ _ Sf)) as B.
    pose proof (slen_nonneg rest) as Nr.
    exists []. split; [|reflexivity].
    apply (items_skips _ _ _ _ (i + slen rest));
      [lia | apply (ws_skips _ _ _ _ W Sf) | apply items_nil; lia].
  - rewrite !append_assoc in Sf. cbn [append] in Sf.
    pose proof (ws_skips _ _ _ _ W Sf) as K.
    pose proof (suffix_app _ _ _ _ Sf) as S1.
    apply suffix_cons in S1. destruct S1 as (L & C & S1).
    destruct (json_elements_items sibs es J data _ d c post Cl S1)
      as (toks & It & M).
    pose proof (slen_nonneg w) as Nw.
    exists toks. split; [|exact M].
    apply (items_skips _ _ _ _ (i + slen w)); [lia | exact K|].
    apply items_skip; [exact L | rewrite C; reflexivity|].
    replace (i + slen (w ++ "," ++ es)) with (i + slen w + 1 + slen es)
      by (rewrite !slen_append; change (slen ",") with 1; lia).
    exact It.
Qed.

Lemma more_members_entries (kvs : list (string * string)) (rest : string) :
  json_more_members kvs rest ->
  forall (data : string) (i d : Z) (c : ascii) (post : string),
    is_close (Some c) = true ->
    suffix_at data i (rest ++ String c post) ->
    exists es,
      entries_at data (slen data) d i (i + slen rest) es
      /\ map (fun kv => (shape data (fst kv), shape data (snd kv))) es
         = map (fun kx => ((STRING, fst kx), text_shape (snd kx))) kvs.
Proof.
  intros [[W ->] | (w & ms & -> & W & J)] data i d c post Cl Sf.
  - pose proof (suffix_bound _ _ _ (suffix_app _ _ _ _ Sf)) as B.
    pose proof (slen_nonneg rest) as Nr.
    exists []. split; [|reflexivity].
    apply (entries_skips _ _ _ _ (i + slen rest));
      [lia | apply (ws_skips _ _ _ _ W Sf) | apply entries_nil; lia].
  - rewrite !append_assoc in Sf. cbn [append] in Sf.
    pose proof (ws_skips _ _ _ _ W Sf) as K.
    pose proof (suffix_app _ _ _ _ Sf) as S1.
    apply suffix_cons in S1. destruct S1 as (L & C & S1).
    destruct (json_members_entries kvs ms J data _ d c post Cl S1)
      as (es & It & M).
    pose proof (slen_nonneg w) as Nw.
    exists es. split; [|exact M].
    apply (entries_skips _ _ _ _ (i + slen w)); [lia | exact K|].
    apply entries_skip; [exact L | rewrite C; reflexivity|].
    replace (i + slen (w ++ "," ++ ms)) with (i + slen w + 1 + slen ms)
      by (rewrite !slen_append; change (slen ",") with 1; lia).
    exact It.
Qed.

(** The first step of a run of the array iterator, read off the run. *)
Lemma array_run_first (r r' : BjReader) (a : BjValue) (data : string)
      (toks : list BjValue) (sibs : list string) :
  BjArrayIterator_values (mkArrayIterator r a) = (r', toks) ->
  map (shape data) toks = map text_shape sibs ->
  match sibs with
  | [] => bjIterArray r a = (r', mkIter true None)
  | s :: _ =>
      exists r1 v1, bjIterArray r a = (r1, mkIter false (Some v1))
                    /\ shape data v1 = text_shape s
  end.
Proof.
  intros V M. rewrite BjArrayIterator_values_unfold in V.
  destruct (bjIterArray r a) as [r1 res] eqn:It.
  destruct (bjIterArray_cases _ _ _ _ It) as [(-> & _) | (v1 & ->)];
    cbn [done value] in V.
  - inversion V; subst. destruct sibs; [reflexivity | discriminate M].
  - destruct (BjArrayIterator_values (mkArrayIterator r1 a)) as [r'' vs].
    inversion V; subst. destruct sibs as [|s sibs]; [discriminate M|].
    inversion M. eauto.
Qed.

Lemma object_run_first (r r' : BjReader) (o : BjValue) (data : string)
      (es : list (BjValue * BjValue)) (kvs : list (string * string)) :
  BjObjectIterator_entries (mkObjectIterator r o) = (r', es) ->
  map (fun kv => (shape data (fst kv), shape data (snd kv))) es
  = map (fun kx => ((STRING, fst kx), text_shape (snd kx))) kvs ->
  match kvs with
  | [] => bjIterObject r o = (r', mkObjIter true None None)
  | kx :: _ =>
      exists r1 key val,
        bjIterObject r o = (r1, mkObjIter false (Some key) (Some val))
        /\ shape data key = (STRING, fst kx)
        /\ shape data val = text_shape (snd kx)
  end.
Proof.
  intros V M. rewrite BjObjectIterator_entries_unfold in V.
  destruct (bjIterObject r o) as [r1 res] eqn:It.
  destruct (bjIterObject_cases _ _ _ _ It) as [(-> & _) | (k & v & ->)];
    cbn [odone okey ovalue] in V.
  - inversion V; subst. destruct kvs; [reflexivity | discriminate M].
  - destruct (BjObjectIterator_entries (mkObjectIterator r1 o)) as [r'' vs].
    inversion V; subst. destruct kvs as [|kx kvs]; [discriminate M|].
    cbn [map fst snd] in M. inversion M. eauto 6.
Qed.

(** C4.  A step of the iterator of the container [c] (the array iterator,
    or the object iterator with a String key) has handed the caller a nested
    container [v]; the text of [v] in the buffer is a well-formed JSON array
    or object, and [rest] stands between it and the bracket that closes
    [c].  Then no error is set; some number [m] of scans consumes the
    nested value in full and leaves the reader [full], just after its
    closing bracket and back at the depth of [c]; and if the caller stops
    after any [k <= m] of them (none, some, or all), the iterator of [c]
    goes on as if the nested value had been consumed in full:
    - the discard helper moves the reader exactly to [full], and the next
      step returns what it returns from [full];
    - when [c] is an array and [rest] holds the elements [sibs], the next
      step hands out the first of them (its kind and text), or reports
      the end when there is none, and the run of the iterator hands out
      exactly [sibs], in order, and leaves the reader [after], behind the
      closing bracket of [c] and one level up;
    - when [c] is an object and [rest] holds the members [kvs], the same
      with the pairs of [kvs]. *)
Theorem C4_abandoned_nested_value
        (r0 r : BjReader) (c v : BjValue)
        (pre opening body closing rest post : string) (cl : ascii) :
  bjIterArray r0 c = (r, mkIter false (Some v))
  \/ (exists key, vtype key = STRING
                  /\ bjIterObject r0 c = (r, mkObjIter false (Some key) (Some v))) ->
  vtype v = ARRAY \/ vtype v = OBJECT ->
  json_container opening body closing ->
  rdata r = pre ++ opening ++ body ++ closing ++ rest ++ String cl post ->
  is_close (Some cl) = true ->
  slen pre = vstart v ->
  rend r = slen (rdata r) ->
  0 <= vdepth c ->
  let full := set_cur (set_depth r (vdepth c)) (slen pre + slen body + 2) in
  let after := set_cur (set_depth r (vdepth c - 1))
                       (slen pre + slen body + 2 + slen rest + 1) in
  truthy (rerror r) = false
  /\ exists m : nat,
      reads m r = full
      /\ forall k, (k <= m)%nat ->
           bjDiscardUntil (reads k r) (vdepth c) = full
           /\ bjIterArray (reads k r) c = bjIterArray full c
           /\ bjIterObject (reads k r) c = bjIterObject full c
           /\ (forall sibs : list string,
                  1 <= vdepth c -> json_more_elements sibs rest ->
                  let run := BjArrayIterator_values
                               (mkArrayIterator (reads k r) c) in
                  fst run = after
                  /\ map (shape (rdata r)) (snd run) = map text_shape sibs
                  /\ match sibs with
                     | [] => bjIterArray (reads k r) c
                             = (after, mkIter true None)
                     | s :: _ =>
                         exists r1 v1,
                           bjIterArray (reads k r) c
                           = (r1, mkIter false (Some v1))
                           /\ shape (rdata r) v1 = text_shape s
                     end)
           /\ (forall kvs : list (string * string),
                  1 <= vdepth c -> json_more_members kvs rest ->
                  let run := BjObjectIterator_entries
                               (mkObjectIterator (reads k r) c) in
                  fst run = after
                  /\ map (fun kv => (shape (rdata r) (fst kv),
                                     shape (rdata r) (snd kv))) (snd run)
                     = map (fun kx => ((STRING, fst kx), text_shape (snd kx)))
                           kvs
                  /\ match kvs with
                     | [] => bjIterObject (reads k r) c
                             = (after, mkObjIter true None None)
                     | kx :: _ =>
                         exists r1 key val,
                           bjIterObject (reads k r) c
                           = (r1, mkObjIter false (Some key) (Some val))
                           /\ shape (rdata r) key = (STRING, fst kx)
                           /\ shape (rdata r) val = text_shape (snd kx)
                     end).
Proof.
  intros Step K J D Cl P E D0 full after.
  assert (H : truthy (rerror r) = false /\ rdepth r = vdepth c + 1
              /\ rcur r = vstart v + 1).
  { destruct Step as [A | (key & Ks & O)].
    - apply (iter_array_yields_container r0 r c v A K).
    - apply (iter_object_yields_container r0 r c key v O Ks K). }
  destruct H as (T & Dp & Cu).
  split; [exact T|].
  destruct (abandoned_json r c pre opening body closing
                           (rest ++ String cl post))
    as (m & Rm & H); try assumption; [lia|].
  fold full in Rm, H.
  assert (Sf : suffix_at (rdata r) (slen pre + slen body + 2)
                         (rest ++ String cl post)).
  { pose proof (suffix_start (pre ++ opening ++ body ++ closing)
                             (rest ++ String cl post)) as S.
    rewrite !append_assoc in S. rewrite <- D in S.
    replace (slen (pre ++ opening ++ body ++ closing))
      with (slen pre + slen body + 2) in S; [exact S|].
    rewrite !slen_append.
    destruct J as [(-> & -> & _) | (-> & -> & _)];
      rewrite !slen_String, slen_nil; lia. }
  pose proof (suffix_app _ _ _ _ Sf) as Sc.
  apply suffix_cons in Sc. destruct Sc as (Lc & Cc & _).
  exists m. split; [exact Rm|]. intros k Hk.
  destruct (H k Hk) as (Dk & Ak & Ok).
  split; [exact Dk|]. split; [exact Ak|]. split; [exact Ok|]. split.
  - intros sibs D1 Js. cbv zeta.
    destruct (more_elements_items sibs rest Js (rdata r) _ (vdepth c) cl post
                                  Cl Sf) as (toks & It & M).
    assert (V : BjArrayIterator_values (mkArrayIterator (reads k r) c)
                = (after, toks)).
    { rewrite (BjArrayIterator_values_step _ _ _ Ak).
      rewrite (array_items (rdata r) (slen (rdata r)) c
                 (slen pre + slen body + 2)
                 (slen pre + slen body + 2 + slen rest) toks It D1 Lc);
        try (rewrite Cc; exact Cl);
        try (unfold full, after; destruct r; simpl in *; auto; fail). }
    rewrite V. cbn [fst snd]. split; [reflexivity|]. split; [exact M|].
    apply (array_run_first _ _ _ _ _ _ V M).
  - intros kvs D1 Js. cbv zeta.
    destruct (more_members_entries kvs rest Js (rdata r) _ (vdepth c) cl post
                                   Cl Sf) as (es & It & M).
    assert (V : BjObjectIterator_entries (mkObjectIterator (reads k r) c)
                = (after, es)).
    { rewrite (BjObjectIterator_entries_step _ _ _ Ok).
      rewrite (object_entries (rdata r) (slen (rdata r)) c
                 (slen pre + slen body + 2)
                 (slen pre + slen body + 2 + slen rest) es It D1 Lc);
        try (rewrite Cc; exact Cl);
        try (unfold full, after; destruct r; simpl in *; auto; fail). }
    rewrite V. cbn [fst snd]. split; [reflexivity|]. split; [exact M|].
    apply (object_run_first _ _ _ _ _ _ V M).
Qed.

Lemma json_digit (a : ascii) :
  is_digit19_char a = true -> json_text Value (String a EmptyString).
Proof.
  intros H. apply json_num.
  exists EmptyString, (String a EmptyString), EmptyString, EmptyString.
  repeat split; [auto | | left; reflexivity | left; reflexivity].
  right. exists a, EmptyString. repeat split. exact H.
Defined.

Lemma C4_abandoned_nested_value_witness :
  (let data := "[[1, 2], 3]" in
   let c := mkValue ARRAY 0 1 1 in
   let r := mkReader data 2 11 2 None in
   let full := mkReader data 7 11 1 None in
   let after := mkReader data 11 11 0 None in
   bjIterArray (mkReader data 1 11 1 None) c
   = (r, mkIter false (Some (mkValue ARRAY 1 2 2)))
   /\ exists m : nat,
       reads m r = full
       /\ forall k, (k <= m)%nat ->
            bjDiscardUntil (reads k r) 1 = full
            /\ fst (BjArrayIterator_values (mkArrayIterator (reads k r) c))
               = after
            /\ map (shape data)
                   (snd (BjArrayIterator_values (mkArrayIterator (reads k r) c)))
               = [(NUMBER, "3")]
            /\ exists r1 v1,
                bjIterArray (reads k r) c = (r1, mkIter false (Some v1))
                /\ shape data v1 = (NUMBER, "3"))
  /\ (let after := mkReader nested_doc 15 15 0 None in
      exists m : nat,
        reads m nested_entered = mkReader nested_doc 14 15 1 None
        /\ forall k, (k <= m)%nat ->
             bjIterObject (reads k nested_entered) nested_root
             = (after, mkObjIter true None None)
             /\ BjObjectIterator_entries
                  (mkObjectIterator (reads k nested_entered) nested_root)
                = (after, [])).
Proof.
  split.
  - cbv zeta. split; [reflexivity|].
    assert (J : json_container "[" "1, 2" "]").
    { left. split; [reflexivity|]. split; [reflexivity|]. right.
      apply (json_elements_more "1" " 2").
      - apply (json_element EmptyString "1" EmptyString); try reflexivity.
        apply json_digit. reflexivity.
      - apply json_elements_one.
        apply (json_element " " "2" EmptyString); try reflexivity.
        apply json_digit. reflexivity. }
    destruct (C4_abandoned_nested_value
                (mkReader "[[1, 2], 3]" 1 11 1 None)
                (mkReader "[[1, 2], 3]" 2 11 2 None)
                (mkValue ARRAY 0 1 1) (mkValue ARRAY 1 2 2)
                "[" "[" "1, 2" "]" ", 3" EmptyString "]"
                (or_introl eq_refl) (or_introl eq_refl) J
                eq_refl eq_refl eq_refl eq_refl ltac:(cbn; lia))
      as (_ & m & Rm & H).
    exists m. split; [exact Rm|]. intros k Hk.
    destruct (H k Hk) as (Dk & _ & _ & A & _).
    split; [exact Dk|].
    apply (A ["3"]); [cbn; lia|].
    right. exists EmptyString, " 3".
    split; [reflexivity|]. split; [reflexivity|].
    apply (elements_one " " "3" EmptyString); try reflexivity.
    apply json_digit. reflexivity.
  - cbv zeta.
    assert (J : json_container "{" (json "'b': 1") "}").
    { right. split; [reflexivity|]. split; [reflexivity|]. right.
      apply json_members_one.
      apply (json_member EmptyString (json "'b'") EmptyString " 1");
        try reflexivity.
      - exists "b". split; [reflexivity|].
        apply chars_plain; try reflexivity. apply chars_nil.
      - apply (json_element " " "1" EmptyString); try reflexivity.
        apply json_digit. reflexivity. }
    destruct (C4_abandoned_nested_value
                (fst (bjRead (bjReader nested_doc))) nested_entered
                nested_root (mkValue OBJECT 6 7 2)
                (json "{'a': ") "{" (json "'b': 1") "}" EmptyString
                EmptyString "}"
                (or_intror (ex_intro _ (mkValue STRING 2 3 1)
                                     (conj eq_refl eq_refl)))
                (or_intror eq_refl) J
                eq_refl eq_refl eq_refl eq_refl
                ltac:(vm_compute; discriminate))
      as (_ & m & Rm & H).
    exists m. split; [exact Rm|]. intros k Hk.
    destruct (H k Hk) as (_ & _ & _ & _ & O).
    destruct (O [] ltac:(vm_compute; discriminate)
                (or_introl (conj eq_refl eq_refl)))
      as (F & M & S).
    split; [exact S|].
    destruct (BjObjectIterator_entries
                (mkObjectIterator (reads k nested_entered) nested_root))
      as [r' es].
    cbn [fst snd] in F, M. destruct es; [|discriminate M].
    rewrite F. reflexivity.
Defined.
